(** * TYPOGRAPHY_ANALYZER: style audit and contrast evaluation engine

    A shallow embedding of the contrast engine of
    [src/UI/Accessibility.Contrast.Analyzer.js] (module [Contrast]) and of the
    style fingerprint collector of [src/code.js] (module [Typography]).

    Number models.
    - [Contrast]: a JavaScript Number is a real number ([R]): the arithmetic
      of the colour formulas is exact.  [Math.pow] on a positive base is
      [Rpower], [Math.round x] is the floor of [x + 1/2].  Comparisons are
      the decidable order of [R] turned into booleans.
    - [Contrast64]: the blend, the luminance and the contrast ratio once
      more on binary64 numbers, as the engine computes them; [Math.pow]
      is a parameter.
    - [Typography], [Keyboard], [ColorParser]: a JavaScript Number is a
      binary64 number ([PrimFloat]), so that [NaN], the infinities and the
      rounding behave as in the engine; [parseFloat] and [parseInt] round
      what they read to the nearest one.

    Strings are sequences of code units below 256 (module [JSString]).

    Exceptions.  No pass of the analyzers catches an exception.  A
    function that can end with an exception returns a [Completion]
    (module [DOM]): the state it leaves, and whether it returned or
    threw.  [generateSelector] throws when [document.querySelectorAll]
    rejects the selector it builds from the tag and the class names;
    every [createFixableIssue] calls it.

    The definitions of all modules come first, their properties after. *)

From Stdlib Require Import Reals Lra Lia ZArith List String Ascii Bool.
From Stdlib Require Import Floats.
Import ListNotations.

(** ** JavaScript built-ins over the reals *)

Module JSReal.

Local Open Scope R_scope.

Definition ltb (x y : R) : bool := if Rlt_dec x y then true else false.
Definition leb (x y : R) : bool := if Rle_dec x y then true else false.
Definition gtb (x y : R) : bool := ltb y x.
Definition geb (x y : R) : bool := leb y x.
Definition eqb (x y : R) : bool := if Req_dec_T x y then true else false.

(** [Math.round]: the nearest integer, ties towards plus infinity. *)
Definition Math_round (x : R) : R := IZR (Int_part (x + / 2)).

(** [Math.max] and [Math.min] on two arguments. *)
Definition Math_max (x y : R) : R := Rmax x y.
Definition Math_min (x y : R) : R := Rmin x y.

(** [Math.pow] for a positive base. *)
Definition Math_pow (x y : R) : R := Rpower x y.

End JSReal.

(** ** JavaScript built-ins over strings

    A string is a sequence of UTF-16 code units below 256 (the Latin-1
    range), one [ascii] per code unit.  In that range the white space and
    line terminators that [trim], [/\s/] and the numeric parsers skip are
    the code units 9 to 13, 32 and 160 (the no-break space). *)

Module JSString.

Local Open Scope string_scope.

Definition isWhiteSpace (c : ascii) : bool :=
  let n := nat_of_ascii c in
  (Nat.eqb n 32 || (Nat.leb 9 n && Nat.leb n 13) || Nat.eqb n 160)%bool.

Fixpoint trimStart (s : string) : string :=
  match s with
  | String c rest => if isWhiteSpace c then trimStart rest else s
  | EmptyString => EmptyString
  end.

(** [s.trim()] is the empty string. *)
Fixpoint isBlank (s : string) : bool :=
  match s with
  | String c rest => (isWhiteSpace c && isBlank rest)%bool
  | EmptyString => true
  end.

(** The value of a digit in a radix up to 16, if it is one. *)
Definition digitValue (radix : Z) (c : ascii) : option Z :=
  let n := Z.of_nat (nat_of_ascii c) in
  let v :=
    if ((48 <=? n) && (n <=? 57))%Z%bool then Some (n - 48)%Z
    else if ((97 <=? n) && (n <=? 102))%Z%bool then Some (n - 87)%Z
    else if ((65 <=? n) && (n <=? 70))%Z%bool then Some (n - 55)%Z
    else None in
  match v with
  | Some d => if (d <? radix)%Z then Some d else None
  | None => None
  end.

(** The longest prefix of digits of [s], read in [radix] after the digits
    [acc] already read; [seen] says whether a digit was read. *)
Fixpoint digits (radix : Z) (s : string) (seen : bool) (acc : Z)
  : bool * Z * string :=
  match s with
  | String c rest =>
      match digitValue radix c with
      | Some d => digits radix rest true (acc * radix + d)%Z
      | None => (seen, acc, s)
      end
  | EmptyString => (seen, acc, s)
  end.

(** [parseInt(string)] with no radix argument; [None] is [NaN]. *)
Definition parseInt (s : string) : option Z :=
  let S0 := trimStart s in
  let '(sign, S1) :=
    match S0 with
    | String "-" rest => ((-1)%Z, rest)
    | String "+" rest => (1%Z, rest)
    | _ => (1%Z, S0)
    end in
  let '(radix, S2) :=
    match S1 with
    | String "0" (String "x" rest) => (16%Z, rest)
    | String "0" (String "X" rest) => (16%Z, rest)
    | _ => (10%Z, S1)
    end in
  match digits radix S2 false 0%Z with
  | (true, mathInt, _) => Some (sign * mathInt)%Z
  | (false, _, _) => None
  end.

(** [s.trimEnd()] and [s.trim()] *)
Fixpoint trimEnd (s : string) : string :=
  match s with
  | String c rest =>
      match trimEnd rest with
      | EmptyString => if isWhiteSpace c then EmptyString
                       else String c EmptyString
      | kept => String c kept
      end
  | EmptyString => EmptyString
  end.

Definition trim (s : string) : string := trimEnd (trimStart s).

(** [s.split(/\s+/)]: the pieces of [s] between its runs of white space;
    [word] is the piece being read and [gap] says that the last code unit
    read was white space. *)
Fixpoint splitFrom (s word : string) (gap : bool) : list string :=
  match s with
  | String c rest =>
      if isWhiteSpace c
      then if gap then splitFrom rest word true
           else word :: splitFrom rest EmptyString true
      else splitFrom rest (word ++ String c EmptyString) false
  | EmptyString => [word]
  end.

Definition split (s : string) : list string := splitFrom s EmptyString false.

(** [s.toLowerCase()]: in the Latin-1 range the capital letters are A to Z
    and the code units 192 to 222 but 215 (the multiplication sign). *)
Definition lowerChar (c : ascii) : ascii :=
  let n := nat_of_ascii c in
  if ((Nat.leb 65 n && Nat.leb n 90) ||
      (Nat.leb 192 n && Nat.leb n 222 && negb (Nat.eqb n 215)))%bool
  then ascii_of_nat (n + 32) else c.

Fixpoint toLowerCase (s : string) : string :=
  match s with
  | String c rest => String (lowerChar c) (toLowerCase rest)
  | EmptyString => EmptyString
  end.

(** [array.includes(x)] on an array of strings. *)
Definition includes (array : list string) (x : string) : bool :=
  existsb (String.eqb x) array.

End JSString.


(** ** JavaScript built-ins over binary64 numbers *)

Module JSFloat.

Import JSString.
Local Open Scope string_scope.

(** The binary64 number nearest to [m * 10^e10] (ties to even), with the
    sign [neg]: the integer is rounded by [binary_normalize], the quotient
    of two integers by the division of [SpecFloat], which rounds once. *)
Definition ofDecimal (neg : bool) (m : Z) (e10 : Z) : float :=
  match m with
  | Zpos p =>
      if (0 <=? e10)%Z then
        SF2Prim (binary_normalize prec emax
                   (if neg then Zneg p * 10 ^ e10 else Zpos p * 10 ^ e10)%Z
                   0%Z neg)
      else
        SF2Prim (SFdiv prec emax (S754_finite neg p 0%Z)
                   (S754_finite false (Z.to_pos (10 ^ (- e10))) 0%Z))
  | _ => if neg then neg_zero else zero
  end.

(** The Number value of an integer: the binary64 number nearest to it. *)
Definition ofInteger (n : Z) : float :=
  match n with
  | Z0 => zero
  | Zpos p => ofDecimal false (Zpos p) 0
  | Zneg p => ofDecimal true (Zpos p) 0
  end.

(** The longest prefix of decimal digits of [s], after the digits [acc]
    already read; [count] is the number of digits read. *)
Fixpoint decimalDigits (s : string) (count : nat) (acc : Z)
  : nat * Z * string :=
  match s with
  | String c rest =>
      match digitValue 10 c with
      | Some d => decimalDigits rest (Datatypes.S count) (acc * 10 + d)%Z
      | None => (count, acc, s)
      end
  | EmptyString => (count, acc, s)
  end.

(** The exponent part [e]/[E], an optional sign and at least one digit,
    if [s] starts with one; otherwise the exponent is 0. *)
Definition exponentPart (s : string) : Z :=
  match s with
  | String c rest =>
      if (Ascii.eqb c "e" || Ascii.eqb c "E")%bool then
        let '(neg, rest') :=
          match rest with
          | String "-" r => (true, r)
          | String "+" r => (false, r)
          | _ => (false, rest)
          end in
        match decimalDigits rest' 0 0%Z with
        | (O, _, _) => 0%Z
        | (_, e, _) => if neg then (- e)%Z else e
        end
      else 0%Z
  | EmptyString => 0%Z
  end.

Definition startsWith (s prefix : string) : bool :=
  String.prefix prefix s.

(** [parseFloat(string)]: the longest prefix of the trimmed string that is
    a decimal literal, as a number; [NaN] when there is none. *)
Definition parseFloat (s : string) : float :=
  let S0 := trimStart s in
  let '(neg, S1) :=
    match S0 with
    | String "-" rest => (true, rest)
    | String "+" rest => (false, rest)
    | _ => (false, S0)
    end in
  if startsWith S1 "Infinity" then
    if neg then neg_infinity else infinity
  else
    let '(nInt, mInt, S2) := decimalDigits S1 0 0%Z in
    let '(nFrac, m, S3) :=
      match S2 with
      | String "." rest => decimalDigits rest 0 mInt
      | _ => (O, mInt, S2)
      end in
    match nInt, nFrac with
    | O, O => nan
    | _, _ => ofDecimal neg m (exponentPart S3 - Z.of_nat nFrac)
    end.

(** [Math.round(x)]: the integer nearest to [x], the upper one of two
    that are equally near; [NaN], the infinities and the numbers from
    [2^52] on (all integers) are returned as they are, and the result
    keeps the sign of [x] when it is zero.  [n] is [abs x] rounded to an
    integer by the addition of [2^52], [fl] is the floor of [abs x] and
    [frac] what [abs x] has above its floor; these subtractions are
    exact. *)
Definition two52 : float := 4503599627370496%float.

Definition Math_round (x : float) : float :=
  if (is_nan x || (two52 <=? abs x)%float)%bool then x
  else
    let m := abs x in
    let n := ((m + two52) - two52)%float in
    let fl := if (m <? n)%float then (n - 1)%float else n in
    let frac := (m - fl)%float in
    if get_sign x
    then if (0.5 <? frac)%float then (- (fl + 1))%float else (- fl)%float
    else if (0.5 <=? frac)%float then (fl + 1)%float else fl.

(** The comparisons of JavaScript on numbers. *)
Definition lt (x y : float) : bool := PrimFloat.ltb x y.
Definition gt (x y : float) : bool := PrimFloat.ltb y x.

End JSFloat.

(** ** Exceptions and the document

    The analyzers write their records into [this.state] and call
    [document.querySelectorAll], which throws a [SyntaxError] when its
    argument is not a selector.  No analyzer catches it: the records
    written before the exception stay in the state, and the function that
    was running, with the loops around it, is left. *)

Module DOM.

Import JSString.
Local Open Scope string_scope.

(** How a function that works on a state of type [S] ends: it returns, or
    an exception leaves it; [st] is the state at that moment. *)
Inductive Completion (S : Type) : Type :=
| Normal (st : S)
| Throw (st : S).

Arguments Normal {S} st.
Arguments Throw {S} st.

Definition stateOf {S : Type} (c : Completion S) : S :=
  match c with
  | Normal st => st
  | Throw st => st
  end.

Definition returns {S : Type} (c : Completion S) : bool :=
  match c with
  | Normal _ => true
  | Throw _ => false
  end.

(** [first; next]: the second statement runs if the first returns. *)
Definition andThen {S : Type} (first : Completion S)
    (next : S -> Completion S) : Completion S :=
  match first with
  | Normal st => next st
  | Throw st => Throw st
  end.

(** [array.forEach(callback)], and the [for] loops over an array: an
    exception in the callback ends the loop. *)
Fixpoint forEach {S A : Type} (callback : S -> A -> Completion S)
    (array : list A) (st : S) : Completion S :=
  match array with
  | [] => Normal st
  | x :: rest => andThen (callback st x) (forEach callback rest)
  end.

(** The document as the selector generator uses it:
    [querySelectorAll(selector).length], and [None] when the call throws
    (the argument is not a valid selector, as [div.md:flex], [div.w-1/2]
    or [p.2xl]). *)
Record Document : Type := mkDocument {
  querySelectorAll : string -> option nat
}.

(** The local [selector] of [generateSelector] when it reaches
    [querySelectorAll]: the lower-case tag name and, if [className] is a
    non-empty string with a class in it, the classes joined by dots.
    [className] is [None] when it is not a string (as on SVG elements). *)
Definition selector (tagName : string) (className : option string)
    : string :=
  let selector := toLowerCase tagName in
  match className with
  | Some name =>
      if String.eqb name "" then selector
      else
        let classes := split (trim name) in
        if negb (String.eqb (hd "" classes) "")
        then selector ++ "." ++ String.concat "." classes
        else selector
  | None => selector
  end.

(** [generateSelector(element)] returns: the element has an [id] (no
    query is made then), or [querySelectorAll] accepts the selector.
    What it returns is a text, which the records of the model do not
    hold. *)
Definition generateSelector (document : Document)
    (tagName id : string) (className : option string) : bool :=
  if negb (String.eqb id "") then true
  else
    match querySelectorAll document (selector tagName className) with
    | Some _ => true
    | None => false
    end.

(** A name of ASCII letters, digits, [-] and [_] that starts with a
    letter. *)
Definition isLetter (c : ascii) : bool :=
  let n := nat_of_ascii c in
  ((Nat.leb 65 n && Nat.leb n 90) || (Nat.leb 97 n && Nat.leb n 122))%bool.

Definition isNameChar (c : ascii) : bool :=
  let n := nat_of_ascii c in
  (isLetter c || (Nat.leb 48 n && Nat.leb n 57) ||
   Nat.eqb n 45 || Nat.eqb n 95)%bool.

Fixpoint allNameChars (s : string) : bool :=
  match s with
  | String c rest => (isNameChar c && allNameChars rest)%bool
  | EmptyString => true
  end.

Definition isName (s : string) : bool :=
  match s with
  | String c rest => (isLetter c && allNameChars rest)%bool
  | EmptyString => false
  end.

(** The pieces of [s] between its dots. *)
Fixpoint piecesFrom (s word : string) : list string :=
  match s with
  | String c rest =>
      if Ascii.eqb c "."
      then word :: piecesFrom rest EmptyString
      else piecesFrom rest (word ++ String c EmptyString)
  | EmptyString => [word]
  end.

(** An example of a document, for the selectors that [generateSelector]
    builds: a tag name followed by class names, all of them such names,
    matches one element; the call throws when a piece is not such a
    name, as browsers do on [div.md:flex], [div.w-1/2] and [p.2xl]. *)
Definition plainDocument : Document :=
  mkDocument (fun selector =>
    if forallb isName (piecesFrom selector EmptyString)
    then Some 1%nat else None).

End DOM.

(** ** The contrast engine: src/UI/Accessibility.Contrast.Analyzer.js *)

Module Contrast.

Import JSReal JSString DOM.
Local Open Scope R_scope.
Local Open Scope string_scope.

(** A colour as [parseColor] and [blendColors] build it: an object with
    the fields [r], [g], [b] and [a]. *)
Record Color : Type := mkColor { r : R; g : R; b : R; a : R }.

(** The data model's domain of a colour: integer channels in 0..255. *)
Definition channel (x : R) : Prop :=
  exists n : Z, x = IZR n /\ (0 <= n <= 255)%Z.

Definition wellFormed (c : Color) : Prop :=
  channel (r c) /\ channel (g c) /\ channel (b c).

(** [config.wcag] *)
Module config.
Definition normalTextAA : R := 4.5.
Definition normalTextAAA : R := 7.0.
Definition largeTextAA : R := 3.0.
Definition largeTextAAA : R := 4.5.
Definition nonTextAA : R := 3.0.
Definition nonTextAAA : R := 4.5.
Definition large : R := 18.
Definition largeWeightBold : R := 14.
End config.

(** An element of the document, with what the engine reads of it.
    [color] and [backgroundColor] hold the result of [parseColor] on the
    computed style's value ([None] is JavaScript's [null]); [fontSize] is
    [parseFloat] of the computed font size (px); [role] is the value of the
    [role] attribute, [None] when [hasAttribute('role')] is false;
    [className] is [None] when it is not a string; [isBody] says that the
    element is [document.body]. *)
#[warnings="-register-all"]
Inductive Element : Type := mkElement {
  tagName : string;
  id : string;
  className : option string;
  role : option string;
  textContent : string;
  offsetParentIsNull : bool;
  isBody : bool;
  color : option Color;
  backgroundColor : option Color;
  fontSize : R;
  fontWeight : string;
  parentElement : option Element
}.

Definition white : Color := mkColor 255 255 255 1.

(** [blendColors(foreground, background)] *)
Definition blendColors (foreground background : Color) : Color :=
  let alpha := a foreground in
  let invAlpha := 1 - alpha in
  mkColor
    (Math_round (r foreground * alpha + r background * invAlpha))
    (Math_round (g foreground * alpha + g background * invAlpha))
    (Math_round (b foreground * alpha + b background * invAlpha))
    1.

(** [getEffectiveBackgroundColor(element)] for a non-null [element].  The
    source's [while] loop moves [current] to [current.parentElement]; as
    the loop has no other state, an iteration that falls through is the
    function's value at the parent, which is also what the recursive call
    [getEffectiveBackgroundColor(current.parentElement)] computes (its
    result is an object, so [if (parentBg)] always holds). *)
Fixpoint backgroundFrom (current : Element) : Color :=
  if isBody current then white
  else
    let above :=
      match parentElement current with
      | Some parent => backgroundFrom parent
      | None => white
      end in
    match backgroundColor current with
    | Some bgColor =>
        if gtb (a bgColor) 0 then
          if eqb (a bgColor) 1 then bgColor
          else blendColors bgColor above
        else above
    | None => above
    end.

Definition getEffectiveBackgroundColor (element : option Element) : Color :=
  match element with
  | Some current => backgroundFrom current
  | None => white
  end.

(** [getRelativeLuminance(color)]: the source writes the channel transform
    three times, once per channel. *)
Definition linear (sRGB : R) : R :=
  if leb sRGB 0.03928 then sRGB / 12.92
  else Math_pow ((sRGB + 0.055) / 1.055) 2.4.

Definition getRelativeLuminance (color : Color) : R :=
  let rsRGB := r color / 255 in
  let gsRGB := g color / 255 in
  let bsRGB := b color / 255 in
  0.2126 * linear rsRGB + 0.7152 * linear gsRGB + 0.0722 * linear bsRGB.

(** [calculateContrastRatio(color1, color2)] *)
Definition calculateContrastRatio (color1 color2 : Color) : R :=
  let l1 := getRelativeLuminance color1 in
  let l2 := getRelativeLuminance color2 in
  let lighter := Math_max l1 l2 in
  let darker := Math_min l1 l2 in
  (lighter + 0.05) / (darker + 0.05).

(** [getFontSizeInPt(computedStyle)], for the computed style of
    [element]. *)
Definition getFontSizeInPt (element : Element) : R := fontSize element * 0.75.

(** A contrast requirement, as [getContrastRequirements] returns it. *)
Record Requirements : Type := mkRequirements {
  type : string;
  aa : R;
  aaa : R
}.

(** [parseInt(fontWeight) >= 700]: a comparison with [NaN] is false. *)
Definition parseIntGe (s : string) (bound : Z) : bool :=
  match parseInt s with
  | Some n => (bound <=? n)%Z
  | None => false
  end.

(** [getContrastRequirements(fontSize, fontWeight, element)] *)
Definition getContrastRequirements
    (fontSize : R) (fontWeight : string) (element : Element) : Requirements :=
  let isLargeText :=
    (geb fontSize config.large ||
     (geb fontSize config.largeWeightBold &&
      (String.eqb fontWeight "bold" || parseIntGe fontWeight 700)))%bool in
  let isNonText :=
    (String.eqb (tagName element) "BUTTON" ||
     match role element with
     | Some value => includes ["button"; "tab"; "menuitem"] value
     | None => false
     end)%bool in
  if isNonText then
    mkRequirements "non-text" config.nonTextAA config.nonTextAAA
  else if isLargeText then
    mkRequirements "large-text" config.largeTextAA config.largeTextAAA
  else
    mkRequirements "normal-text" config.normalTextAA config.normalTextAAA.

(** [checkWCAGCompliance(contrastRatio, requirements)] *)
Record WcagResults : Type := mkWcagResults {
  ratio : R;
  passAA : bool;
  passAAA : bool;
  requirements : Requirements
}.

Definition checkWCAGCompliance
    (contrastRatio : R) (requirements : Requirements) : WcagResults :=
  mkWcagResults contrastRatio
    (geb contrastRatio (aa requirements))
    (geb contrastRatio (aaa requirements))
    requirements.

(** A [while] loop on a state, run for at most [fuel] tests of its
    condition: [None] when the fuel runs out before the condition fails. *)
Fixpoint while {S : Type} (fuel : nat) (cond : S -> bool) (body : S -> S)
    (s : S) : option S :=
  match fuel with
  | O => None
  | Datatypes.S fuel' =>
      if cond s then while fuel' cond body (body s) else Some s
  end.

(** The local variables of [adjustColorForContrast] that its loop updates. *)
Record AdjustState : Type := mkAdjustState {
  adjustedColor : Color;
  currentRatio : R;
  iterations : nat
}.

Definition maxIterations : nat := 25.

Definition adjustCond (targetRatio : R) (st : AdjustState) : bool :=
  (ltb (currentRatio st) targetRatio &&
   Nat.ltb (iterations st) maxIterations)%bool.

(** One channel of the loop body. *)
Definition adjustChannel (direction : string) (x : R) : R :=
  let step := if String.eqb direction "darken" then -10 else 10 in
  if String.eqb direction "darken"
  then Math_max 0 (x + step)
  else Math_min 255 (x + step).

(** The three assignments of the loop body; [a] is kept. *)
Definition shiftColor (direction : string) (c : Color) : Color :=
  mkColor (adjustChannel direction (r c))
          (adjustChannel direction (g c))
          (adjustChannel direction (b c))
          (a c).

Definition adjustBody (bgColor : Color) (direction : string)
    (st : AdjustState) : AdjustState :=
  let c' := shiftColor direction (adjustedColor st) in
  mkAdjustState c' (calculateContrastRatio c' bgColor)
                (Datatypes.S (iterations st)).

Definition adjustInit (color bgColor : Color) : AdjustState :=
  mkAdjustState color (calculateContrastRatio color bgColor) O.

(** The loop of [adjustColorForContrast] with [fuel] tests allowed. *)
Definition adjustLoop (fuel : nat) (color bgColor : Color)
    (targetRatio : R) (direction : string) : option AdjustState :=
  while fuel (adjustCond targetRatio) (adjustBody bgColor direction)
        (adjustInit color bgColor).

(** [adjustColorForContrast(color, bgColor, targetRatio, direction)] *)
Definition adjustColorForContrast (color bgColor : Color)
    (targetRatio : R) (direction : string) : Color :=
  match adjustLoop (Datatypes.S maxIterations) color bgColor
                   targetRatio direction with
  | Some st => adjustedColor st
  | None => color
  end.

(** What [analyzeColorContrast] hands to [addContrastIssue] (the computed
    style itself is left out). *)
Record ContrastData : Type := mkContrastData {
  textColor : Color;
  dataBackgroundColor : Color;
  contrastRatio : R;
  dataFontSize : R;
  dataFontWeight : string;
  dataRequirements : Requirements;
  wcagResults : WcagResults
}.

Record ContrastIssue : Type := mkContrastIssue {
  issueElement : Element;
  issueSeverity : string;
  issueKind : string;
  issueData : ContrastData
}.

(** [suggestContrastFix(data)]: the two suggested colours, before
    [colorToHex] prints them. *)
Record ContrastFix : Type := mkContrastFix {
  darkerText : Color;
  lighterBg : Color
}.

Definition suggestContrastFix (data : ContrastData) : ContrastFix :=
  let requiredRatio := aa (dataRequirements data) in
  mkContrastFix
    (adjustColorForContrast (textColor data) (dataBackgroundColor data)
                            requiredRatio "darken")
    (adjustColorForContrast (dataBackgroundColor data) (textColor data)
                            requiredRatio "lighten").

(** A record of [state.fixableIssues]; the printed values (selectors,
    [toFixed] texts, hexadecimal colours) are left out. *)
Record FixableIssue : Type := mkFixableIssue {
  issueType : string;
  severity : string;
  category : string;
  affectedElements : nat;
  fixes : list Element;
  suggestedFix : ContrastFix;
  automationPossible : bool
}.

Definition getAccessibilityCategory (type : string) : string :=
  if includes ["contrast-aa"; "contrast-aaa"] type then "visual"
  else if String.eqb type "focus-accessibility" then "keyboard"
  else if includes ["missing-accessible-name"; "missing-required-state"] type
       then "semantic"
  else if String.eqb type "touch-target-size" then "motor"
  else if String.eqb type "readability-issues" then "cognitive"
  else "other".

Definition canAutomate (type : string) : bool :=
  includes ["contrast-aa"; "contrast-aaa"; "missing-accessible-name";
            "touch-target-size"; "focus-accessibility"] type.

(** The part of [state] that the contrast analysis writes. *)
Record State : Type := mkState {
  contrastIssues : list ContrastIssue;
  fixableIssues : list FixableIssue
}.

(** [generateSelector(element)] returns. *)
Definition generateSelector (document : Document) (element : Element)
    : bool :=
  DOM.generateSelector document (tagName element) (id element)
    (className element).

(** [createFixableIssue(type, severity, elements, ...)]: [elements.map]
    asks [generateSelector] for every element before the record is
    pushed, so that an exception there leaves the state as it is. *)
Definition createFixableIssue (document : Document) (type severity : string)
    (elements : list Element) (suggestedFix : ContrastFix) (st : State)
    : Completion State :=
  if forallb (generateSelector document) elements
  then
    Normal
      (mkState (contrastIssues st)
         (fixableIssues st ++
          [mkFixableIssue type severity (getAccessibilityCategory type)
             (List.length elements) elements suggestedFix
             (canAutomate type)]))
  else Throw st.

(** [addContrastIssue(element, data)]: the contrast issue is pushed
    first, then [createFixableIssue] is called. *)
Definition addContrastIssue (document : Document) (element : Element)
    (data : ContrastData) (st : State) : Completion State :=
  let severity :=
    if negb (passAA (wcagResults data)) then "critical" else "warning" in
  let issueType :=
    if passAA (wcagResults data) then "contrast-aaa" else "contrast-aa" in
  let st' :=
    mkState
      (contrastIssues st ++ [mkContrastIssue element severity "contrast" data])
      (fixableIssues st) in
  createFixableIssue document issueType severity [element]
    (suggestContrastFix data) st'.

(** The callback of [analyzeColorContrast], for one element. *)
Definition analyzeElement (document : Document) (st : State)
    (element : Element) : Completion State :=
  if (isBlank (textContent element) ||
      includes ["SCRIPT"; "STYLE"; "META"; "LINK"; "HEAD"]
               (tagName element))%bool
  then Normal st
  else if (offsetParentIsNull element &&
           negb (String.eqb (tagName element) "HTML"))%bool
  then Normal st
  else
    match color element with
    | None => Normal st
    | Some textColor =>
        let backgroundColor := getEffectiveBackgroundColor (Some element) in
        let contrastRatio := calculateContrastRatio textColor backgroundColor in
        let fontSize := getFontSizeInPt element in
        let fontWeight := fontWeight element in
        let requirements :=
          getContrastRequirements fontSize fontWeight element in
        let wcagResults := checkWCAGCompliance contrastRatio requirements in
        if (negb (passAA wcagResults) || negb (passAAA wcagResults))%bool
        then
          addContrastIssue document element
            (mkContrastData textColor backgroundColor contrastRatio fontSize
               fontWeight requirements wcagResults) st
        else Normal st
    end.

(** [analyzeColorContrast()] over [elements], the result of
    [document.querySelectorAll('*')] in document order. *)
Definition analyzeColorContrast (document : Document)
    (elements : list Element) (st : State) : Completion State :=
  forEach (analyzeElement document) elements st.

(** The relative luminance in the words of the specification: the channel,
    normalised to 0..1, is [c/12.92] if [c <= 0.03928] and
    [((c+0.055)/1.055)^2.4] otherwise; the luminance is
    [0.2126 R + 0.7152 G + 0.0722 B]. *)
Definition srgbToLinear (c : R) : R :=
  match Rle_dec c 0.03928 with
  | left _ => c / 12.92
  | right _ => Rpower ((c + 0.055) / 1.055) 2.4
  end.

Definition relativeLuminance (c : Color) : R :=
  0.2126 * srgbToLinear (r c / 255) +
  0.7152 * srgbToLinear (g c / 255) +
  0.0722 * srgbToLinear (b c / 255).

Definition black : Color := mkColor 0 0 0 1.

(** *** The ancestor chain

    [pathUp e below t]: following [parentElement] from [e] reaches [t];
    [below] lists the elements passed on the way, from [e] itself up to
    the child of [t] ([t] is not in it). *)
Inductive pathUp : Element -> list Element -> Element -> Prop :=
| pathUp_here (e : Element) : pathUp e [] e
| pathUp_step (e parent t : Element) (below : list Element) :
    parentElement e = Some parent ->
    pathUp parent below t ->
    pathUp e (e :: below) t.

(** The element's parsed background is not null and not fully
    transparent: the test [bgColor && bgColor.a > 0]. *)
Definition paints (e : Element) : bool :=
  match backgroundColor e with
  | Some bgColor => gtb (a bgColor) 0
  | None => false
  end.

(** The first sentence of the specification on the background resolver,
    read on the whole chain from the element (itself included) up to the
    root of the document: the parsed colour of the nearest element whose
    background has alpha 1 is returned. *)
Definition nearestOpaqueReturned : Prop :=
  forall (e t : Element) (below : list Element) (c : Color),
    pathUp e below t ->
    backgroundColor t = Some c -> a c = 1 ->
    (forall m c', In m below -> backgroundColor m = Some c' -> a c' <> 1) ->
    getEffectiveBackgroundColor (Some e) = c.

(** A plain element with a parsed background, for examples. *)
Definition box (tag : string) (body : bool) (bg : option Color)
    (parent : option Element) : Element :=
  mkElement tag "" (Some "") None "text" false body (Some black) bg 16 "400"
    parent.

(** Example documents. *)
Definition grey200 : Color := mkColor 200 200 200 1.
Definition halfBlack : Color := mkColor 0 0 0 (/ 2).

Definition opaqueDiv : Element := box "DIV" false (Some grey200) None.
Definition translucentSpan : Element :=
  box "SPAN" false (Some halfBlack) (Some opaqueDiv).
Definition plainSpan : Element := box "SPAN" false None (Some opaqueDiv).

Definition htmlRoot : Element := box "HTML" false None None.
Definition blackBody : Element := box "BODY" true (Some black) (Some htmlRoot).
Definition paragraph : Element := box "P" false None (Some blackBody).

(** *** The classification, in the words of the specification *)

(** The element has a button-like role: it is a [BUTTON], or its [role]
    attribute is [button], [tab] or [menuitem]. *)
Definition buttonLike (element : Element) : Prop :=
  tagName element = "BUTTON" \/
  exists value, role element = Some value /\
    (value = "button" \/ value = "tab" \/ value = "menuitem").

(** The weight is bold or at least 700. *)
Definition boldWeight (fontWeight : string) : Prop :=
  fontWeight = "bold" \/
  exists n, parseInt fontWeight = Some n /\ (700 <= n)%Z.

(** Large text, for a size in points. *)
Definition largeText (pt : R) (fontWeight : string) : Prop :=
  18 <= pt \/ (14 <= pt /\ boldWeight fontWeight).

(** What [analyzeColorContrast] asks of an element. *)
Definition classify (element : Element) : Requirements :=
  getContrastRequirements (getFontSizeInPt element) (fontWeight element)
    element.

Definition textOf (px : R) (weight : string) : Element :=
  mkElement "P" "" (Some "") None "text" false false (Some black) None px
    weight None.

(** A channel clamped to 0..255. *)
Definition clamp (x : R) : R := Rmax 0 (Rmin 255 x).

(** The colour after [k] runs of the loop body. *)
Definition shifted (direction : string) (k : nat) (color : Color) : Color :=
  Nat.iter k (shiftColor direction) color.

(** The signed step of a direction. *)
Definition stepOf (direction : string) : R :=
  if String.eqb direction "darken" then -10 else 10.

(** *** The contrast pass, in the words of the specification *)

(** The element takes part in the contrast pass: it has text, its tag is
    not one of the skipped ones, and it has a layout box (or is the root). *)
Definition evaluated (element : Element) : Prop :=
  isBlank (textContent element) = false /\
  ~ In (tagName element) ["SCRIPT"; "STYLE"; "META"; "LINK"; "HEAD"] /\
  (offsetParentIsNull element = false \/ tagName element = "HTML").



End Contrast.

(** ** The colour formulas on binary64 numbers

    The functions [blendColors], [getRelativeLuminance] and
    [calculateContrastRatio] of the contrast engine once more, on the
    numbers the engine computes with.  [Math.pow] is approximated by each
    implementation and is a parameter. *)

Module Contrast64.

Import JSFloat.
Local Open Scope float_scope.
Local Set Warnings "-inexact-float".

Record Color : Type := mkColor { r : float; g : float; b : float; a : float }.

(** [Math.max] and [Math.min] on two arguments: [NaN] if one of them is,
    and [+0] above [-0]. *)
Definition Math_max (x y : float) : float :=
  if (is_nan x || is_nan y)%bool then nan
  else if x <? y then y
  else if y <? x then x
  else if get_sign x then y else x.

Definition Math_min (x y : float) : float :=
  if (is_nan x || is_nan y)%bool then nan
  else if x <? y then x
  else if y <? x then y
  else if get_sign x then x else y.

Section Pow.

Variable Math_pow : float -> float -> float.

Definition linear (sRGB : float) : float :=
  if sRGB <=? 0.03928 then sRGB / 12.92
  else Math_pow ((sRGB + 0.055) / 1.055) 2.4.

Definition getRelativeLuminance (color : Color) : float :=
  let rsRGB := r color / 255 in
  let gsRGB := g color / 255 in
  let bsRGB := b color / 255 in
  0.2126 * linear rsRGB + 0.7152 * linear gsRGB + 0.0722 * linear bsRGB.

Definition calculateContrastRatio (color1 color2 : Color) : float :=
  let l1 := getRelativeLuminance color1 in
  let l2 := getRelativeLuminance color2 in
  let lighter := Math_max l1 l2 in
  let darker := Math_min l1 l2 in
  (lighter + 0.05) / (darker + 0.05).

End Pow.

(** [blendColors(foreground, background)] *)
Definition blendColors (foreground background : Color) : Color :=
  let alpha := a foreground in
  let invAlpha := 1 - alpha in
  mkColor
    (Math_round (r foreground * alpha + r background * invAlpha))
    (Math_round (g foreground * alpha + g background * invAlpha))
    (Math_round (b foreground * alpha + b background * invAlpha))
    1.

(** The binary64 number of an integer [n >= 0]. *)
Definition integer (n : nat) : float := ofDecimal false (Z.of_nat n) 0.

(** The data model's domain of a colour: integer channels in 0..255. *)
Definition channel (x : float) : Prop :=
  exists n : nat, (n <= 255)%nat /\ x = integer n.

Definition wellFormed (c : Color) : Prop :=
  channel (r c) /\ channel (g c) /\ channel (b c).

(** The channels are numbers: not [NaN] and not infinite. *)
Definition finite (c : Color) : Prop :=
  is_finite (r c) = true /\ is_finite (g c) = true /\
  is_finite (b c) = true.

Definition black : Color := mkColor 0 0 0 1.
Definition white : Color := mkColor 255 255 255 1.

(** [rgba(0, 0, 0, 0.3)] and [rgb(45, 45, 45)] *)
Definition shade : Color := mkColor 0 0 0 0.3.
Definition grey45 : Color := mkColor 45 45 45 1.

End Contrast64.


(** ** The style fingerprint collector and its rules: src/code.js *)

Module Typography.

Import JSString JSFloat.
Local Open Scope string_scope.
Local Set Warnings "-inexact-float".

(** [config] *)
Record Config : Type := mkConfig {
  minLineHeightRatio : float;
  maxLineHeightRatio : float;
  suspiciousWeights : list string;
  commonFontSizes : list string;
  redundancyThreshold : nat
}.

Definition config : Config :=
  mkConfig 1.2 1.8 ["100"; "200"; "800"; "900"]
    ["12px"; "14px"; "16px"; "18px"; "20px"; "24px"; "32px"] 1.

(** What [getComputedStyle(element)] gives of the typography. *)
Record ComputedStyle : Type := mkComputedStyle {
  fontFamily : string;
  fontSize : string;
  fontWeight : string;
  lineHeight : string
}.

(** An element with what the analyzer reads of it; [className] is [None]
    when it is not a string. *)
Record Element : Type := mkElement {
  tagName : string;
  id : string;
  className : option string;
  offsetParentIsNull : bool;
  computedStyle : ComputedStyle
}.

(** [fontMetrics]: the four values of the fingerprint and the element
    (the fields kept for display only are left out). *)
Record FontMetrics : Type := mkFontMetrics {
  metricsStyle : ComputedStyle;
  metricsElement : Element
}.

(** A bucket of [state.fontMap]. *)
Record Entry : Type := mkEntry {
  metrics : FontMetrics;
  elements : list Element;
  count : nat
}.

(** [state.fontMap]: a JavaScript [Map], which keeps its keys in the
    order of their first insertion. *)
Definition FontMap : Type := list (string * Entry).

Fixpoint get (key : string) (fontMap : FontMap) : option Entry :=
  match fontMap with
  | (k, v) :: rest => if String.eqb key k then Some v else get key rest
  | [] => None
  end.

Definition has (key : string) (fontMap : FontMap) : bool :=
  match get key fontMap with Some _ => true | None => false end.

Fixpoint replace (key : string) (value : Entry) (fontMap : FontMap)
  : FontMap :=
  match fontMap with
  | (k, v) :: rest =>
      if String.eqb key k then (k, value) :: rest
      else (k, v) :: replace key value rest
  | [] => []
  end.

Definition set (key : string) (value : Entry) (fontMap : FontMap)
  : FontMap :=
  if has key fontMap then replace key value fontMap
  else (fontMap ++ [(key, value)])%list.

(** The template literal that keys the map. *)
Definition keyOf (style : ComputedStyle) : string :=
  fontFamily style ++ "|" ++ fontSize style ++ "|" ++
  fontWeight style ++ "|" ++ lineHeight style.

(** The elements that the selector
    [*:not(script):not(style):not(meta):not(link)] matches. *)
Definition selected (element : Element) : bool :=
  negb (includes ["SCRIPT"; "STYLE"; "META"; "LINK"] (tagName element)).

(** The element is skipped as invisible. *)
Definition skipped (element : Element) : bool :=
  (offsetParentIsNull element &&
   negb (String.eqb (tagName element) "HTML"))%bool.

(** The callback of [collectTypographyData], for one element.  [entry] is
    the object held by the map, so that pushing to [entry.elements] and
    incrementing [entry.count] update the map's value in place. *)
Definition collectElement (fontMap : FontMap) (element : Element)
  : FontMap :=
  if skipped element then fontMap
  else
    let style := computedStyle element in
    let fontMetrics := mkFontMetrics style element in
    let key := keyOf style in
    let fontMap1 :=
      if negb (has key fontMap)
      then set key (mkEntry fontMetrics [] 0) fontMap
      else fontMap in
    match get key fontMap1 with
    | Some entry =>
        replace key
          (mkEntry (metrics entry) (elements entry ++ [element])
                   (Datatypes.S (count entry)))
          fontMap1
    | None => fontMap1
    end.

(** [collectTypographyData()] over the elements of the document, in
    document order. *)
Definition collectTypographyData (document : list Element)
    (fontMap : FontMap) : FontMap :=
  fold_left collectElement (filter selected document) fontMap.

(** A record of [state.issues] and one of [state.fixableIssues]: the
    severity, the rule and the elements; the display texts and the
    suggested values are left out. *)
Record Issue : Type := mkIssue {
  severity : string;
  rule : string;
  issueElements : list Element;
  issueCount : nat
}.

Record FixableIssue : Type := mkFixableIssue {
  issueType : string;
  fixSeverity : string;
  affectedElements : nat;
  fixes : list Element
}.

Record State : Type := mkState {
  issues : list Issue;
  fixableIssues : list FixableIssue
}.

(** [addIssue] followed by [createFixableIssue], as every rule calls
    them, when [createFixableIssue] returns (module [TypographyPass] has
    the two functions with the exception). *)
Definition report (sev type : string) (elements : list Element)
    (st : State) : State :=
  mkState
    (issues st ++ [mkIssue sev type elements (List.length elements)])
    (fixableIssues st ++
     [mkFixableIssue type sev (List.length elements) elements]).

(** [s.includes(sub)] *)
Fixpoint contains (s sub : string) : bool :=
  (String.prefix sub s ||
   match s with
   | String _ rest => contains rest sub
   | EmptyString => false
   end)%bool.

(** The callback of [analyzeIssues], for one bucket, when every call of
    [createFixableIssue] returns. *)
Definition analyzeEntry (config : Config) (st : State) (data : Entry)
  : State :=
  let style := metricsStyle (metrics data) in
  let elements := elements data in
  let fontSizeNum := parseFloat (fontSize style) in
  let lineHeightNum := parseFloat (lineHeight style) in
  let lineHeightRatio := (lineHeightNum / fontSizeNum)%float in
  let st1 :=
    if lt lineHeightRatio (minLineHeightRatio config) then
      report "critical" "line-height-too-small" elements st
    else if gt lineHeightRatio (maxLineHeightRatio config) then
      report "warning" "line-height-too-large" elements st
    else st in
  let st2 :=
    if includes (suspiciousWeights config) (fontWeight style) then
      report "warning" "extreme-font-weight" elements st1
    else st1 in
  let st3 :=
    if Nat.leb (count data) (redundancyThreshold config) then
      report "info" "redundant-style" elements st2
    else st2 in
  let familyLower := toLowerCase (fontFamily style) in
  let st4 :=
    if (contains familyLower "serif" && contains familyLower "sans")%bool then
      report "warning" "mixed-font-families" elements st3
    else st3 in
  if (negb (includes (commonFontSizes config) (fontSize style)) &&
      gt fontSizeNum 10)%bool then
    report "info" "non-standard-size" elements st4
  else st4.

(** [analyzeIssues()]: the buckets in the order of the map, when every
    call of [createFixableIssue] returns. *)
Definition analyzeIssues (config : Config) (fontMap : FontMap) (st : State)
  : State :=
  fold_left (fun st kv => analyzeEntry config st (snd kv)) fontMap st.

(** [run()]: the map and the lists are emptied, then filled. *)
Definition run (document : list Element) : FontMap * State :=
  let fontMap := collectTypographyData document [] in
  (fontMap, analyzeIssues config fontMap (mkState [] [])).

(** What the callback of [analyzeIssues] reports for one bucket. *)
Definition emitted (config : Config) (data : Entry) : State :=
  analyzeEntry config (mkState [] []) data.

(** Example buckets. *)
Definition bodyText : ComputedStyle :=
  mkComputedStyle "Arial, sans-serif" "16px" "400" "normal".

Definition paragraph : Element :=
  mkElement "P" "" (Some "") false bodyText.

Definition bodyTextBucket : Entry :=
  mkEntry (mkFontMetrics bodyText paragraph) [paragraph; paragraph] 2.




(** *** The fingerprint, in the words of the specification *)





(** The callback reports the bucket as a redundant style. *)
Definition reportedRedundant (config : Config) (data : Entry) : Prop :=
  exists i, In i (fixableIssues (emitted config data)) /\
            issueType i = "redundant-style".

(** What holds of every bucket of the map while it is filled: the count
    is the number of elements listed, there is at least one, and each has
    the bucket's key. *)
Definition bucketsFiled (fontMap : FontMap) : Prop :=
  forall key data,
    get key fontMap = Some data ->
    count data = List.length (elements data) /\
    (1 <= count data)%nat /\
    forall e, In e (elements data) -> keyOf (computedStyle e) = key.

(** The bucket of an element's key after the element is filed. *)
Definition filed (fontMap : FontMap) (element : Element) : Entry :=
  match get (keyOf (computedStyle element)) fontMap with
  | Some entry =>
      mkEntry (metrics entry) (elements entry ++ [element])
              (Datatypes.S (count entry))
  | None =>
      mkEntry (mkFontMetrics (computedStyle element) element) [element] 1
  end.

(** Example document: two paragraphs of one style and a heading. *)
Definition headingStyle : ComputedStyle :=
  mkComputedStyle "Arial, sans-serif" "32px" "700" "38.4px".

Definition heading : Element :=
  mkElement "H1" "" (Some "") false headingStyle.

Definition sampleDocument : list Element := [heading; paragraph; paragraph].

End Typography.

(** ** The contrast engine: printing colours and the report figures *)

Module ContrastExtra.

Import JSReal JSString DOM Contrast.
Local Open Scope R_scope.
Local Open Scope string_scope.

(** One hexadecimal digit, in lower case as [toString(16)] prints it. *)
Definition hexDigit (d : Z) : ascii :=
  if (d <? 10)%Z then ascii_of_nat (Z.to_nat (48 + d))
  else ascii_of_nat (Z.to_nat (87 + d)).

(** [n.toString(16)] for an integer [n >= 0]: the digits of [n], most
    significant first, after the digits [acc] already printed; [fuel]
    bounds the number of digits. *)
Fixpoint hexDigits (fuel : nat) (n : Z) (acc : string) : string :=
  match fuel with
  | O => acc
  | Datatypes.S fuel' =>
      let acc' := String (hexDigit (n mod 16)) acc in
      if (n <? 16)%Z then acc' else hexDigits fuel' (n / 16) acc'
  end.

Definition toString16 (n : Z) : string :=
  hexDigits (Datatypes.S (Z.to_nat (Z.log2 n))) n "".

(** The local function [toHex] of [colorToHex]. *)
Definition toHex (n : R) : string :=
  let hex := toString16 (Int_part (Math_max 0 (Math_min 255 n) + / 2)) in
  if Nat.eqb (String.length hex) 1 then "0" ++ hex else hex.

(** [colorToHex(color)] *)
Definition colorToHex (color : Color) : string :=
  "#" ++ toHex (r color) ++ toHex (g color) ++ toHex (b color).

(** The value of a string of hexadecimal digits, if it is one:
    [parseInt(s, 16)] on digits alone. *)
Definition hexValue (s : string) : option Z :=
  match digits 16 s false 0%Z with
  | (true, v, EmptyString) => Some v
  | _ => None
  end.

(** The two digits that [toHex] prints for an integer in 0..255. *)
Definition padHex (n : Z) : string :=
  let hex := toString16 n in
  if Nat.eqb (String.length hex) 1 then "0" ++ hex else hex.

(** The integer that [toHex] prints: [n] clamped to 0..255 and rounded. *)
Definition clampRound (n : R) : Z :=
  Int_part (Math_max 0 (Math_min 255 n) + / 2).

(** Every parsed background on the walk from [e] up to the root is a
    colour of the data model, with an alpha in 0..1. *)
Definition backgroundsInModel (e : Element) : Prop :=
  forall below t c,
    pathUp e below t -> backgroundColor t = Some c ->
    wellFormed c /\ 0 <= a c <= 1.

(** No channel of [c1] is above the same channel of [c2]. *)
Definition notLighter (c1 c2 : Color) : Prop :=
  r c1 <= r c2 /\ g c1 <= g c2 /\ b c1 <= b c2.

(** Large red text on a white background. *)
Definition red : Color := mkColor 255 0 0 1.

Definition redOnWhite : Element :=
  mkElement "H1" "" (Some "") None "Title" false false (Some red)
    (Some white) 24 "400" None.

(** How the callback of [analyzeColorContrast] ends for one element,
    from the empty state. *)
Definition reported (document : Document) (element : Element)
    : Completion State :=
  analyzeElement document (mkState [] []) element.

(** The callback pushes a contrast issue for the element. *)
Definition isReported (document : Document) (element : Element) : bool :=
  match contrastIssues (stateOf (reported document element)) with
  | [] => false
  | _ :: _ => true
  end.

(** A record of [state.contrastIssues] and one of [state.fixableIssues]
    that were pushed together for [element]. *)
Definition pushedTogether (element : Element)
    (issue : ContrastIssue) (fix_ : FixableIssue) : Prop :=
  issueElement issue = element /\ fixes fix_ = [element] /\
  affectedElements fix_ = 1%nat /\
  issueSeverity issue = severity fix_ /\
  (issueType fix_ = "contrast-aa" /\ severity fix_ = "critical" \/
   issueType fix_ = "contrast-aaa" /\ severity fix_ = "warning") /\
  category fix_ = "visual" /\ automationPossible fix_ = true.

(** The fixable issues that [rerunContrastCheck] keeps. *)
Definition notContrast (issue : FixableIssue) : bool :=
  negb (Typography.contains (issueType issue) "contrast").

(** The state [st] with the records of [more] appended. *)
Definition append (st more : State) : State :=
  mkState (contrastIssues st ++ contrastIssues more)
          (fixableIssues st ++ fixableIssues more).

Definition after (st : State) (c : Completion State) : Completion State :=
  match c with
  | Normal more => Normal (append st more)
  | Throw more => Throw (append st more)
  end.

(** The elements of a list before the first one for which
    [generateSelector] throws. *)
Fixpoint completed (document : Document) (elements : list Element)
    : list Element :=
  match elements with
  | [] => []
  | element :: rest =>
      if generateSelector document element
      then element :: completed document rest
      else []
  end.

Definition throwsOn (document : Document) (element : Element) : bool :=
  negb (generateSelector document element).

(** The state after [rerunContrastCheck()], however the call ends: the
    contrast records are dropped and the contrast pass is run again.
    [elements] is what [document.querySelectorAll('*')] returns in that
    pass; the notification that the function shows before the pass is
    among them, and so are the cards that an earlier call rendered.  The
    notifications and the rendering, which follows the pass, write
    nothing into the state. *)
Definition rerunContrastCheck (document : Document)
    (elements : list Element) (st : State) : State :=
  stateOf
    (analyzeColorContrast document elements
       (mkState [] (filter notContrast (fixableIssues st)))).

(** Red text in a paragraph of the given class. *)
Definition redParagraph (className : string) : Element :=
  mkElement "P" "" (Some className) None "text" false false (Some red)
    (Some white) 16 "400" None.

(** *** The figures of the report *)

(** The own properties of an object literal, by key. *)
Fixpoint own {V : Type} (table : list (string * V)) (key : string)
    : option V :=
  match table with
  | [] => None
  | (k, v) :: rest => if String.eqb k key then Some v else own rest key
  end.

(** The keys that every object literal inherits from [Object.prototype]:
    a lookup of one of them yields a function or an object, not
    [undefined]. *)
Definition objectPrototype : list string :=
  ["constructor"; "hasOwnProperty"; "isPrototypeOf"; "propertyIsEnumerable";
   "toLocaleString"; "toString"; "valueOf"; "__proto__";
   "__defineGetter__"; "__defineSetter__"; "__lookupGetter__";
   "__lookupSetter__"].

Definition timeMap : list (string * nat) :=
  [("contrast-aa", 10%nat); ("contrast-aaa", 10%nat);
   ("focus-accessibility", 15%nat); ("missing-accessible-name", 8%nat);
   ("missing-required-state", 5%nat); ("touch-target-size", 12%nat);
   ("readability-issues", 20%nat)].

(** [timeMap[issue.issueType] || 10]; [None] stands for an inherited
    member, which is not a number. *)
Definition timePerElement (type : string) : option nat :=
  match own timeMap type with
  | Some minutes => Some minutes
  | None => if includes objectPrototype type then None else Some 10%nat
  end.

(** [calculateTotalFixTime(issues)]; [None] stands for [NaN]. *)
Definition calculateTotalFixTime (issues : list FixableIssue)
    : option nat :=
  fold_left
    (fun total issue =>
       match total, timePerElement (issueType issue) with
       | Some t, Some minutes =>
           Some (t + minutes * affectedElements issue)%nat
       | _, _ => None
       end)
    issues (Some 0%nat).

Record SeverityCounts : Type := mkSeverityCounts {
  critical : nat;
  warning : nat;
  info : nat
}.

Definition hasSeverity (s : string) (issue : FixableIssue) : bool :=
  String.eqb (severity issue) s.

(** [categorizeBySeverity(issues)] *)
Definition categorizeBySeverity (issues : list FixableIssue)
    : SeverityCounts :=
  mkSeverityCounts
    (List.length (filter (hasSeverity "critical") issues))
    (List.length (filter (hasSeverity "warning") issues))
    (List.length (filter (hasSeverity "info") issues)).

(** The counts and the times of [generatePriorityRoadmap(issues)], phase
    by phase. *)
Record Phase : Type := mkPhase {
  phaseIssues : nat;
  estimatedTime : option nat
}.

Record Roadmap : Type := mkRoadmap {
  phase1_immediate : Phase;
  phase2_important : Phase;
  phase3_enhancement : Phase
}.

Definition generatePriorityRoadmap (issues : list FixableIssue) : Roadmap :=
  let critical := filter (hasSeverity "critical") issues in
  let warning := filter (hasSeverity "warning") issues in
  let info := filter (hasSeverity "info") issues in
  mkRoadmap
    (mkPhase (List.length critical) (calculateTotalFixTime critical))
    (mkPhase (List.length warning) (calculateTotalFixTime warning))
    (mkPhase (List.length info) (calculateTotalFixTime info)).

Record Impacts : Type := mkImpacts {
  screenReaders : nat;
  keyboardUsers : nat;
  visuallyImpaired : nat;
  motorImpaired : nat;
  cognitiveImpaired : nat
}.

(** One step of the [forEach] of [getImpactAssessment]. *)
Definition assess (impacts : Impacts) (issue : FixableIssue) : Impacts :=
  let n := affectedElements issue in
  if String.eqb (category issue) "semantic" then
    mkImpacts (screenReaders impacts + n) (keyboardUsers impacts)
      (visuallyImpaired impacts) (motorImpaired impacts)
      (cognitiveImpaired impacts)
  else if String.eqb (category issue) "keyboard" then
    mkImpacts (screenReaders impacts) (keyboardUsers impacts + n)
      (visuallyImpaired impacts) (motorImpaired impacts)
      (cognitiveImpaired impacts)
  else if String.eqb (category issue) "visual" then
    mkImpacts (screenReaders impacts) (keyboardUsers impacts)
      (visuallyImpaired impacts + n) (motorImpaired impacts)
      (cognitiveImpaired impacts)
  else if String.eqb (category issue) "motor" then
    mkImpacts (screenReaders impacts) (keyboardUsers impacts)
      (visuallyImpaired impacts) (motorImpaired impacts + n)
      (cognitiveImpaired impacts)
  else if String.eqb (category issue) "cognitive" then
    mkImpacts (screenReaders impacts) (keyboardUsers impacts)
      (visuallyImpaired impacts) (motorImpaired impacts)
      (cognitiveImpaired impacts + n)
  else impacts.

(** [getImpactAssessment(issues)] *)
Definition getImpactAssessment (issues : list FixableIssue) : Impacts :=
  fold_left assess issues (mkImpacts 0 0 0 0 0).

(** The value of the field [wcagCriteria] of a fixable issue: a name, or
    the member of [Object.prototype] that the lookup found. *)
Inductive Criterion : Type :=
| named (text : string)
| inheritedMember (key : string).

Definition Criterion_eq_dec (x y : Criterion) : {x = y} + {x <> y}.
Proof. decide equality; apply string_dec. Defined.

Definition criteria : list (string * string) :=
  [("contrast-aa", "1.4.3 Contrast (Minimum)");
   ("contrast-aaa", "1.4.6 Contrast (Enhanced)");
   ("focus-accessibility", "2.4.7 Focus Visible");
   ("missing-accessible-name", "4.1.2 Name, Role, Value");
   ("missing-required-state", "4.1.2 Name, Role, Value");
   ("touch-target-size", "2.5.5 Target Size");
   ("readability-issues", "3.1.5 Reading Level")].

(** [getWCAGCriteria(type)]: [criteria[type] || 'General'] *)
Definition getWCAGCriteria (type : string) : Criterion :=
  match own criteria type with
  | Some text => named text
  | None =>
      if includes objectPrototype type then inheritedMember type
      else named "General"
  end.

(** [createFixableIssue] stores [getWCAGCriteria(type)] beside the type. *)
Definition wcagCriteria (issue : FixableIssue) : Criterion :=
  getWCAGCriteria (issueType issue).

Record WcagCriterion : Type := mkWcagCriterion {
  name : string;
  level : string;
  description : string
}.

Definition getAllWCAGCriteria : list WcagCriterion :=
  [mkWcagCriterion "1.4.3 Contrast (Minimum)" "AA"
     "Text contrast ratio of at least 4.5:1";
   mkWcagCriterion "1.4.6 Contrast (Enhanced)" "AAA"
     "Text contrast ratio of at least 7:1";
   mkWcagCriterion "2.4.7 Focus Visible" "AA"
     "Keyboard focus indicator is visible";
   mkWcagCriterion "4.1.2 Name, Role, Value" "A"
     "Elements have accessible names and roles";
   mkWcagCriterion "2.5.5 Target Size" "AAA"
     "Touch targets are at least 44x44px";
   mkWcagCriterion "3.1.5 Reading Level" "AAA"
     "Content is readable at appropriate level"].

(** [new Set(fixableIssues.map(i => i.wcagCriteria))] *)
Definition failedCriteria (fixableIssues : list FixableIssue)
    : list Criterion :=
  nodup Criterion_eq_dec (map wcagCriteria fixableIssues).

(** [calculateWCAGScore()] *)
Definition calculateWCAGScore (fixableIssues : list FixableIssue) : R :=
  let totalPossible := INR (List.length getAllWCAGCriteria) in
  let failed := INR (List.length (failedCriteria fixableIssues)) in
  Math_round (((totalPossible - failed) / totalPossible) * 100).

(** [generateCriteriaStatus()]: the criteria that are shown as failed. *)
Definition failing (fixableIssues : list FixableIssue)
    : list WcagCriterion :=
  filter (fun c =>
            if in_dec Criterion_eq_dec (named (name c))
                 (failedCriteria fixableIssues)
            then true else false)
         getAllWCAGCriteria.

(** The sum of the numbers of affected elements. *)
Definition affected (issues : list FixableIssue) : nat :=
  list_sum (map affectedElements issues).

(** A fixable issue as the contrast pass files it. *)
Definition contrastRecord (issue : FixableIssue) : Prop :=
  affectedElements issue = 1%nat /\
  (issueType issue = "contrast-aa" /\ severity issue = "critical" \/
   issueType issue = "contrast-aaa" /\ severity issue = "warning") /\
  category issue = "visual".

Definition severities : list string := ["critical"; "warning"; "info"].

Definition categories : list string :=
  ["semantic"; "keyboard"; "visual"; "motor"; "cognitive"].

(** The affected elements of the issues of one category. *)
Definition affectedIn (c : string) (issues : list FixableIssue) : nat :=
  affected (filter (fun issue => String.eqb (category issue) c) issues).

(** A fixable issue of the given type on [n] copies of one element, as
    [createFixableIssue] files it. *)
Definition issueOf (type sev : string) (n : nat) : FixableIssue :=
  mkFixableIssue type sev (getAccessibilityCategory type) n
    (repeat redOnWhite n) (mkContrastFix red white) (canAutomate type).

Definition sampleIssues : list FixableIssue :=
  [issueOf "contrast-aa" "critical" 1; issueOf "touch-target-size" "warning" 2;
   issueOf "readability-issues" "info" 3;
   issueOf "keyboard-navigation" "warning" 1].

(** One issue for each row of the table of criteria, and one of a type
    that the table does not list. *)
Definition everyCriterion : list FixableIssue :=
  map (fun type => issueOf type "warning" 1)
    ["contrast-aa"; "contrast-aaa"; "focus-accessibility";
     "missing-accessible-name"; "touch-target-size"; "readability-issues";
     "keyboard-navigation"].

(** The criteria of the types that are no members of [Object.prototype]. *)
Definition listed : list Criterion :=
  [named "1.4.3 Contrast (Minimum)"; named "1.4.6 Contrast (Enhanced)";
   named "2.4.7 Focus Visible"; named "4.1.2 Name, Role, Value";
   named "2.5.5 Target Size"; named "3.1.5 Reading Level"; named "General"].

Definition severityWeight : list (string * R) :=
  [("critical", 1); ("warning", 2); ("info", 3)].

Definition categoryWeight : list (string * R) :=
  [("semantic", 0.1); ("keyboard", 0.2); ("visual", 0.3); ("motor", 0.4);
   ("cognitive", 0.5)].

(** [getAccessibilityPriority(issue)] as a number; [None] when the sum is
    not a number (a severity outside the table, or a member inherited
    from [Object.prototype] in place of a weight). *)
Definition getAccessibilityPriority (issue : FixableIssue) : option R :=
  match own severityWeight (severity issue) with
  | Some s =>
      match own categoryWeight (category issue) with
      | Some c => Some (s + c)
      | None =>
          if includes objectPrototype (category issue) then None
          else Some (s + 0.5)
      end
  | None => None
  end.

(** The rank of a severity in the order critical, warning, info. *)
Definition severityRank (s : string) : nat :=
  if String.eqb s "critical" then 1
  else if String.eqb s "warning" then 2
  else 3.

End ContrastExtra.

(** ** Further properties of the fingerprint collector: definitions *)

Module TypographyExtra.

Import JSString JSFloat Typography.
Local Open Scope string_scope.

(** The elements that [collectTypographyData] files: matched by the
    selector and not skipped as invisible. *)
Definition files (element : Element) : bool :=
  (selected element && negb (skipped element))%bool.

Definition styleKey (element : Element) : string :=
  keyOf (computedStyle element).


(** The keys in the order of their first occurrence, after those already
    seen. *)
Fixpoint firstSeen (keys seen : list string) : list string :=
  match keys with
  | [] => seen
  | key :: rest =>
      firstSeen rest (if includes seen key then seen else seen ++ [key])%list
  end.

(** The sum of the counts of the buckets. *)
Definition total (fontMap : FontMap) : nat :=
  list_sum (map (fun kv => count (snd kv)) fontMap).

(** The severity that the rules of [analyzeIssues] give to each type. *)
Definition severityOf (type : string) : string :=
  if String.eqb type "line-height-too-small" then "critical"
  else if includes ["redundant-style"; "non-standard-size"] type then "info"
  else "warning".

(** An issue and the fixable issue that were filed together. *)
Definition filedTogether (issue : Issue) (fix_ : FixableIssue) : Prop :=
  rule issue = issueType fix_ /\ severity issue = fixSeverity fix_ /\
  issueElements issue = fixes fix_ /\ issueCount issue = affectedElements fix_.

(** A fixable issue on the whole bucket [data]. *)
Definition onBucket (data : Entry) (fix_ : FixableIssue) : Prop :=
  fixes fix_ = elements data /\
  affectedElements fix_ = List.length (elements data) /\
  fixSeverity fix_ = severityOf (issueType fix_) /\
  In (issueType fix_)
     ["line-height-too-small"; "line-height-too-large";
      "extreme-font-weight"; "redundant-style"; "mixed-font-families";
      "non-standard-size"].

(** The reducer of [findNearestStandardSize]. *)
Definition nearer (currentSize prev curr : float) : float :=
  if lt (abs (curr - currentSize)) (abs (prev - currentSize))
  then curr else prev.

(** [findNearestStandardSize(currentSize)], before ['px'] is appended;
    [None] stands for the [TypeError] of [reduce] on an empty array. *)
Definition findNearestStandardSize (config : Config) (currentSize : float)
    : option float :=
  match map parseFloat (commonFontSizes config) with
  | [] => None
  | first :: rest => Some (fold_left (nearer currentSize) rest first)
  end.

(** The distance that the reducer compares. *)
Definition distance (currentSize size : float) : float :=
  abs (size - currentSize).

(** The conditional expression that gives [suggestedWeight]. *)
Definition suggestedWeight (fontWeight : string) : string :=
  if (String.eqb fontWeight "100" || String.eqb fontWeight "200")%bool
  then "400"
  else if (String.eqb fontWeight "800" || String.eqb fontWeight "900")%bool
  then "700"
  else fontWeight.

(** [issue.severity === s], the test of the statistics of
    [exportToConsole]. *)
Definition hasSeverity (s : string) (issue : Issue) : bool :=
  String.eqb (severity issue) s.

(** The statistics that [exportToConsole] prints. *)
Record Statistics : Type := mkStatistics {
  totalFontCombinations : nat;
  criticalIssues : nat;
  warnings : nat;
  info : nat
}.

Definition statistics (fontMap : FontMap) (st : State) : Statistics :=
  mkStatistics (List.length fontMap)
    (List.length (filter (hasSeverity "critical") (issues st)))
    (List.length (filter (hasSeverity "warning") (issues st)))
    (List.length (filter (hasSeverity "info") (issues st))).

End TypographyExtra.
(** ** The rules of the fingerprint collector, with the exception

    [createFixableIssue] of src/code.js asks [generateSelector] for every
    element of the bucket, and [generateSelector] throws when
    [querySelectorAll] does.  The issue that [addIssue] pushed before
    stays in the state; the callback, the [forEach] of [analyzeIssues]
    and [run] are left. *)

Module TypographyPass.

Import JSString JSFloat DOM Typography TypographyExtra.
Local Open Scope string_scope.
Local Set Warnings "-inexact-float".

(** [generateSelector(element)] returns. *)
Definition generateSelector (document : Document) (element : Element)
    : bool :=
  DOM.generateSelector document (tagName element) (id element)
    (className element).

(** [addIssue(severity, type, description, elements, details)] *)
Definition addIssue (sev type : string) (elements : list Element)
    (st : State) : State :=
  mkState
    (issues st ++ [mkIssue sev type elements (List.length elements)])
    (fixableIssues st).

(** [createFixableIssue(type, severity, elements, ...)]: [elements.map]
    asks [generateSelector] for every element before the record is
    pushed. *)
Definition createFixableIssue (document : Document) (type sev : string)
    (elements : list Element) (st : State) : Completion State :=
  if forallb (generateSelector document) elements
  then
    Normal
      (mkState (issues st)
         (fixableIssues st ++
          [mkFixableIssue type sev (List.length elements) elements]))
  else Throw st.

(** The two calls of a rule that fires. *)
Definition report (document : Document) (sev type : string)
    (elements : list Element) (st : State) : Completion State :=
  createFixableIssue document type sev elements
    (addIssue sev type elements st).

(** The callback of [analyzeIssues], for one bucket. *)
Definition analyzeEntry (document : Document) (config : Config)
    (st : State) (data : Entry) : Completion State :=
  let style := metricsStyle (metrics data) in
  let elements := elements data in
  let fontSizeNum := parseFloat (fontSize style) in
  let lineHeightNum := parseFloat (lineHeight style) in
  let lineHeightRatio := (lineHeightNum / fontSizeNum)%float in
  andThen
    (if lt lineHeightRatio (minLineHeightRatio config) then
       report document "critical" "line-height-too-small" elements st
     else if gt lineHeightRatio (maxLineHeightRatio config) then
       report document "warning" "line-height-too-large" elements st
     else Normal st)
  (fun st1 =>
  andThen
    (if includes (suspiciousWeights config) (fontWeight style) then
       report document "warning" "extreme-font-weight" elements st1
     else Normal st1)
  (fun st2 =>
  andThen
    (if Nat.leb (count data) (redundancyThreshold config) then
       report document "info" "redundant-style" elements st2
     else Normal st2)
  (fun st3 =>
  let familyLower := toLowerCase (fontFamily style) in
  andThen
    (if (contains familyLower "serif" && contains familyLower "sans")%bool
     then report document "warning" "mixed-font-families" elements st3
     else Normal st3)
  (fun st4 =>
  if (negb (includes (commonFontSizes config) (fontSize style)) &&
      gt fontSizeNum 10)%bool then
    report document "info" "non-standard-size" elements st4
  else Normal st4)))).

(** [analyzeIssues()]: the buckets in the order of the map. *)
Definition analyzeIssues (document : Document) (config : Config)
    (fontMap : FontMap) (st : State) : Completion State :=
  forEach (fun st kv => analyzeEntry document config st (snd kv)) fontMap st.

(** [run()] up to the end of [analyzeIssues]: the map and the lists are
    emptied, then filled.  [allElements] is the document in document
    order. *)
Definition run (document : Document) (allElements : list Element)
    : FontMap * Completion State :=
  let fontMap := collectTypographyData allElements [] in
  (fontMap, analyzeIssues document config fontMap (mkState [] [])).

(** How the callback ends for one bucket, from the empty state. *)
Definition emitted (document : Document) (config : Config) (data : Entry)
    : Completion State :=
  analyzeEntry document config (mkState [] []) data.

(** The records of the callback for one bucket. *)
Definition issuesOf (document : Document) (config : Config) (data : Entry)
    : list Issue :=
  issues (stateOf (emitted document config data)).

Definition fixableIssuesOf (document : Document) (config : Config)
    (data : Entry) : list FixableIssue :=
  fixableIssues (stateOf (emitted document config data)).

(** [generateSelector] returns for every element of the bucket. *)
Definition accepted (document : Document) (data : Entry) : bool :=
  forallb (generateSelector document) (elements data).

(** The state [st] with the records of [more] appended. *)
Definition append (st more : State) : State :=
  mkState (issues st ++ issues more)
          (fixableIssues st ++ fixableIssues more).

Definition after (st : State) (c : Completion State) : Completion State :=
  match c with
  | Normal more => Normal (append st more)
  | Throw more => Throw (append st more)
  end.

(** The buckets that [analyzeIssues] reaches: those up to the first one
    at which the callback throws, that one included. *)
Fixpoint reached (document : Document) (config : Config)
    (fontMap : FontMap) : FontMap :=
  match fontMap with
  | [] => []
  | kv :: rest =>
      if returns (emitted document config (snd kv))
      then kv :: reached document config rest
      else [kv]
  end.


(** The callback pushes an issue of the redundancy rule for the bucket,
    and it files a fixable issue of that rule. *)
Definition reportedRedundant (document : Document) (config : Config)
    (data : Entry) : Prop :=
  exists i, In i (issuesOf document config data) /\
            rule i = "redundant-style".





End TypographyPass.


(** ** Focus, touch target, tab order and heading checks:
    src/UI/Accessibility.Contrast.Analyzer.js *)

Module Focus.

Import JSReal JSString DOM.
Local Open Scope string_scope.
Local Open Scope R_scope.

(** A string is truthy when it is not empty. *)
Definition truthy (s : string) : bool := negb (String.eqb s "").

(** An attribute or property that may be [null] or [undefined]. *)
Definition truthyAttribute (value : option string) : bool :=
  match value with Some s => truthy s | None => false end.

(** [value === s] *)
Definition equals (value : option string) (s : string) : bool :=
  match value with Some v => String.eqb v s | None => false end.

(** [array.includes(value)] *)
Definition among (array : list string) (value : option string) : bool :=
  match value with Some v => includes array v | None => false end.

(** What [getComputedStyle(element)] gives of the focus indication. *)
Record Style : Type := mkStyle {
  outlineWidth : string;
  outlineStyle : string;
  boxShadow : string;
  borderWidth : string;
  backgroundColor : string
}.

(** An element with what the checks read of it; [className] is [None]
    when it is not a string. *)
Record Element : Type := mkElement {
  tagName : string;
  id : string;
  className : option string;
  tabindex : option string;
  role : option string;
  href : option string;
  onclick : bool;
  addEventListener : bool;
  onclickAttribute : option string;
  style : Style;
  rectWidth : R;
  rectHeight : R
}.

(** [config.touchTargets] *)
Definition minWidth : R := 44.
Definition minHeight : R := 44.

(** [checkFocusOutline(element)], as the truth value of its result. *)
Definition checkFocusOutline (element : Element) : bool :=
  let style := style element in
  if (String.eqb (outlineStyle style) "none" ||
      String.eqb (outlineWidth style) "0px")%bool
  then
    let hasBoxShadow :=
      (truthy (boxShadow style) &&
       negb (String.eqb (boxShadow style) "none"))%bool in
    let hasBorder :=
      (truthy (borderWidth style) &&
       negb (String.eqb (borderWidth style) "0px"))%bool in
    let hasBackground :=
      (truthy (backgroundColor style) &&
       negb (String.eqb (backgroundColor style) "transparent"))%bool in
    (hasBoxShadow || hasBorder || hasBackground)%bool
  else true.

(** [checkKeyboardAccessibility(element)] *)
Definition checkKeyboardAccessibility (element : Element) : bool :=
  let tagName := JSString.toLowerCase (tagName element) in
  let allowedRoles := ["dialog"; "alertdialog"; "menu"; "menubar"] in
  if (equals (tabindex element) "-1" &&
      (negb (truthyAttribute (role element)) ||
       negb (among allowedRoles (role element))))%bool
  then false
  else if (String.eqb tagName "a" && negb (truthyAttribute (href element)))%bool
  then
    (onclick element || addEventListener element ||
     truthyAttribute (onclickAttribute element))%bool
  else true.

Record TouchTargetSize : Type := mkTouchTargetSize {
  width : R;
  height : R;
  adequate : bool;
  requiredWidth : R;
  requiredHeight : R
}.

(** [getTouchTargetSize(element)] *)
Definition getTouchTargetSize (element : Element) : TouchTargetSize :=
  let adequate :=
    (geb (rectWidth element) minWidth &&
     geb (rectHeight element) minHeight)%bool in
  mkTouchTargetSize (Math_round (rectWidth element))
    (Math_round (rectHeight element)) adequate minWidth minHeight.

(** A record of [state.focusIssues]. *)
Record FocusIssue : Type := mkFocusIssue {
  issueElement : Element;
  severity : string;
  hasVisibleOutline : bool;
  isKeyboardAccessible : bool;
  touchTargetSize : TouchTargetSize
}.

(** A record of [state.fixableIssues] as the focus and the touch target
    checks file it: the type, the severity, the element and the size that
    its current values print. *)
Record FixableIssue : Type := mkFixableIssue {
  issueType : string;
  fixSeverity : string;
  fixes : list Element;
  currentSize : TouchTargetSize
}.

(** The part of [state] that the two checks write. *)
Record State : Type := mkState {
  focusIssues : list FocusIssue;
  fixableIssues : list FixableIssue
}.

(** [generateSelector(element)] returns. *)
Definition generateSelector (document : Document) (element : Element)
    : bool :=
  DOM.generateSelector document (tagName element) (id element)
    (className element).

(** [createFixableIssue(type, severity, elements, ...)]: [elements.map]
    asks [generateSelector] for every element before the record is
    pushed. *)
Definition createFixableIssue (document : Document) (type severity : string)
    (elements : list Element) (size : TouchTargetSize) (st : State)
    : Completion State :=
  if forallb (generateSelector document) elements
  then
    Normal
      (mkState (focusIssues st)
         (fixableIssues st ++ [mkFixableIssue type severity elements size]))
  else Throw st.

(** [addFocusIssue(element, data)]: the focus issue is pushed first, then
    [createFixableIssue] is called. *)
Definition addFocusIssue (document : Document) (element : Element)
    (hasVisibleOutline isKeyboardAccessible : bool)
    (touchTargetSize : TouchTargetSize) (st : State) : Completion State :=
  let severity :=
    if (negb hasVisibleOutline || negb isKeyboardAccessible)%bool
    then "critical" else "warning" in
  createFixableIssue document "focus-accessibility" severity [element]
    touchTargetSize
    (mkState
       (focusIssues st ++
        [mkFocusIssue element severity hasVisibleOutline isKeyboardAccessible
           touchTargetSize])
       (fixableIssues st)).

(** The callback of [analyzeFocusability], for one element. *)
Definition analyzeFocus (document : Document) (st : State)
    (element : Element) : Completion State :=
  let hasVisibleOutline := checkFocusOutline element in
  let isKeyboardAccessible := checkKeyboardAccessibility element in
  let touchTargetSize := getTouchTargetSize element in
  if (negb hasVisibleOutline || negb isKeyboardAccessible ||
      negb (adequate touchTargetSize))%bool
  then addFocusIssue document element hasVisibleOutline isKeyboardAccessible
         touchTargetSize st
  else Normal st.

(** [analyzeFocusability()] over the elements that match
    [config.focusableElements], in document order. *)
Definition analyzeFocusability (document : Document)
    (focusableElements : list Element) (st : State) : Completion State :=
  forEach (analyzeFocus document) focusableElements st.

(** [addTouchTargetIssue(element, size)] *)
Definition addTouchTargetIssue (document : Document) (element : Element)
    (size : TouchTargetSize) (st : State) : Completion State :=
  createFixableIssue document "touch-target-size" "warning" [element] size
    st.

(** The callback of [analyzeTouchTargets], for one element. *)
Definition analyzeTouch (document : Document) (st : State)
    (element : Element) : Completion State :=
  let size := getTouchTargetSize element in
  if negb (adequate size)
  then addTouchTargetIssue document element size st
  else Normal st.

(** [analyzeTouchTargets()] over the interactive elements, in document
    order. *)
Definition analyzeTouchTargets (document : Document)
    (interactiveElements : list Element) (st : State) : Completion State :=
  forEach (analyzeTouch document) interactiveElements st.

(** The targets that are not adequate, and the record that
    [addTouchTargetIssue] files for one. *)
Definition inadequate (elements : list Element) : list Element :=
  filter (fun element => negb (adequate (getTouchTargetSize element)))
         elements.

Definition touchRecord (element : Element) : FixableIssue :=
  mkFixableIssue "touch-target-size" "warning" [element]
    (getTouchTargetSize element).

(** The elements of a list before the first one for which
    [generateSelector] throws. *)
Fixpoint completed (document : Document) (elements : list Element)
    : list Element :=
  match elements with
  | [] => []
  | element :: rest =>
      if generateSelector document element
      then element :: completed document rest
      else []
  end.

(** The state [st] with the records of [more] appended. *)
Definition append (st more : State) : State :=
  mkState (focusIssues st ++ focusIssues more)
          (fixableIssues st ++ fixableIssues more).

Definition after (st : State) (c : Completion State) : Completion State :=
  match c with
  | Normal more => Normal (append st more)
  | Throw more => Throw (append st more)
  end.

(** The callback of [analyzeFocusability] files one focus issue of the
    given severity on [element]; if [generateSelector] returns for the
    element it files the fixable issue [focus-accessibility] of that
    severity too and returns, and if not, the exception leaves the
    callback after the focus issue is pushed. *)
Definition oneFocusIssue (document : Document) (st : State)
    (element : Element) (sev : string) : Prop :=
  exists issue : FocusIssue,
    issueElement issue = element /\ severity issue = sev /\
    analyzeFocus document st element =
      if generateSelector document element
      then
        Normal
          (mkState (focusIssues st ++ [issue])
             (fixableIssues st ++
              [mkFixableIssue "focus-accessibility" sev [element]
                 (getTouchTargetSize element)]))
      else Throw (mkState (focusIssues st ++ [issue]) (fixableIssues st)).

(** The element is taken out of the tab order and has none of the roles
    that may be focused by a program only. *)
Definition notReachable (element : Element) : Prop :=
  tabindex element = Some "-1" /\
  ~ (exists role, Focus.role element = Some role /\
                  In role ["dialog"; "alertdialog"; "menu"; "menubar"]).

(** A link of 43.6 by 43.6 pixels. *)
Definition plainStyle : Style :=
  mkStyle "0px" "none" "none" "0px" "rgba(0, 0, 0, 0)".

Definition nearlyAdequate : Element :=
  mkElement "A" "" (Some "") None None (Some "https://example.org/") false
    true None plainStyle 43.6 43.6.

End Focus.

Module Keyboard.

Import JSString JSFloat Focus.
Local Open Scope string_scope.
Local Open Scope float_scope.
Local Set Warnings "-inexact-float".

(** [parseInt(element.getAttribute('tabindex')) || 0]: [parseInt] gives
    the Number value of the integer it reads (the nearest binary64
    number; past 20 digits an implementation may round the digits first)
    or [NaN], which [|| 0] turns into 0 as it does the zeros. *)
Definition tabindexOf (element : Element) : float :=
  match tabindex element with
  | Some value =>
      match parseInt value with Some n => ofInteger n | None => 0 end
  | None => 0
  end.

(** A record of [state.keyboardIssues]. *)
Record KeyboardIssue : Type := mkKeyboardIssue {
  issueType : string;
  elements : list Element;
  severity : string
}.

(** [addKeyboardIssue(type, description, elements)] *)
Definition addKeyboardIssue (type : string) (elements : list Element)
    (keyboardIssues : list KeyboardIssue) : list KeyboardIssue :=
  (keyboardIssues ++ [mkKeyboardIssue type elements "warning"])%list.

(** The variables of [checkTabOrder] and the index of its [forEach]. *)
Record TabState : Type := mkTabState {
  previousTabindex : float;
  hasLogicalOrder : bool;
  index : nat
}.

Definition tabStep (st : TabState) (element : Element) : TabState :=
  let tabindex := tabindexOf element in
  mkTabState tabindex
    (if ((0 <? tabindex) && negb (tabindex =? previousTabindex st + 1) &&
         Nat.ltb 0 (index st))%bool
     then false else hasLogicalOrder st)
    (Datatypes.S (index st)).

(** [checkTabOrder(elements)] *)
Definition checkTabOrder (elements : list Element)
    (keyboardIssues : list KeyboardIssue) : list KeyboardIssue :=
  let final := fold_left tabStep elements (mkTabState 0 true 0) in
  if (negb (hasLogicalOrder final) && Nat.ltb 0 (List.length elements))%bool
  then addKeyboardIssue "tab-order" elements keyboardIssues
  else keyboardIssues.

(** [array.sort(compare)] with the comparator [tabA - tabB] of
    [analyzeKeyboardNavigation]: the sort is stable, and an element goes
    before the first one for which the comparator is not positive (a
    [NaN], from two infinite values, counts as zero). *)
Fixpoint insert (element : Element) (sorted : list Element)
    : list Element :=
  match sorted with
  | [] => [element]
  | next :: rest =>
      if 0 <? tabindexOf element - tabindexOf next
      then next :: insert element rest
      else element :: sorted
  end.

Definition sort (elements : list Element) : list Element :=
  fold_right insert [] elements.

(** The elements that [analyzeKeyboardNavigation] hands to
    [checkTabOrder], from those that have a [tabindex] attribute. *)
Definition tabbableElements (withTabindex : list Element) : list Element :=
  sort (filter (fun el => negb (equals (tabindex el) "-1")) withTabindex).

(** The tab order part of [analyzeKeyboardNavigation()]. *)
Definition analyzeKeyboardNavigation (withTabindex : list Element)
    (keyboardIssues : list KeyboardIssue) : list KeyboardIssue :=
  checkTabOrder (tabbableElements withTabindex) keyboardIssues.

(** Two neighbours of a list are related by [R]. *)
Fixpoint neighbours {A : Type} (R : A -> A -> Prop) (l : list A) : Prop :=
  match l with
  | x :: (y :: _) as rest => R x y \/ neighbours R rest
  | _ => False
  end.

(** A positive tabindex that is not the previous one plus one, as
    binary64 arithmetic has it. *)
Definition gap (previous tabindex : float) : Prop :=
  (0 <? tabindex) = true /\ (tabindex =? previous + 1) = false.

(** An element with the given [tabindex] attribute. *)
Definition tabbed (value : string) : Element :=
  mkElement "DIV" "" (Some "") (Some value) None None false true None
    plainStyle 100 100.

End Keyboard.

Module ScreenReader.

Import JSString.
Local Open Scope string_scope.
Local Open Scope Z_scope.

(** A heading element: its tag name and its text content. *)
Record Heading : Type := mkHeading {
  tagName : string;
  textContent : string
}.

(** [s.charAt(1)] *)
Definition charAt1 (s : string) : string :=
  match String.get 1 s with
  | Some c => String c EmptyString
  | None => EmptyString
  end.

(** [parseInt(h.tagName.charAt(1))]; [None] is [NaN]. *)
Definition level (h : Heading) : option Z := parseInt (charAt1 (tagName h)).

(** A record of [state.allIssues] of type [screen-reader]. *)
Record Issue : Type := mkIssue {
  subType : string;
  elements : list Heading;
  severity : string
}.

(** [addScreenReaderIssue(type, description, elements)] *)
Definition addScreenReaderIssue (type : string) (elements : list Heading)
    (allIssues : list Issue) : list Issue :=
  let severity :=
    if includes ["no-headings"; "input-no-label"; "table-no-headers"] type
    then "critical" else "warning" in
  (allIssues ++ [mkIssue type elements severity])%list.

(** [current.level > previous.level + 1] *)
Definition skips (previous current : Heading) : bool :=
  match level previous, level current with
  | Some p, Some c => p + 1 <? c
  | _, _ => false
  end.

(** The [for] loop over the neighbours, from index 1. *)
Fixpoint checkSkips (previous : Heading) (rest : list Heading)
    (allIssues : list Issue) : list Issue :=
  match rest with
  | [] => allIssues
  | current :: rest' =>
      checkSkips current rest'
        (if skips previous current
         then addScreenReaderIssue "heading-skip" [current] allIssues
         else allIssues)
  end.

(** The [forEach] over the headings for the empty ones. *)
Definition checkEmpty (allIssues : list Issue) (heading : Heading)
    : list Issue :=
  if isBlank (textContent heading)
  then addScreenReaderIssue "empty-heading" [heading] allIssues
  else allIssues.

(** [checkHeadingStructure()] over the headings of the document. *)
Definition checkHeadingStructure (headings : list Heading)
    (allIssues : list Issue) : list Issue :=
  match headings with
  | [] => addScreenReaderIssue "no-headings" [] allIssues
  | first :: rest =>
      let issues1 :=
        match level first with
        | Some 1 => allIssues
        | _ => addScreenReaderIssue "no-h1-first" [first] allIssues
        end in
      let issues2 := checkSkips first rest issues1 in
      fold_left checkEmpty headings issues2
  end.

(** The neighbours of a list all satisfy [R]. *)
Fixpoint chain {A : Type} (R : A -> A -> Prop) (l : list A) : Prop :=
  match l with
  | x :: (y :: _) as rest => R x y /\ chain R rest
  | _ => True
  end.

(** An issue on one heading of the list: a warning of one of the three
    types that name a heading. *)
Definition onHeading (headings : list Heading) (issue : Issue) : Prop :=
  severity issue = "warning" /\
  In (subType issue) ["no-h1-first"; "heading-skip"; "empty-heading"] /\
  exists h, elements issue = [h] /\ In h headings.

(** The second heading is at most one level below the first. *)
Definition follows (previous current : Heading) : Prop :=
  skips previous current = false.

(** An outline that the check accepts. *)
Definition outline : list Heading :=
  [mkHeading "H1" "Title"; mkHeading "H2" "Part"; mkHeading "H3" "Section";
   mkHeading "H2" "Part"].


End ScreenReader.

(** ** The colour parser and its cache:
    src/UI/Accessibility.Contrast.Analyzer.js *)

Module ColorParser.

Import JSString JSFloat.
Local Open Scope string_scope.

(** A parsed colour, on binary64 numbers. *)
Record Color : Type := mkColor {
  r : float;
  g : float;
  b : float;
  a : float
}.

(** The longest prefix without [")"], and what follows it. *)
Fixpoint untilParen (s : string) : string * string :=
  match s with
  | String c rest =>
      if Ascii.eqb c ")" then (EmptyString, s)
      else let (run, after) := untilParen rest in (String c run, after)
  | EmptyString => (EmptyString, EmptyString)
  end.

(** The group of [/rgba?\(([^)]+)\)/] when the expression matches at the
    start of [s]. *)
Definition matchHere (s : string) : option string :=
  match s with
  | String "r" (String "g" (String "b" rest)) =>
      let afterName :=
        match rest with
        | String "a" (String "(" rest') => Some rest'
        | String "(" rest' => Some rest'
        | _ => None
        end in
      match afterName with
      | Some body =>
          match untilParen body with
          | (String c run, String _ _) => Some (String c run)
          | _ => None
          end
      | None => None
      end
  | _ => None
  end.

(** [computed.match(/rgba?\(([^)]+)\)/)]: the group of the leftmost
    match. *)
Fixpoint rgbMatch (s : string) : option string :=
  match matchHere s with
  | Some group => Some group
  | None =>
      match s with
      | String _ rest => rgbMatch rest
      | EmptyString => None
      end
  end.

(** [s.split(',')] *)
Fixpoint split (s : string) : list string :=
  match s with
  | String c rest =>
      if Ascii.eqb c ","
      then EmptyString :: split rest
      else match split rest with
           | part :: parts => String c part :: parts
           | [] => [String c EmptyString]
           end
  | EmptyString => [EmptyString]
  end.

Fixpoint reverse (s acc : string) : string :=
  match s with
  | String c rest => reverse rest (String c acc)
  | EmptyString => acc
  end.

(** [s.trim()] *)
Definition trim (s : string) : string :=
  reverse (trimStart (reverse (trimStart s) EmptyString)) EmptyString.

(** [values[i] || 0] *)
Definition orZero (value : option float) : float :=
  match value with
  | Some x => if (is_nan x || (x =? 0)%float)%bool then 0%float else x
  | None => 0%float
  end.

(** The colour read from a computed value; [None] is [null]. *)
Definition parse (computed : string) : option Color :=
  match rgbMatch computed with
  | Some group =>
      let values := map (fun v => parseFloat (trim v)) (split group) in
      Some (mkColor (orZero (nth_error values 0))
                    (orZero (nth_error values 1))
                    (orZero (nth_error values 2))
                    (match nth_error values 3 with
                     | Some alpha => alpha
                     | None => 1%float
                     end))
  | None => None
  end.

(** [state.colorCache]: a [Map] from colour strings to parsed colours or
    [null]. *)
Definition Cache : Type := list (string * option Color).

Fixpoint get (key : string) (cache : Cache) : option (option Color) :=
  match cache with
  | (k, v) :: rest => if String.eqb key k then Some v else get key rest
  | [] => None
  end.

Definition has (key : string) (cache : Cache) : bool :=
  match get key cache with Some _ => true | None => false end.

Fixpoint set (key : string) (value : option Color) (cache : Cache)
    : Cache :=
  match cache with
  | (k, v) :: rest =>
      if String.eqb key k then (k, value) :: rest
      else (k, v) :: set key value rest
  | [] => [(key, value)]
  end.

Section Document.

(** What [getComputedStyle(div).color] gives once [div.style.color] is
    set to the colour string. *)
Variable computedColor : string -> string.

(** [parseColor(colorString)]: the result and the cache after the
    call. *)
Definition parseColor (colorString : string) (cache : Cache)
    : option Color * Cache :=
  match get colorString cache with
  | Some cached => (cached, cache)
  | None =>
      let result := parse (computedColor colorString) in
      (result, set colorString result cache)
  end.

(** Every entry of the cache is what the parser gives for its key. *)
Definition sound (cache : Cache) : Prop :=
  forall key value,
    get key cache = Some value -> value = parse (computedColor key).

End Document.

(** A document in which every colour string computes to red. *)
Definition alwaysRed (colorString : string) : string := "rgb(255, 0, 0)".

End ColorParser.

(** ** The required ARIA states:
    src/UI/Accessibility.Contrast.Analyzer.js *)

Module Aria.

Import JSString DOM.
Local Open Scope string_scope.

(** An element: its tag name, its [id] and [className] ([None] when it
    is not a string), its [role] and [type] attributes, its [href]
    property and the names of the attributes it has. *)
Record Element : Type := mkElement {
  tagName : string;
  id : string;
  className : option string;
  roleAttribute : option string;
  typeAttribute : option string;
  href : option string;
  attributes : list string
}.

(** [element.hasAttribute(name)] *)
Definition hasAttribute (element : Element) (name : string) : bool :=
  includes (attributes element) name.

(** The implicit roles of the values of [type] on an [input]. *)
Definition inputRoles : list (string * string) :=
  [("button", "button"); ("checkbox", "checkbox"); ("radio", "radio");
   ("range", "slider"); ("text", "textbox"); ("email", "textbox");
   ("password", "textbox"); ("search", "searchbox"); ("tel", "textbox");
   ("url", "textbox")].

(** The implicit roles that do not depend on the element. *)
Definition implicitRoles : list (string * string) :=
  [("button", "button"); ("textarea", "textbox"); ("select", "combobox");
   ("nav", "navigation"); ("main", "main"); ("header", "banner");
   ("footer", "contentinfo"); ("aside", "complementary");
   ("section", "region"); ("article", "article"); ("form", "form");
   ("img", "img"); ("h1", "heading"); ("h2", "heading"); ("h3", "heading");
   ("h4", "heading"); ("h5", "heading"); ("h6", "heading")].

(** [getImplicitRole(element)]; [None] stands for [null] and for a
    member inherited from [Object.prototype], which is no role name. *)
Definition getImplicitRole (element : Element) : option string :=
  let tagName := JSString.toLowerCase (tagName element) in
  if String.eqb tagName "a" then
    if Focus.truthyAttribute (href element) then Some "link" else None
  else if String.eqb tagName "input" then
    match typeAttribute element with
    | Some type =>
        match ContrastExtra.own inputRoles type with
        | Some role => Some role
        | None =>
            if includes ContrastExtra.objectPrototype type then None
            else Some "textbox"
        end
    | None => Some "textbox"
    end
  else ContrastExtra.own implicitRoles tagName.

Definition requiredStates : list (string * list string) :=
  [("checkbox", ["aria-checked"]); ("radio", ["aria-checked"]);
   ("menuitemcheckbox", ["aria-checked"]);
   ("menuitemradio", ["aria-checked"]); ("option", ["aria-selected"]);
   ("tab", ["aria-selected"]); ("button", []);
   ("combobox", ["aria-expanded"]); ("listbox", ["aria-multiselectable"]);
   ("tree", ["aria-multiselectable"]);
   ("treegrid", ["aria-multiselectable"]);
   ("grid", ["aria-multiselectable"]); ("tablist", ["aria-orientation"]);
   ("slider", ["aria-valuenow"; "aria-valuemin"; "aria-valuemax"]);
   ("spinbutton", ["aria-valuenow"; "aria-valuemin"; "aria-valuemax"]);
   ("progressbar", ["aria-valuenow"; "aria-valuemin"; "aria-valuemax"]);
   ("scrollbar",
    ["aria-controls"; "aria-valuenow"; "aria-valuemin"; "aria-valuemax"])].

(** [getRequiredAriaStates(role)]: [requiredStates[role] || []].  [None]
    stands for a member inherited from [Object.prototype], which is
    truthy and no array. *)
Definition getRequiredAriaStates (role : option string)
    : option (list string) :=
  match role with
  | Some role =>
      match ContrastExtra.own requiredStates role with
      | Some states => Some states
      | None =>
          if includes ContrastExtra.objectPrototype role then None
          else Some []
      end
  | None => Some []
  end.

(** A record of [state.ariaIssues]. *)
Record AriaIssue : Type := mkAriaIssue {
  issueElement : Element;
  severity : string;
  issueType : string
}.

(** A record of [state.fixableIssues] as [addAriaIssue] files it. *)
Record FixableIssue : Type := mkFixableIssue {
  fixableType : string;
  fixableSeverity : string;
  fixes : list Element
}.

(** The part of [state] that the ARIA checks write. *)
Record State : Type := mkState {
  ariaIssues : list AriaIssue;
  fixableIssues : list FixableIssue
}.

(** [generateSelector(element)] returns. *)
Definition generateSelector (document : Document) (element : Element)
    : bool :=
  DOM.generateSelector document (tagName element) (id element)
    (className element).

(** [createFixableIssue(type, severity, elements, ...)]: [elements.map]
    asks [generateSelector] for every element before the record is
    pushed. *)
Definition createFixableIssue (document : Document) (type severity : string)
    (elements : list Element) (st : State) : Completion State :=
  if forallb (generateSelector document) elements
  then
    Normal
      (mkState (ariaIssues st)
         (fixableIssues st ++ [mkFixableIssue type severity elements]))
  else Throw st.

(** [addAriaIssue(element, type, description)]: the ARIA issue is pushed
    first, then [createFixableIssue] is called. *)
Definition addAriaIssue (document : Document) (element : Element)
    (type : string) (st : State) : Completion State :=
  let severity :=
    if includes ["missing-accessible-name"; "missing-required-state";
                 "aria-conflict"] type
    then "critical" else "warning" in
  createFixableIssue document type severity [element]
    (mkState (ariaIssues st ++ [mkAriaIssue element severity type])
             (fixableIssues st)).

(** [element.getAttribute('role') || this.getImplicitRole(element)] *)
Definition effectiveRole (element : Element) : option string :=
  if Focus.truthyAttribute (roleAttribute element)
  then roleAttribute element
  else getImplicitRole element.

(** [checkAriaStates(element)]; when [getRequiredAriaStates] yields a
    value that has no [forEach], the call throws a [TypeError] before
    anything is filed. *)
Definition checkAriaStates (document : Document) (element : Element)
    (st : State) : Completion State :=
  match getRequiredAriaStates (effectiveRole element) with
  | Some states =>
      forEach
        (fun st state =>
           if negb (hasAttribute element state)
           then addAriaIssue document element "missing-required-state" st
           else Normal st)
        states st
  | None => Throw st
  end.

(** The required states that the element lacks. *)
Definition missingStates (element : Element) (states : list string)
    : list string :=
  filter (fun state => negb (hasAttribute element state)) states.

(** [getValidAriaRoles()] *)
Definition getValidAriaRoles : list string :=
  ["command"; "composite"; "input"; "landmark"; "range"; "roletype";
   "section"; "sectionhead"; "select"; "structure"; "widget"; "window";
   "alert"; "alertdialog"; "application"; "article"; "banner"; "button";
   "checkbox"; "columnheader"; "combobox"; "complementary"; "contentinfo";
   "definition"; "dialog"; "directory"; "document"; "form"; "grid";
   "gridcell"; "group"; "heading"; "img"; "link"; "list"; "listbox";
   "listitem"; "log"; "main"; "marquee"; "math"; "menu"; "menubar";
   "menuitem"; "menuitemcheckbox"; "menuitemradio"; "navigation"; "note";
   "option"; "presentation"; "progressbar"; "radio"; "radiogroup";
   "region"; "row"; "rowgroup"; "rowheader"; "scrollbar"; "search";
   "separator"; "slider"; "spinbutton"; "status"; "tab"; "tablist";
   "tabpanel"; "textbox"; "timer"; "toolbar"; "tooltip"; "tree";
   "treegrid"; "treeitem"; "none"].

(** [config.requiredRoles] *)
Definition requiredRoles : list (string * list string) :=
  [("img", ["img"; "presentation"; "none"]);
   ("button", ["button"; "link"; "menuitem"]);
   ("a", ["link"; "button"; "tab"; "menuitem"]);
   ("input", ["textbox"; "searchbox"; "button"; "checkbox"; "radio"]);
   ("nav", ["navigation"]); ("main", ["main"]); ("header", ["banner"]);
   ("footer", ["contentinfo"])].

(** [checkAriaRoles(element)]; when the table yields a member inherited
    from [Object.prototype] for the tag name, the call of [includes] on
    it throws a [TypeError]. *)
Definition checkAriaRoles (document : Document) (element : Element)
    (st : State) : Completion State :=
  let tagName := JSString.toLowerCase (tagName element) in
  match roleAttribute element with
  | Some role =>
      if Focus.truthy role then
        andThen
          (if negb (includes getValidAriaRoles role)
           then addAriaIssue document element "invalid-role" st
           else Normal st)
          (fun st1 =>
             match ContrastExtra.own requiredRoles tagName with
             | Some roles =>
                 if negb (includes roles role)
                 then addAriaIssue document element "inappropriate-role" st1
                 else Normal st1
             | None =>
                 if includes ContrastExtra.objectPrototype tagName
                 then Throw st1
                 else Normal st1
             end)
      else Normal st
  | None => Normal st
  end.

(** The records that [addAriaIssue] files for a missing state. *)
Definition missingIssue (element : Element) : AriaIssue :=
  mkAriaIssue element "critical" "missing-required-state".

Definition missingFix (element : Element) : FixableIssue :=
  mkFixableIssue "missing-required-state" "critical" [element].

(** The fixable issue that goes with an ARIA issue. *)
Definition fixOf (issue : AriaIssue) : FixableIssue :=
  mkFixableIssue (issueType issue) (severity issue) [issueElement issue].

(** How a check that files one ARIA issue on [element] ends: with the
    issue and its fixable issue when [generateSelector] returns for the
    element, with the issue alone and the exception when it throws. *)
Definition oneAriaIssue (document : Document) (st : State)
    (issue : AriaIssue) : Completion State :=
  if generateSelector document (issueElement issue)
  then Normal (mkState (ariaIssues st ++ [issue])
                       (fixableIssues st ++ [fixOf issue]))
  else Throw (mkState (ariaIssues st ++ [issue]) (fixableIssues st)).

(** A native checkbox without ARIA attributes. *)
Definition checkbox : Element :=
  mkElement "INPUT" "" (Some "") None (Some "checkbox") None
    ["type"; "name"].

End Aria.
(** ** Facts on the built-ins *)

Module JSRealFacts.

Import JSReal.
Local Open Scope R_scope.

Lemma ltb_true (x y : R) : ltb x y = true <-> x < y.
Proof. unfold ltb. destruct (Rlt_dec x y); split; intros; try easy. Qed.

Lemma ltb_false (x y : R) : ltb x y = false <-> y <= x.
Proof.
  unfold ltb. destruct (Rlt_dec x y); split; intros; try easy; lra.
Qed.

Lemma leb_true (x y : R) : leb x y = true <-> x <= y.
Proof. unfold leb. destruct (Rle_dec x y); split; intros; try easy. Qed.

Lemma leb_false (x y : R) : leb x y = false <-> y < x.
Proof.
  unfold leb. destruct (Rle_dec x y); split; intros; try easy; lra.
Qed.

Lemma gtb_true (x y : R) : gtb x y = true <-> y < x.
Proof. apply ltb_true. Qed.

Lemma gtb_false (x y : R) : gtb x y = false <-> x <= y.
Proof. apply ltb_false. Qed.

Lemma geb_true (x y : R) : geb x y = true <-> y <= x.
Proof. apply leb_true. Qed.

Lemma geb_false (x y : R) : geb x y = false <-> x < y.
Proof. apply leb_false. Qed.

Lemma eqb_true (x y : R) : eqb x y = true <-> x = y.
Proof. unfold eqb. destruct (Req_dec_T x y); split; intros; try easy. Qed.

Lemma eqb_false (x y : R) : eqb x y = false <-> x <> y.
Proof. unfold eqb. destruct (Req_dec_T x y); split; intros; try easy. Qed.

Lemma Math_round_IZR (n : Z) : Math_round (IZR n) = IZR n.
Proof.
  unfold Math_round. f_equal. symmetry. apply Int_part_spec. lra.
Qed.

Lemma Math_round_near (x : R) :
  x - / 2 < Math_round x <= x + / 2.
Proof.
  unfold Math_round.
  destruct (base_Int_part (x + / 2)) as [Hle Hgt]. lra.
Qed.

Lemma Math_round_unique (x : R) (n : Z) :
  IZR n - / 2 <= x < IZR n + / 2 -> Math_round x = IZR n.
Proof.
  intros H. unfold Math_round. f_equal. symmetry.
  apply Int_part_spec. lra.
Qed.

End JSRealFacts.

Module JSStringFacts.

Import JSString.
Local Open Scope string_scope.

Example parseInt_700 : parseInt "700" = Some 700%Z.
Proof. reflexivity. Qed.

Example parseInt_bold : parseInt "bold" = None.
Proof. reflexivity. Qed.

Example parseInt_prefix : parseInt "  -42px" = Some (-42)%Z.
Proof. reflexivity. Qed.

Example parseInt_hex : parseInt "0x1F" = Some 31%Z.
Proof. reflexivity. Qed.

(** The no-break space is white space: a text of it alone is blank, and
    [trim] removes it at both ends. *)
Example isBlank_nbsp :
  isBlank (String (ascii_of_nat 160) " ") = true /\
  trim (String (ascii_of_nat 160) "  a b  ") = "a b" /\
  isBlank " x " = false.
Proof. repeat split. Qed.

Example split_classes :
  split "md:flex  p-4" = ["md:flex"; "p-4"] /\
  split "" = [""] /\ split " a" = [""; "a"].
Proof. repeat split. Qed.

Example toLowerCase_tag : toLowerCase "DIV" = "div".
Proof. reflexivity. Qed.

End JSStringFacts.

(** ** The selector that [generateSelector] looks up *)

Module DOMFacts.

Import JSString DOM.
Local Open Scope string_scope.

Example selector_classes :
  selector "DIV" (Some " md:flex  p-4 ") = "div.md:flex.p-4" /\
  selector "P" (Some "") = "p" /\ selector "P" (Some "  ") = "p" /\
  selector "svg" None = "svg".
Proof. repeat split. Qed.

(** An element with an [id] is not looked up; without one, the class
    names decide. *)
Example generateSelector_plainDocument :
  generateSelector plainDocument "DIV" "main" (Some "md:flex") = true /\
  generateSelector plainDocument "DIV" "" (Some "lead wide") = true /\
  generateSelector plainDocument "DIV" "" (Some "md:flex") = false /\
  generateSelector plainDocument "DIV" "" (Some "w-1/2") = false /\
  generateSelector plainDocument "P" "" (Some "2xl") = false.
Proof. repeat split. Qed.

(** [forEach] on a concatenation: the second part runs if the first
    returns. *)
Lemma forEach_app {S A : Type} (callback : S -> A -> Completion S)
    (first second : list A) :
  forall st : S,
    forEach callback (first ++ second) st =
      andThen (forEach callback first st) (forEach callback second).
Proof.
  induction first as [| x rest IH]; intros st; [reflexivity |].
  cbn [app forEach]. destruct (callback st x) as [st' | st'];
    cbn [andThen]; [apply IH | reflexivity].
Qed.

End DOMFacts.



(** ** Facts on the binary64 built-ins *)

Module JSFloatFacts.

Import JSString JSFloat.
Local Open Scope string_scope.
Local Set Warnings "-inexact-float".

Example parseFloat_normal : parseFloat "normal" = nan.
Proof. reflexivity. Qed.

Example parseFloat_16px : parseFloat "16px" = 16%float.
Proof. reflexivity. Qed.

Example parseFloat_19_2px : parseFloat "19.2px" = 19.2%float.
Proof. reflexivity. Qed.

Example parseFloat_tenth : parseFloat "0.1" = 0.1%float.
Proof. reflexivity. Qed.

Example parseFloat_exp : parseFloat "  -3.25e2x" = (-325)%float.
Proof. reflexivity. Qed.

Example parseFloat_frac : parseFloat ".5e-1" = 0.05%float.
Proof. reflexivity. Qed.

Example parseFloat_negative : parseFloat "-0.5" = (-0.5)%float.
Proof. reflexivity. Qed.

Example parseFloat_infinity : parseFloat "-Infinity" = neg_infinity.
Proof. reflexivity. Qed.

Example parseFloat_dot : parseFloat "." = nan.
Proof. reflexivity. Qed.

Example parseFloat_big : parseFloat "1e400" = infinity.
Proof. reflexivity. Qed.

Example parseFloat_small : parseFloat "4.9e-324" = 0x1p-1074%float.
Proof. reflexivity. Qed.

(** Rounding: a tie goes to the even neighbour, the smallest subnormal
    number and the overflow to infinity are reached. *)
Example parseFloat_tie :
  parseFloat "9007199254740993" = 9007199254740992%float /\
  parseFloat "9007199254740995" = 9007199254740996%float /\
  parseFloat "1.00000000000000011102230246251565404236316680908203125"
    = 1%float.
Proof. repeat split. Qed.

Example parseFloat_limits :
  parseFloat "5e-324" = 0x1p-1074%float /\
  parseFloat "2.4703282292062327e-324" = 0%float /\
  parseFloat "1.7976931348623159e308" = infinity /\
  parseFloat "-0" = (-0)%float.
Proof. repeat split. Qed.

Example parseFloat_pi :
  parseFloat "3.141592653589793238462643383279" = 3.141592653589793%float.
Proof. reflexivity. Qed.

(** [Math.round]: halves go up, also below zero; the largest number
    below one half goes to 0; a negative number above -0.5 goes to -0. *)
Example Math_round64_halves :
  map Math_round [0.5; 1.5; 2.5; -0.5; -1.5; -2.5]%float =
    [1; 2; 3; -0; -1; -2]%float.
Proof. reflexivity. Qed.

Example Math_round64_near :
  map Math_round
      [0.49999999999999994; 31.499999999999996; 31.5; -2.6; -0.2; 0.3;
       254.5]%float =
    [0; 31; 32; -3; -0; 0; 255]%float.
Proof. reflexivity. Qed.

Example Math_round64_fixed :
  map Math_round
      [0; -0; 255; infinity; neg_infinity; 4503599627370497;
       4503599627370495.5; -4503599627370495.5; 1e300]%float =
    [0; -0; 255; infinity; neg_infinity; 4503599627370497;
     4503599627370496; -4503599627370495; 1e300]%float /\
  is_nan (Math_round nan) = true.
Proof. split; reflexivity. Qed.

(** A finite number times zero is a zero. *)
Lemma mul_zero_r (x : float) :
  is_finite x = true -> (x * 0 = 0 \/ x * 0 = -0)%float.
Proof.
  intros H.
  assert (E : exists s : bool, Prim2SF (x * 0) = S754_zero s).
  { rewrite mul_spec. unfold is_finite, is_nan, is_infinity in H.
    rewrite !eqb_spec, abs_spec in H.
    change (Prim2SF 0%float) with (S754_zero false).
    destruct (Prim2SF x) as [s | s | | s m e]; cbn in H |- *;
      try discriminate H; try (destruct s; discriminate H);
      eexists; reflexivity. }
  destruct E as [s E]. apply (f_equal SF2Prim) in E.
  rewrite SF2Prim_Prim2SF in E. rewrite E.
  destruct s; [right | left]; reflexivity.
Qed.

End JSFloatFacts.


(** ** The colour formulas on binary64 numbers *)

Module Contrast64Facts.

Import JSFloat JSFloatFacts Contrast64.
Local Open Scope float_scope.
Local Set Warnings "-inexact-float".

(** An integer channel of an opaque foreground, over a zero. *)
Lemma blend_channel_opaque64 (n : nat) (z : float) :
  (n <= 255)%nat -> z = 0 \/ z = -0 ->
  Math_round (integer n * 1 + z) = integer n.
Proof.
  intros Hn [-> | ->];
    do 256 (destruct n as [| n]; [vm_compute; reflexivity |]); lia.
Qed.

(** C8. A fully opaque colour with integer channels in 0..255 blended over
    any background whose channels are numbers is the colour itself.  In
    general every channel of the blend is [Math.round] of
    [fg * a + bg * (1 - a)] as binary64 arithmetic computes it, and the
    alpha of the result is 1.  The rounding of the products and of the sum
    shows in the result: [rgba(0,0,0,0.3)] over [rgb(45,45,45)] has the
    sum 31.499999999999996 and the channel 31, where the exact sum is
    31.5. *)
Theorem blendColors_over (fg bg : Color) :
  (a fg = 1 -> wellFormed fg -> finite bg -> blendColors fg bg = fg) /\
  a (blendColors fg bg) = 1 /\
  r (blendColors fg bg) = Math_round (r fg * a fg + r bg * (1 - a fg)) /\
  g (blendColors fg bg) = Math_round (g fg * a fg + g bg * (1 - a fg)) /\
  b (blendColors fg bg) = Math_round (b fg * a fg + b bg * (1 - a fg)) /\
  0 * 0.3 + 45 * (1 - 0.3) = 31.499999999999996 /\
  blendColors shade grey45 = mkColor 31 31 31 1.
Proof.
  split; [| repeat split].
  intros Ha [[nr [Hr Er]] [[ng [Hg Eg]] [nb [Hb Eb]]]] [Fr [Fg Fb]].
  destruct fg as [fr fg' fb fa]. cbn [r g b a] in *. subst fa fr fg' fb.
  unfold blendColors; cbn [r g b a].
  replace (1 - 1) with 0 by reflexivity.
  f_equal; apply blend_channel_opaque64; try assumption;
    apply mul_zero_r; assumption.
Qed.

Lemma blendColors_over_witness :
  a white = 1 /\ wellFormed white /\ finite black /\
  blendColors white black = white.
Proof.
  assert (W : wellFormed white).
  { repeat split; exists 255%nat; split; try lia; reflexivity. }
  assert (F : finite black) by (repeat split).
  split; [reflexivity |]. split; [exact W |]. split; [exact F |].
  exact (proj1 (blendColors_over white black) eq_refl W F).
Defined.

Section Pow.

Variable Math_pow : float -> float -> float.
Hypothesis pow_one : Math_pow 1 2.4 = 1.

Lemma luminance64_black : getRelativeLuminance Math_pow black = 0.
Proof. reflexivity. Qed.

Lemma luminance64_white : getRelativeLuminance Math_pow white = 1.
Proof.
  unfold getRelativeLuminance, linear, white; cbn [r g b].
  change (255 / 255 <=? 0.03928) with false. cbv iota.
  change ((255 / 255 + 0.055) / 1.055) with 1.
  rewrite pow_one. reflexivity.
Qed.

(** With a [Math.pow] that is exact at base 1, the ratio of black and
    white is the binary64 number 21, in both orders. *)
Lemma contrast64_black_white :
  calculateContrastRatio Math_pow black white = 21 /\
  calculateContrastRatio Math_pow white black = 21.
Proof.
  unfold calculateContrastRatio.
  rewrite luminance64_black, luminance64_white. split; reflexivity.
Qed.

End Pow.

End Contrast64Facts.


(** ** The contrast engine: properties *)

Module ContrastFacts.

Import JSReal JSString JSRealFacts DOM Contrast Contrast64Facts.
Local Open Scope R_scope.
Local Open Scope string_scope.
Local Set Warnings "-inexact-float".

(** *** Colours *)

Lemma channel_IZR (n : Z) : (0 <= n <= 255)%Z -> channel (IZR n).
Proof. intros H. exists n. split; [reflexivity | exact H]. Qed.

Lemma channel_range (x : R) : channel x -> 0 <= x <= 255.
Proof.
  intros [n [-> [Hlo Hhi]]].
  split; [apply (IZR_le 0) | apply (IZR_le n 255)]; assumption.
Qed.

Lemma channel_round (x : R) : channel x -> Math_round x = x.
Proof. intros [n [-> _]]. apply Math_round_IZR. Qed.

Lemma wellFormed_white : wellFormed white.
Proof. repeat split; apply (channel_IZR 255); lia. Qed.

Lemma wellFormed_black : wellFormed black.
Proof. repeat split; apply (channel_IZR 0); lia. Qed.

(** *** blendColors *)

Lemma blend_channel_opaque (x y : R) :
  channel x -> Math_round (x * 1 + y * (1 - 1)) = x.
Proof.
  intros H. replace (x * 1 + y * (1 - 1)) with x by ring.
  apply channel_round, H.
Qed.

(** *** Relative luminance and contrast ratio *)

Lemma linear_spec (c : R) : linear c = srgbToLinear c.
Proof.
  unfold linear, srgbToLinear, leb, Math_pow.
  destruct (Rle_dec c 0.03928); reflexivity.
Qed.

Lemma getRelativeLuminance_spec (c : Color) :
  getRelativeLuminance c = relativeLuminance c.
Proof.
  unfold getRelativeLuminance, relativeLuminance.
  rewrite !linear_spec. reflexivity.
Qed.

Lemma linear_nonneg (c : R) : 0 <= c -> 0 <= linear c.
Proof.
  intros Hc. unfold linear, leb, Math_pow.
  destruct (Rle_dec c 0.03928).
  - lra.
  - left. apply exp_pos.
Qed.

Lemma linear_0 : linear (0 / 255) = 0.
Proof.
  unfold linear, leb. destruct (Rle_dec (0 / 255) 0.03928); lra.
Qed.

Lemma linear_1 : linear (255 / 255) = 1.
Proof.
  unfold linear, leb, Math_pow.
  destruct (Rle_dec (255 / 255) 0.03928); [lra |].
  replace ((255 / 255 + 0.055) / 1.055) with 1 by lra.
  unfold Rpower. rewrite ln_1, Rmult_0_r. apply exp_0.
Qed.

Lemma luminance_nonneg (c : Color) :
  wellFormed c -> 0 <= getRelativeLuminance c.
Proof.
  intros [Hr [Hg Hb]].
  apply channel_range in Hr, Hg, Hb.
  unfold getRelativeLuminance.
  assert (H1 : 0 <= linear (r c / 255)) by (apply linear_nonneg; lra).
  assert (H2 : 0 <= linear (g c / 255)) by (apply linear_nonneg; lra).
  assert (H3 : 0 <= linear (b c / 255)) by (apply linear_nonneg; lra).
  lra.
Qed.

Lemma luminance_black : getRelativeLuminance black = 0.
Proof. unfold getRelativeLuminance, black; cbn. rewrite linear_0. lra. Qed.

Lemma luminance_white : getRelativeLuminance white = 1.
Proof. unfold getRelativeLuminance, white; cbn. rewrite linear_1. lra. Qed.

Lemma ratio_ge_1 (l1 l2 : R) :
  0 <= l1 -> 0 <= l2 -> 1 <= (Rmax l1 l2 + 0.05) / (Rmin l1 l2 + 0.05).
Proof.
  intros H1 H2.
  assert (Hmin : 0 <= Rmin l1 l2) by (apply Rmin_glb; assumption).
  assert (Hle : Rmin l1 l2 <= Rmax l1 l2).
  { apply Rle_trans with l1; [apply Rmin_l | apply Rmax_l]. }
  apply Rmult_le_reg_r with (Rmin l1 l2 + 0.05); [lra |].
  unfold Rdiv. rewrite Rmult_assoc, Rinv_l by lra. lra.
Qed.

Lemma contrast_black_white : calculateContrastRatio black white = 21.
Proof.
  unfold calculateContrastRatio, Math_max, Math_min.
  rewrite luminance_black, luminance_white.
  rewrite Rmax_right, Rmin_left by lra. lra.
Qed.

(** C3. The contrast ratio of two colours is
    [(max(L1,L2) + 0.05) / (min(L1,L2) + 0.05)], with [L1] and [L2] their
    relative luminances by the sRGB formula; on colours of the data model
    it is at least 1; and the ratio of black and white is 21 (within
    1e-6), which it also is when computed on binary64 numbers with a
    [Math.pow] that is exact at base 1. *)
Theorem calculateContrastRatio_formula (c1 c2 : Color) :
  calculateContrastRatio c1 c2 =
    (Rmax (relativeLuminance c1) (relativeLuminance c2) + 0.05) /
    (Rmin (relativeLuminance c1) (relativeLuminance c2) + 0.05) /\
  (wellFormed c1 -> wellFormed c2 -> 1 <= calculateContrastRatio c1 c2) /\
  Rabs (calculateContrastRatio black white - 21) < 1 / 1000000 /\
  (forall Math_pow64 : float -> float -> float,
     Math_pow64 1%float 2.4%float = 1%float ->
     Contrast64.calculateContrastRatio Math_pow64
       Contrast64.black Contrast64.white = 21%float).
Proof.
  split; [| split; [| split]]; [| | | apply contrast64_black_white].
  - unfold calculateContrastRatio, Math_max, Math_min.
    rewrite !getRelativeLuminance_spec. reflexivity.
  - intros H1 H2. unfold calculateContrastRatio, Math_max, Math_min.
    apply ratio_ge_1; apply luminance_nonneg; assumption.
  - rewrite contrast_black_white.
    replace (21 - 21) with 0 by ring. rewrite Rabs_R0. lra.
Qed.

Lemma calculateContrastRatio_formula_witness :
  wellFormed black /\ wellFormed white /\
  1 <= calculateContrastRatio black white.
Proof.
  split; [exact wellFormed_black |].
  split; [exact wellFormed_white |].
  exact (proj1 (proj2 (calculateContrastRatio_formula black white))
           wellFormed_black wellFormed_white).
Defined.

Lemma contrast_self (c : Color) :
  wellFormed c -> calculateContrastRatio c c = 1.
Proof.
  intros H. apply luminance_nonneg in H.
  unfold calculateContrastRatio, Math_max, Math_min.
  rewrite Rmax_left, Rmin_left by lra.
  unfold Rdiv. apply Rinv_r. lra.
Qed.

(** C9. The contrast ratio is symmetric in its two colours, and the ratio
    of a colour of the data model with itself is exactly 1. *)
Theorem calculateContrastRatio_symmetric_reflexive (c1 c2 : Color) :
  calculateContrastRatio c1 c2 = calculateContrastRatio c2 c1 /\
  (wellFormed c1 -> calculateContrastRatio c1 c1 = 1).
Proof.
  split.
  - unfold calculateContrastRatio, Math_max, Math_min.
    rewrite (Rmax_comm (getRelativeLuminance c1)).
    rewrite (Rmin_comm (getRelativeLuminance c1)). reflexivity.
  - apply contrast_self.
Qed.

Lemma calculateContrastRatio_symmetric_reflexive_witness :
  wellFormed white /\ calculateContrastRatio white white = 1.
Proof.
  split; [exact wellFormed_white |].
  exact (proj2 (calculateContrastRatio_symmetric_reflexive white black)
           wellFormed_white).
Defined.

(** *** The background resolver *)

(** Induction along [parentElement]. *)
Fixpoint Element_parent_ind (P : Element -> Prop)
    (Hstep : forall e : Element,
        (forall parent, parentElement e = Some parent -> P parent) -> P e)
    (e : Element) {struct e} : P e.
Proof.
  apply Hstep. destruct e as [? ? ? ? ? ? ? ? ? ? ? [parent |]]; cbn.
  - intros parent' H. injection H as <-.
    apply (Element_parent_ind P Hstep parent).
  - intros parent' H. discriminate H.
Qed.

Lemma backgroundFrom_unfold (e : Element) :
  backgroundFrom e =
    if isBody e then white
    else
      let above := getEffectiveBackgroundColor (parentElement e) in
      match backgroundColor e with
      | Some bgColor =>
          if gtb (a bgColor) 0 then
            if eqb (a bgColor) 1 then bgColor else blendColors bgColor above
          else above
      | None => above
      end.
Proof. destruct e as [? ? ? ? ? ? ? ? ? ? ? [parent |]]; reflexivity. Qed.

Lemma backgroundFrom_transparent (e : Element) :
  isBody e = false -> paints e = false ->
  backgroundFrom e = getEffectiveBackgroundColor (parentElement e).
Proof.
  intros Hb Hp. rewrite backgroundFrom_unfold, Hb. cbn zeta.
  unfold paints in Hp. destruct (backgroundColor e) as [c |]; [| reflexivity].
  rewrite Hp. reflexivity.
Qed.

Lemma backgroundFrom_opaque (e : Element) (c : Color) :
  isBody e = false -> backgroundColor e = Some c -> a c = 1 ->
  backgroundFrom e = c.
Proof.
  intros Hb Hc Ha. rewrite backgroundFrom_unfold, Hb, Hc. cbn zeta.
  assert (Hgt : gtb (a c) 0 = true) by (apply gtb_true; lra).
  assert (Heq : eqb (a c) 1 = true) by (apply eqb_true; exact Ha).
  rewrite Hgt, Heq. reflexivity.
Qed.

(** A translucent background is blended over the effective background
    of the parent. *)
Lemma backgroundFrom_translucent (e : Element) (c : Color) :
  isBody e = false -> backgroundColor e = Some c -> 0 < a c -> a c <> 1 ->
  backgroundFrom e =
    blendColors c (getEffectiveBackgroundColor (parentElement e)).
Proof.
  intros Hb Hc Hpos Hne. rewrite backgroundFrom_unfold, Hb, Hc. cbn zeta.
  assert (Hgt : gtb (a c) 0 = true) by (apply gtb_true; exact Hpos).
  assert (Heq : eqb (a c) 1 = false) by (apply eqb_false; exact Hne).
  rewrite Hgt, Heq. reflexivity.
Qed.

Lemma backgroundFrom_alpha (e : Element) : a (backgroundFrom e) = 1.
Proof.
  induction e as [e IH] using Element_parent_ind.
  rewrite backgroundFrom_unfold.
  assert (Habove : a (getEffectiveBackgroundColor (parentElement e)) = 1).
  { destruct (parentElement e) as [parent |]; cbn; [apply IH |]; reflexivity. }
  destruct (isBody e); [reflexivity |]. cbn zeta.
  destruct (backgroundColor e) as [c |]; [| exact Habove].
  destruct (gtb (a c) 0); [| exact Habove].
  destruct (eqb (a c) 1) eqn:Heq; [| reflexivity].
  apply eqb_true, Heq.
Qed.

(** The walk below [document.body]: when every element passed is not the
    body and does not paint, the result is that of the element reached. *)
Lemma backgroundFrom_pathUp (e t : Element) (below : list Element) :
  pathUp e below t ->
  (forall m, In m below -> isBody m = false /\ paints m = false) ->
  backgroundFrom e = backgroundFrom t.
Proof.
  induction 1 as [e | e parent t below Hparent Hpath IH]; intros Hbelow.
  - reflexivity.
  - destruct (Hbelow e (or_introl eq_refl)) as [Hb Hp].
    rewrite (backgroundFrom_transparent e Hb Hp), Hparent. cbn.
    apply IH. intros m Hm. apply Hbelow. right. exact Hm.
Qed.

Lemma backgroundFrom_unpainted (e t : Element) (below : list Element) :
  pathUp e below t ->
  (forall m, In m below -> paints m = false) ->
  isBody t = true \/ (parentElement t = None /\ paints t = false) ->
  backgroundFrom e = white.
Proof.
  intros Hpath. induction Hpath as [e | e parent t below Hparent _ IH];
    intros Hbelow Hend.
  - destruct (isBody e) eqn:Hb;
      [rewrite backgroundFrom_unfold, Hb; reflexivity |].
    destruct Hend as [H | [Hroot Hp]]; [discriminate H |].
    rewrite (backgroundFrom_transparent e Hb Hp), Hroot. reflexivity.
  - destruct (isBody e) eqn:Hb;
      [rewrite backgroundFrom_unfold, Hb; reflexivity |].
    rewrite (backgroundFrom_transparent e Hb (Hbelow e (or_introl eq_refl))).
    rewrite Hparent. cbn [getEffectiveBackgroundColor].
    apply IH; [| exact Hend].
    intros m Hm. apply Hbelow. right. exact Hm.
Qed.

Lemma pathUp_root (e t : Element) (below : list Element) :
  parentElement e = None -> pathUp e below t -> t = e /\ below = [].
Proof.
  intros Hroot Hpath. destruct Hpath as [e | e parent t below Hparent _].
  - split; reflexivity.
  - rewrite Hroot in Hparent. discriminate Hparent.
Qed.

Lemma translucentSpan_background :
  getEffectiveBackgroundColor (Some translucentSpan) = mkColor 100 100 100 1.
Proof.
  cbn [getEffectiveBackgroundColor].
  rewrite (backgroundFrom_translucent translucentSpan halfBlack)
    by (try reflexivity; cbn; lra).
  cbn [parentElement translucentSpan box getEffectiveBackgroundColor].
  rewrite (backgroundFrom_opaque opaqueDiv grey200) by reflexivity.
  unfold blendColors; cbn.
  assert (E : Math_round (0 * / 2 + 200 * (1 - / 2)) = 100)
    by (apply (Math_round_unique _ 100); lra).
  rewrite E. reflexivity.
Qed.

(** C1, as stated, fails.  A span with the background [rgba(0,0,0,0.5)]
    in a div with the background [rgb(200,200,200)]: the div is the
    nearest element with alpha 1, and the result is the blend
    [rgb(100,100,100)] of the two colours, not the div's colour. *)
Lemma nearestOpaqueReturned_fails :
  pathUp translucentSpan [translucentSpan] opaqueDiv /\
  backgroundColor translucentSpan = Some (mkColor 0 0 0 (/ 2)) /\
  backgroundColor opaqueDiv = Some (mkColor 200 200 200 1) /\
  getEffectiveBackgroundColor (Some translucentSpan) = mkColor 100 100 100 1 /\
  ~ nearestOpaqueReturned.
Proof.
  assert (Hpath : pathUp translucentSpan [translucentSpan] opaqueDiv).
  { apply pathUp_step with opaqueDiv; [reflexivity | apply pathUp_here]. }
  split; [exact Hpath |]. split; [reflexivity |]. split; [reflexivity |].
  split; [exact translucentSpan_background |].
  intros H.
  specialize (H translucentSpan opaqueDiv [translucentSpan] grey200 Hpath
                eq_refl eq_refl).
  rewrite translucentSpan_background in H.
  assert (Hr : 100 = 200).
  { apply (f_equal r) in H; [exact H |].
    intros m c' [<- | []] Hbg. injection Hbg as <-. cbn. lra. }
  lra.
Qed.

(** The walk stops at [document.body] without reading its background: a
    paragraph in a body with an opaque black background resolves to
    white. *)
Lemma body_background_not_read :
  pathUp paragraph [paragraph] blackBody /\
  backgroundColor blackBody = Some black /\ a black = 1 /\
  getEffectiveBackgroundColor (Some paragraph) = white.
Proof.
  repeat split.
  apply pathUp_step with blackBody; [reflexivity | apply pathUp_here].
Qed.

(** C1, amended. When the walk from an element (itself included) reaches,
    below [document.body], an element whose parsed background has alpha 1,
    and every element passed before it has a null or fully transparent
    background, the result is exactly that element's parsed colour; nothing
    is asked of the elements above it, which are not read. *)
Theorem getEffectiveBackgroundColor_nearest_opaque
    (e t : Element) (below : list Element) (c : Color) :
  pathUp e below t ->
  (forall m, In m below -> isBody m = false /\ paints m = false) ->
  isBody t = false ->
  backgroundColor t = Some c -> a c = 1 ->
  getEffectiveBackgroundColor (Some e) = c.
Proof.
  intros Hpath Hbelow Hbody Hbg Ha. cbn.
  rewrite (backgroundFrom_pathUp e t below Hpath Hbelow).
  apply backgroundFrom_opaque; assumption.
Qed.

Lemma getEffectiveBackgroundColor_nearest_opaque_witness :
  getEffectiveBackgroundColor (Some plainSpan) = grey200.
Proof.
  apply (getEffectiveBackgroundColor_nearest_opaque
           plainSpan opaqueDiv [plainSpan] grey200).
  - apply pathUp_step with opaqueDiv; [reflexivity | apply pathUp_here].
  - intros m [<- | []]. split; reflexivity.
  - reflexivity.
  - reflexivity.
  - reflexivity.
Defined.

(** C4. When the walk from the element (itself included) reaches
    [document.body], or an element without a parent whose parsed
    background is null or fully transparent, and every element passed
    before has a null or fully transparent parsed background, the result
    is opaque white, whatever the body and the elements above it paint;
    so it is for a null element; and the result of the resolver always
    has alpha 1. *)
Theorem getEffectiveBackgroundColor_default (e : Element) :
  (forall (below : list Element) (t : Element),
     pathUp e below t ->
     (forall m, In m below -> paints m = false) ->
     isBody t = true \/ (parentElement t = None /\ paints t = false) ->
     getEffectiveBackgroundColor (Some e) = mkColor 255 255 255 1) /\
  getEffectiveBackgroundColor None = mkColor 255 255 255 1 /\
  (forall element : option Element,
     a (getEffectiveBackgroundColor element) = 1).
Proof.
  split; [| split].
  - intros below t Hpath Hbelow Hend. cbn.
    exact (backgroundFrom_unpainted e t below Hpath Hbelow Hend).
  - reflexivity.
  - intros [current |]; cbn; [apply backgroundFrom_alpha | reflexivity].
Qed.

(** A paragraph in a body that paints black, in the root element: the
    walk ends at the body and the result is white; and the root element
    alone, which paints nothing. *)
Lemma getEffectiveBackgroundColor_default_witness :
  paints blackBody = true /\
  getEffectiveBackgroundColor (Some paragraph) = mkColor 255 255 255 1 /\
  getEffectiveBackgroundColor (Some htmlRoot) = mkColor 255 255 255 1.
Proof.
  split; [cbn; apply gtb_true; lra |]. split.
  - apply (proj1 (getEffectiveBackgroundColor_default paragraph)
             [paragraph] blackBody).
    + apply pathUp_step with blackBody; [reflexivity | apply pathUp_here].
    + intros m [<- | []]. reflexivity.
    + left. reflexivity.
  - apply (proj1 (getEffectiveBackgroundColor_default htmlRoot)
             [] htmlRoot).
    + apply pathUp_here.
    + intros m [].
    + right. split; reflexivity.
Defined.

(** *** Classification *)

Lemma includes_roles (value : string) :
  includes ["button"; "tab"; "menuitem"] value = true <->
  value = "button" \/ value = "tab" \/ value = "menuitem".
Proof.
  unfold includes; cbn. rewrite !orb_true_iff, !String.eqb_eq.
  intuition discriminate.
Qed.

Lemma isNonText_buttonLike (element : Element) :
  (String.eqb (tagName element) "BUTTON" ||
   match role element with
   | Some value => includes ["button"; "tab"; "menuitem"] value
   | None => false
   end)%bool = true <-> buttonLike element.
Proof.
  unfold buttonLike. rewrite orb_true_iff, String.eqb_eq.
  split; (intros [H | H]; [left; exact H | right]).
  - destruct (role element) as [value |]; [| discriminate H].
    exists value. split; [reflexivity | apply includes_roles, H].
  - destruct H as [value [-> H]]. apply includes_roles, H.
Qed.

Lemma parseIntGe_spec (s : string) (bound : Z) :
  parseIntGe s bound = true <->
  exists n, parseInt s = Some n /\ (bound <= n)%Z.
Proof.
  unfold parseIntGe. destruct (parseInt s) as [n |].
  - rewrite Z.leb_le. split.
    + intros H. exists n. split; [reflexivity | exact H].
    + intros [m [Hm H]]. injection Hm as ->. exact H.
  - split; [discriminate | intros [m [Hm _]]; discriminate Hm].
Qed.

Lemma isLargeText_largeText (pt : R) (fontWeight : string) :
  (geb pt config.large ||
   (geb pt config.largeWeightBold &&
    (String.eqb fontWeight "bold" || parseIntGe fontWeight 700)))%bool = true
  <-> largeText pt fontWeight.
Proof.
  unfold largeText, boldWeight, config.large, config.largeWeightBold.
  rewrite orb_true_iff, andb_true_iff, orb_true_iff, !geb_true,
    String.eqb_eq, parseIntGe_spec.
  reflexivity.
Qed.

Lemma requirements_nonText
    (pt : R) (fontWeight : string) (element : Element) :
  buttonLike element ->
  getContrastRequirements pt fontWeight element =
    mkRequirements "non-text" 3.0 4.5.
Proof.
  intros Hb. apply isNonText_buttonLike in Hb.
  unfold getContrastRequirements. rewrite Hb. reflexivity.
Qed.

Lemma requirements_largeText
    (pt : R) (fontWeight : string) (element : Element) :
  ~ buttonLike element -> largeText pt fontWeight ->
  getContrastRequirements pt fontWeight element =
    mkRequirements "large-text" 3.0 4.5.
Proof.
  intros Hb Hl. apply isLargeText_largeText in Hl.
  rewrite <- isNonText_buttonLike in Hb. apply not_true_is_false in Hb.
  unfold getContrastRequirements. rewrite Hb, Hl. reflexivity.
Qed.

Lemma requirements_normalText
    (pt : R) (fontWeight : string) (element : Element) :
  ~ buttonLike element -> ~ largeText pt fontWeight ->
  getContrastRequirements pt fontWeight element =
    mkRequirements "normal-text" 4.5 7.0.
Proof.
  intros Hb Hl.
  rewrite <- isLargeText_largeText in Hl. apply not_true_is_false in Hl.
  rewrite <- isNonText_buttonLike in Hb. apply not_true_is_false in Hb.
  unfold getContrastRequirements. rewrite Hb, Hl. reflexivity.
Qed.

Lemma buttonLike_dec (element : Element) :
  buttonLike element \/ ~ buttonLike element.
Proof.
  rewrite <- isNonText_buttonLike.
  destruct (_ || _)%bool; [left; reflexivity | right; discriminate].
Qed.

Lemma largeText_dec (pt : R) (fontWeight : string) :
  largeText pt fontWeight \/ ~ largeText pt fontWeight.
Proof.
  rewrite <- isLargeText_largeText.
  destruct (_ || _)%bool; [left; reflexivity | right; discriminate].
Qed.

(** C2. The size in points is the size in px times 0.75.  An element with
    a button-like role is non-text (AA 3.0, AAA 4.5) whatever its size;
    any other element is large text (AA 3.0, AAA 4.5) if and only if its
    size is at least 18pt, or at least 14pt with a weight that is bold or
    at least 700, and normal text (AA 4.5, AAA 7.0) otherwise. *)
Theorem getContrastRequirements_classes
    (pt : R) (fontWeight : string) (element : Element) :
  getFontSizeInPt element = fontSize element * 0.75 /\
  (buttonLike element ->
   getContrastRequirements pt fontWeight element =
     mkRequirements "non-text" 3.0 4.5) /\
  (~ buttonLike element -> largeText pt fontWeight ->
   getContrastRequirements pt fontWeight element =
     mkRequirements "large-text" 3.0 4.5) /\
  (~ buttonLike element -> ~ largeText pt fontWeight ->
   getContrastRequirements pt fontWeight element =
     mkRequirements "normal-text" 4.5 7.0) /\
  (type (getContrastRequirements pt fontWeight element) = "large-text" <->
   ~ buttonLike element /\ largeText pt fontWeight).
Proof.
  split; [reflexivity |].
  split; [apply requirements_nonText |].
  split; [apply requirements_largeText |].
  split; [apply requirements_normalText |].
  split.
  - intros Htype.
    destruct (buttonLike_dec element) as [Hb | Hb].
    { rewrite (requirements_nonText pt fontWeight element Hb) in Htype.
      discriminate Htype. }
    destruct (largeText_dec pt fontWeight) as [Hl | Hl].
    { split; assumption. }
    rewrite (requirements_normalText pt fontWeight element Hb Hl) in Htype.
    discriminate Htype.
  - intros [Hb Hl].
    rewrite (requirements_largeText pt fontWeight element Hb Hl).
    reflexivity.
Qed.

Lemma textOf_not_buttonLike (px : R) (weight : string) :
  ~ buttonLike (textOf px weight).
Proof. intros [H | [value [H _]]]; discriminate H. Qed.

Lemma classify_16px_normal :
  classify (textOf 16 "400") = mkRequirements "normal-text" 4.5 7.0.
Proof.
  apply requirements_normalText; [apply textOf_not_buttonLike |].
  intros [H | [_ [H | [n [Hn H]]]]].
  - unfold getFontSizeInPt in H. cbn [fontSize textOf] in H. lra.
  - discriminate H.
  - injection Hn as <-. lia.
Qed.

(** 18px is 13.5pt: below both bounds, so normal text. *)
Lemma classify_18px_normal :
  classify (textOf 18 "400") = mkRequirements "normal-text" 4.5 7.0.
Proof.
  apply requirements_normalText; [apply textOf_not_buttonLike |].
  intros [H | [H _]]; unfold getFontSizeInPt in H;
    cbn [fontSize textOf] in H; lra.
Qed.

Lemma getContrastRequirements_classes_witness :
  largeText (24 * 0.75) "400" /\
  classify (textOf 24 "400") = mkRequirements "large-text" 3.0 4.5.
Proof.
  assert (Hl : largeText (24 * 0.75) "400") by (left; lra).
  split; [exact Hl |].
  apply (getContrastRequirements_classes (24 * 0.75) "400" (textOf 24 "400")).
  - apply textOf_not_buttonLike.
  - exact Hl.
Defined.

(** *** The colour adjustment loop *)

Lemma while_stops {S : Type} (cond : S -> bool) (body : S -> S) (n : nat) :
  forall s : S,
    (forall k, (k < n)%nat -> cond (Nat.iter k body s) = true) ->
    cond (Nat.iter n body s) = false ->
    forall fuel, (n < fuel)%nat ->
      while fuel cond body s = Some (Nat.iter n body s).
Proof.
  induction n as [| n IH]; intros s Hbefore Hstop fuel Hfuel.
  - destruct fuel as [| fuel]; [lia |]. cbn in *. rewrite Hstop. reflexivity.
  - destruct fuel as [| fuel]; [lia |]. cbn [while].
    pose proof (Hbefore O ltac:(lia)) as H0. cbn in H0. rewrite H0.
    rewrite Nat.iter_succ_r. apply IH.
    + intros k Hk. rewrite <- Nat.iter_succ_r. apply Hbefore. lia.
    + rewrite <- Nat.iter_succ_r. exact Hstop.
    + lia.
Qed.

Lemma first_false_before (P : nat -> bool) (N : nat) :
  (forall k, (k < N)%nat -> P k = true) \/
  exists n, (n < N)%nat /\ P n = false /\
            forall k, (k < n)%nat -> P k = true.
Proof.
  induction N as [| N [IH | [n [Hn [HPn Hk]]]]].
  - left. intros k Hk. lia.
  - destruct (P N) eqn:E.
    + left. intros k Hk.
      destruct (Nat.eq_dec k N) as [-> | Hne]; [exact E | apply IH; lia].
    + right. exists N. repeat split; [lia | exact E | exact IH].
  - right. exists n. repeat split; [lia | exact HPn | exact Hk].
Qed.

Lemma first_false (P : nat -> bool) (N : nat) :
  P N = false ->
  exists n, (n <= N)%nat /\ P n = false /\
            forall k, (k < n)%nat -> P k = true.
Proof.
  intros HN. destruct (first_false_before P N) as [H | [n [Hn [HPn Hk]]]].
  - exists N. repeat split; [lia | exact HN | exact H].
  - exists n. repeat split; [lia | exact HPn | exact Hk].
Qed.

Section Adjust.

Variables (color bgColor : Color) (targetRatio : R) (direction : string).

Let st (k : nat) : AdjustState :=
  Nat.iter k (adjustBody bgColor direction) (adjustInit color bgColor).

Lemma adjust_iterations (k : nat) : iterations (st k) = k.
Proof.
  unfold st. induction k as [| k IH]; [reflexivity |].
  rewrite !Nat.iter_succ. unfold adjustBody at 1.
  cbn [iterations adjustedColor]. rewrite IH. reflexivity.
Qed.

Lemma adjust_color (k : nat) :
  adjustedColor (st k) = Nat.iter k (shiftColor direction) color.
Proof.
  unfold st. induction k as [| k IH]; [reflexivity |].
  rewrite !Nat.iter_succ. unfold adjustBody at 1.
  cbn [iterations adjustedColor]. rewrite IH. reflexivity.
Qed.

Lemma adjust_ratio (k : nat) :
  currentRatio (st k) =
  calculateContrastRatio (Nat.iter k (shiftColor direction) color) bgColor.
Proof.
  destruct k as [| k]; [reflexivity |].
  rewrite <- adjust_color. reflexivity.
Qed.

Lemma adjust_cap : adjustCond targetRatio (st maxIterations) = false.
Proof.
  unfold adjustCond. rewrite adjust_iterations.
  rewrite Nat.ltb_irrefl. apply andb_false_r.
Qed.

(** The loop leaves after a number of iterations that is at most the cap:
    the first one at which its condition fails. *)
Lemma adjust_terminates :
  exists n : nat,
    (n <= maxIterations)%nat /\
    (forall fuel, (n < fuel)%nat ->
       adjustLoop fuel color bgColor targetRatio direction = Some (st n)) /\
    (forall k, (k < n)%nat -> adjustCond targetRatio (st k) = true) /\
    adjustCond targetRatio (st n) = false.
Proof.
  destruct (first_false (fun k => adjustCond targetRatio (st k))
              maxIterations adjust_cap) as [n [Hn [Hstop Hbefore]]].
  exists n. repeat split; try assumption.
  intros fuel Hfuel. unfold adjustLoop.
  apply while_stops; assumption.
Qed.

End Adjust.

Lemma adjustChannel_darken (x : R) :
  0 <= x <= 255 ->
  adjustChannel "darken" x = clamp (x - 10) /\
  0 <= adjustChannel "darken" x <= 255.
Proof.
  intros Hx. unfold adjustChannel, clamp, Math_max; cbn.
  replace (x + -10) with (x - 10) by ring.
  rewrite (Rmin_right 255 (x - 10)) by lra.
  split; [reflexivity |].
  split; [apply Rmax_l | apply Rmax_lub; lra].
Qed.

Lemma adjustChannel_lighten (direction : string) (x : R) :
  direction <> "darken" -> 0 <= x <= 255 ->
  adjustChannel direction x = clamp (x + 10) /\
  0 <= adjustChannel direction x <= 255.
Proof.
  intros Hd Hx. unfold adjustChannel, clamp, Math_min.
  apply String.eqb_neq in Hd. rewrite Hd.
  assert (Hmin : 0 <= Rmin 255 (x + 10) <= 255).
  { split; [apply Rmin_glb; lra | apply Rmin_l]. }
  rewrite (Rmax_right 0 (Rmin 255 (x + 10))) by lra.
  split; [reflexivity | exact Hmin].
Qed.

Lemma adjustChannel_channel (direction : string) (x : R) :
  channel x -> channel (adjustChannel direction x).
Proof.
  intros [n [-> Hn]]. unfold adjustChannel, Math_max, Math_min.
  destruct (String.eqb direction "darken").
  - exists (Z.max 0 (n + -10)). split; [| lia].
    rewrite <- plus_IZR. unfold Rmax.
    destruct (Rle_dec 0 (IZR (n + -10))) as [H | H].
    + apply le_IZR in H. rewrite Z.max_r by lia. reflexivity.
    + rewrite Z.max_l; [reflexivity |].
      destruct (Z.le_ge_cases (n + -10) 0) as [Hle | Hge]; [exact Hle |].
      exfalso. apply H, IZR_le, Hge.
  - exists (Z.min 255 (n + 10)). split; [| lia].
    rewrite <- plus_IZR. unfold Rmin.
    destruct (Rle_dec 255 (IZR (n + 10))) as [H | H].
    + apply le_IZR in H. rewrite Z.min_l by lia. reflexivity.
    + rewrite Z.min_r; [reflexivity |].
      destruct (Z.le_ge_cases (n + 10) 255) as [Hle | Hge]; [exact Hle |].
      exfalso. apply H, IZR_le, Hge.
Qed.

Lemma shiftColor_wellFormed (direction : string) (c : Color) :
  wellFormed c -> wellFormed (shiftColor direction c).
Proof.
  intros [Hr [Hg Hb]]. repeat split; cbn; apply adjustChannel_channel;
    assumption.
Qed.

Lemma shiftColor_iter_wellFormed (direction : string) (c : Color) (k : nat) :
  wellFormed c -> wellFormed (Nat.iter k (shiftColor direction) c).
Proof.
  intros H. induction k as [| k IH];
    [exact H | rewrite Nat.iter_succ; apply shiftColor_wellFormed, IH].
Qed.

Lemma shiftColor_darken_black (k : nat) :
  Nat.iter k (shiftColor "darken") black = black.
Proof.
  induction k as [| k IH]; [reflexivity |]. rewrite Nat.iter_succ, IH.
  unfold shiftColor, adjustChannel, black, Math_max; cbn.
  rewrite Rmax_left by lra. reflexivity.
Qed.

Lemma contrast_black_black : calculateContrastRatio black black = 1.
Proof.
  apply (contrast_self black).
  exact wellFormed_black.
Qed.

Lemma shiftColor_clamps (direction : string) (c : Color) :
  wellFormed c ->
  shiftColor direction c =
    mkColor (clamp (r c + stepOf direction)) (clamp (g c + stepOf direction))
            (clamp (b c + stepOf direction)) (a c).
Proof.
  intros [Hr [Hg Hb]]. apply channel_range in Hr, Hg, Hb.
  unfold shiftColor, stepOf.
  destruct (String.eqb direction "darken") eqn:E.
  - apply String.eqb_eq in E. subst direction.
    rewrite (proj1 (adjustChannel_darken _ Hr)),
      (proj1 (adjustChannel_darken _ Hg)),
      (proj1 (adjustChannel_darken _ Hb)).
    reflexivity.
  - apply String.eqb_neq in E.
    rewrite (proj1 (adjustChannel_lighten _ _ E Hr)),
      (proj1 (adjustChannel_lighten _ _ E Hg)),
      (proj1 (adjustChannel_lighten _ _ E Hb)).
    reflexivity.
Qed.

(** C5. The loop of [adjustColorForContrast] leaves after [n <= 25]
    iterations, whatever the inputs: with any fuel above [n] it returns, and
    the function returns the colour after [n] runs of the body.  The ratio
    held by the loop is the contrast ratio of the current colour against
    the background; it was below the target before each of the [n]
    iterations, and at the end it has reached the target or [n] is the cap
    of 25.  On a colour of the data model one run of the body moves every
    channel by 10 (down for [darken], up otherwise) and clamps it to
    0..255, and the colour stays in the data model.  The returned colour
    need not reach the target: darkening black against black stays at
    ratio 1. *)
Theorem adjustColorForContrast_bounded
    (color bgColor : Color) (targetRatio : R) (direction : string) :
  (exists n : nat,
     (n <= 25)%nat /\
     (forall fuel, (n < fuel)%nat ->
        exists st,
          adjustLoop fuel color bgColor targetRatio direction = Some st /\
          iterations st = n /\
          adjustedColor st = shifted direction n color /\
          currentRatio st =
            calculateContrastRatio (adjustedColor st) bgColor) /\
     adjustColorForContrast color bgColor targetRatio direction =
       shifted direction n color /\
     (forall k, (k < n)%nat ->
        calculateContrastRatio (shifted direction k color) bgColor
          < targetRatio) /\
     (targetRatio <= calculateContrastRatio (shifted direction n color) bgColor
      \/ n = 25%nat)) /\
  (wellFormed color ->
   forall k,
     wellFormed (shifted direction k color) /\
     shifted direction (Datatypes.S k) color =
       mkColor (clamp (r (shifted direction k color) + stepOf direction))
               (clamp (g (shifted direction k color) + stepOf direction))
               (clamp (b (shifted direction k color) + stepOf direction))
               (a (shifted direction k color))) /\
  calculateContrastRatio
    (adjustColorForContrast black black 4.5 "darken") black < 4.5.
Proof.
  split; [| split].
  - destruct (adjust_terminates color bgColor targetRatio direction)
      as [n [Hn [Hloop [Hbefore Hstop]]]].
    exists n. split; [exact Hn |]. split; [| split; [| split]].
    + intros fuel Hfuel. eexists. split; [apply Hloop, Hfuel |].
      split; [apply adjust_iterations |].
      split; [apply adjust_color |].
      rewrite adjust_ratio, adjust_color. reflexivity.
    + unfold adjustColorForContrast.
      rewrite (Hloop (Datatypes.S maxIterations))
        by (unfold maxIterations in *; lia).
      apply adjust_color.
    + intros k Hk. specialize (Hbefore k Hk). unfold adjustCond in Hbefore.
      apply andb_true_iff in Hbefore. destruct Hbefore as [Hlt _].
      rewrite adjust_ratio in Hlt. apply ltb_true, Hlt.
    + unfold adjustCond in Hstop. apply andb_false_iff in Hstop.
      rewrite adjust_ratio, adjust_iterations in Hstop.
      destruct Hstop as [Hge | Hcap].
      * left. apply ltb_false, Hge.
      * right. apply Nat.ltb_ge in Hcap. unfold maxIterations in *. lia.
  - intros Hwf k.
    assert (Hk : wellFormed (shifted direction k color))
      by apply (shiftColor_iter_wellFormed direction color k Hwf).
    split; [exact Hk |].
    unfold shifted at 1. rewrite Nat.iter_succ.
    apply (shiftColor_clamps direction _ Hk).
  - destruct (adjust_terminates black black 4.5 "darken")
      as [n [Hn [Hloop _]]].
    unfold adjustColorForContrast.
    rewrite (Hloop (Datatypes.S maxIterations)) by lia.
    rewrite adjust_color, shiftColor_darken_black, contrast_black_black.
    lra.
Qed.

Lemma adjustColorForContrast_bounded_witness :
  wellFormed white /\
  shifted "lighten" 1 white = mkColor (clamp (255 + 10)) (clamp (255 + 10))
                                       (clamp (255 + 10)) 1.
Proof.
  split; [exact wellFormed_white |].
  exact (proj2 (proj1 (proj2
           (adjustColorForContrast_bounded white black 4.5 "lighten"))
           wellFormed_white O)).
Defined.

(** *** The contrast pass *)

Lemma includes_In (array : list string) (x : string) :
  includes array x = true <-> In x array.
Proof.
  unfold includes. rewrite existsb_exists. split.
  - intros [y [Hy E]]. apply String.eqb_eq in E. subst y. exact Hy.
  - intros H. exists x. split; [exact H | apply String.eqb_refl].
Qed.

Lemma evaluated_filters (element : Element) :
  evaluated element ->
  (isBlank (textContent element) ||
   includes ["SCRIPT"; "STYLE"; "META"; "LINK"; "HEAD"] (tagName element))%bool
    = false /\
  (offsetParentIsNull element &&
   negb (String.eqb (tagName element) "HTML"))%bool = false.
Proof.
  intros [Hblank [Htag Hbox]]. split.
  - rewrite Hblank. cbn [orb].
    destruct (includes _ (tagName element)) eqn:E; [| reflexivity].
    exfalso. apply Htag, includes_In, E.
  - destruct Hbox as [-> | ->]; [reflexivity |].
    rewrite String.eqb_refl. apply andb_false_r.
Qed.

Lemma requirements_aa_lt_aaa
    (pt : R) (fontWeight : string) (element : Element) :
  aa (getContrastRequirements pt fontWeight element)
    < aaa (getContrastRequirements pt fontWeight element).
Proof.
  unfold getContrastRequirements.
  destruct (_ || match role element with Some _ => _ | None => _ end)%bool;
    [| destruct (_ || _ && _)%bool]; cbn;
    unfold config.nonTextAA, config.nonTextAAA, config.largeTextAA,
      config.largeTextAAA, config.normalTextAA, config.normalTextAAA; lra.
Qed.






End ContrastFacts.

(** ** The fingerprint collector and its rules: properties *)

Module TypographyFacts.

Import JSString JSFloat Typography.
Local Open Scope string_scope.
Local Set Warnings "-inexact-float".

(** *** Comparisons with NaN *)

Lemma Prim2SF_nan (x : float) : is_nan x = true -> Prim2SF x = S754_nan.
Proof. intros H. unfold Prim2SF. rewrite H. reflexivity. Qed.


Lemma lt_nan_l (x y : float) : is_nan x = true -> lt x y = false.
Proof.
  intros H. unfold lt. rewrite ltb_spec, (Prim2SF_nan x H). reflexivity.
Qed.


(** *** The rules on one bucket *)

(** Case analysis on the tests of the rules that the goal still holds. *)
Ltac case_rules :=
  repeat match goal with
         | |- context [if ?c then _ else _] => destruct c
         end.

(** Case analysis on a membership in an explicit list. *)
Ltac in_cases :=
  repeat match goal with
         | H : _ \/ _ |- _ => destruct H as [<- | H]
         | H : False |- _ => destruct H
         end.



Lemma emitted_app (config : Config) (st : State) (data : Entry) :
  analyzeEntry config st data =
    mkState (issues st ++ issues (emitted config data))
            (fixableIssues st ++ fixableIssues (emitted config data)).
Proof.
  destruct st as [is_ fs]. unfold emitted, analyzeEntry. cbn zeta.
  case_rules.
  all: unfold report; cbn; rewrite <- ?app_assoc, ?app_nil_r; cbn;
    reflexivity.
Qed.




(** *** The key of a bucket *)





(** *** The map *)

Lemma get_replace (key key' : string) (value : Entry) (fontMap : FontMap) :
  get key' (replace key value fontMap) =
    if String.eqb key' key
    then match get key fontMap with Some _ => Some value | None => None end
    else get key' fontMap.
Proof.
  induction fontMap as [| [k v] rest IH]; cbn.
  - destruct (String.eqb key' key); reflexivity.
  - destruct (String.eqb key k) eqn:E; cbn.
    + apply String.eqb_eq in E. subst k.
      destruct (String.eqb key' key); reflexivity.
    + rewrite IH. destruct (String.eqb key' key) eqn:E'.
      * apply String.eqb_eq in E'. subst key'. rewrite E. reflexivity.
      * reflexivity.
Qed.

Lemma get_app (key key' : string) (value : Entry) (fontMap : FontMap) :
  get key' (fontMap ++ [(key, value)])%list =
    match get key' fontMap with
    | Some data => Some data
    | None => if String.eqb key' key then Some value else None
    end.
Proof.
  induction fontMap as [| [k v] rest IH]; cbn; [reflexivity |].
  destruct (String.eqb key' k); [reflexivity | exact IH].
Qed.

Lemma get_set (key key' : string) (value : Entry) (fontMap : FontMap) :
  get key' (set key value fontMap) =
    if String.eqb key' key then Some value else get key' fontMap.
Proof.
  unfold set, has. destruct (get key fontMap) as [old |] eqn:E.
  - rewrite get_replace, E. reflexivity.
  - rewrite get_app. destruct (String.eqb key' key) eqn:E'.
    + apply String.eqb_eq in E'. subst key'. rewrite E. reflexivity.
    + destruct (get key' fontMap); reflexivity.
Qed.

Lemma get_collectElement (fontMap : FontMap) (element : Element)
    (key' : string) :
  skipped element = false ->
  get key' (collectElement fontMap element) =
    if String.eqb key' (keyOf (computedStyle element))
    then Some (filed fontMap element)
    else get key' fontMap.
Proof.
  intros Hs. unfold collectElement, filed. rewrite Hs. cbn zeta.
  set (key := keyOf (computedStyle element)).
  unfold has. destruct (get key fontMap) as [entry |] eqn:E; cbn [negb].
  - rewrite E, get_replace, E. reflexivity.
  - rewrite get_set, String.eqb_refl, get_replace, !get_set, String.eqb_refl.
    destruct (String.eqb key' key); reflexivity.
Qed.

Lemma collectElement_skipped (fontMap : FontMap) (element : Element) :
  skipped element = true -> collectElement fontMap element = fontMap.
Proof. intros Hs. unfold collectElement. rewrite Hs. reflexivity. Qed.

Lemma bucketsFiled_collectElement (fontMap : FontMap) (element : Element) :
  bucketsFiled fontMap -> bucketsFiled (collectElement fontMap element).
Proof.
  intros Inv. destruct (skipped element) eqn:Hs.
  { rewrite collectElement_skipped by exact Hs. exact Inv. }
  intros key data. rewrite (get_collectElement _ _ _ Hs).
  destruct (String.eqb key (keyOf (computedStyle element))) eqn:E;
    [| apply Inv].
  apply String.eqb_eq in E. subst key. intros H. injection H as <-.
  unfold filed.
  destruct (get (keyOf (computedStyle element)) fontMap) as [entry |] eqn:G;
    cbn.
  - destruct (Inv _ _ G) as [Hc [_ Hk]].
    rewrite length_app, Hc. cbn. split; [lia |]. split; [lia |].
    intros e He. apply in_app_or in He. destruct He as [He | [<- | []]];
      [apply Hk, He | reflexivity].
  - split; [reflexivity |]. split; [lia |].
    intros e [<- | []]. reflexivity.
Qed.

Lemma bucketsFiled_fold (elements : list Element) (fontMap : FontMap) :
  bucketsFiled fontMap ->
  bucketsFiled (fold_left collectElement elements fontMap).
Proof.
  revert fontMap. induction elements as [| e rest IH]; intros fontMap Inv;
    [exact Inv |].
  cbn. apply IH, bucketsFiled_collectElement, Inv.
Qed.

Lemma bucketsFiled_empty : bucketsFiled [].
Proof. intros key data H. discriminate H. Qed.




(** *** The redundancy rule *)

Lemma redundant_reported (config : Config) (data : Entry) :
  reportedRedundant config data <->
  (count data <= redundancyThreshold config)%nat.
Proof.
  unfold reportedRedundant, emitted, analyzeEntry. cbn zeta.
  rewrite <- Nat.leb_le.
  destruct (Nat.leb (count data) (redundancyThreshold config)).
  - split; [reflexivity | intros _].
    exists (mkFixableIssue "redundant-style" "info"
              (List.length (elements data)) (elements data)).
    split; [| reflexivity].
    case_rules.
    all: unfold report; cbn; tauto.
  - split; [| discriminate]. intros [i [Hi Ht]]. exfalso. revert Hi.
    case_rules.
    all: unfold report; cbn; intros Hi.
    all: in_cases; discriminate Ht.
Qed.

Lemma redundant_shape (config : Config) (data : Entry) (i : FixableIssue) :
  In i (fixableIssues (emitted config data)) ->
  issueType i = "redundant-style" ->
  fixSeverity i = "info" /\ fixes i = elements data.
Proof.
  unfold emitted, analyzeEntry. cbn zeta.
  case_rules.
  all: unfold report; cbn; intros Hi Ht.
  all: in_cases; try discriminate Ht; split; reflexivity.
Qed.


Lemma collected_bucketsFiled (document : list Element) :
  bucketsFiled (collectTypographyData document []).
Proof. apply bucketsFiled_fold, bucketsFiled_empty. Qed.


(** The sample document: two buckets, in the order of their first
    element; the heading's style is used once (redundant), and
    [sans-serif] alone trips the mixed families rule in both. *)
Example run_sampleDocument :
  map fst (fst (run sampleDocument)) =
    ["Arial, sans-serif|32px|700|38.4px"; "Arial, sans-serif|16px|400|normal"]
  /\ map count (map snd (fst (run sampleDocument))) = [1; 2]%nat
  /\ map (fun i => (issueType i, fixSeverity i, affectedElements i))
         (fixableIssues (snd (run sampleDocument))) =
       [("redundant-style", "info", 1%nat);
        ("mixed-font-families", "warning", 1%nat);
        ("mixed-font-families", "warning", 2%nat)].
Proof. repeat split. Qed.

(** A line height of 1.1 times the size is reported as too small. *)
Example emitted_tight :
  map issueType
    (fixableIssues
       (emitted config
          (mkEntry
             (mkFontMetrics (mkComputedStyle "Georgia" "20px" "400" "22px")
                            paragraph)
             [paragraph; paragraph] 2))) =
    ["line-height-too-small"].
Proof. reflexivity. Qed.

End TypographyFacts.

(** ** The contrast engine: further properties *)

Module ContrastExtraFacts.

Import JSReal JSString JSRealFacts DOM Contrast ContrastFacts ContrastExtra.
Local Open Scope R_scope.
Local Open Scope string_scope.

Example toString16_255 : toString16 255 = "ff".
Proof. reflexivity. Qed.

Example toString16_4096 : toString16 4096 = "1000".
Proof. reflexivity. Qed.

Example toString16_0 : toString16 0 = "0".
Proof. reflexivity. Qed.

(** *** colorToHex *)

Lemma clampRound_range (n : R) : (0 <= clampRound n <= 255)%Z.
Proof.
  unfold clampRound, Math_max, Math_min.
  set (x := Rmax 0 (Rmin 255 n)).
  assert (Hx : 0 <= x <= 255).
  { unfold x. split; [apply Rmax_l |].
    apply Rmax_lub; [lra | apply Rmin_l]. }
  destruct (base_Int_part (x + / 2)) as [Hle Hgt].
  assert (Hlo : (-1 < Int_part (x + / 2))%Z) by (apply lt_IZR; lra).
  assert (Hhi : (Int_part (x + / 2) < 256)%Z) by (apply lt_IZR; lra).
  lia.
Qed.

Lemma clampRound_channel (x : R) (n : Z) :
  x = IZR n -> (0 <= n <= 255)%Z -> clampRound x = n.
Proof.
  intros -> [Hlo Hhi]. unfold clampRound, Math_max, Math_min.
  apply IZR_le in Hlo, Hhi.
  rewrite Rmin_right by lra. rewrite Rmax_right by lra.
  symmetry. apply Int_part_spec. lra.
Qed.

Lemma toHex_padHex (n : R) : toHex n = padHex (clampRound n).
Proof. reflexivity. Qed.

(** Every integer in 0..255 is printed with two digits that read back as
    the integer. *)
Lemma padHex_checked :
  forallb (fun k =>
             let n := Z.of_nat k in
             (Nat.eqb (String.length (padHex n)) 2 &&
              match hexValue (padHex n) with
              | Some v => Z.eqb v n
              | None => false
              end)%bool)
          (seq 0 256) = true.
Proof. vm_compute. reflexivity. Qed.

Lemma padHex_spec (n : Z) :
  (0 <= n <= 255)%Z ->
  String.length (padHex n) = 2%nat /\ hexValue (padHex n) = Some n.
Proof.
  intros Hn. pose proof padHex_checked as H.
  rewrite forallb_forall in H. specialize (H (Z.to_nat n)).
  rewrite Z2Nat.id in H by lia.
  assert (Hin : In (Z.to_nat n) (seq 0 256)) by (apply in_seq; lia).
  apply H in Hin. cbn zeta in Hin. apply andb_true_iff in Hin.
  destruct Hin as [Hlen Hval]. apply Nat.eqb_eq in Hlen.
  split; [exact Hlen |].
  destruct (hexValue (padHex n)) as [v |]; [| discriminate Hval].
  apply Z.eqb_eq in Hval. subst v. reflexivity.
Qed.

Lemma length_two (s : string) :
  String.length s = 2%nat -> exists x y, s = String x (String y "").
Proof.
  destruct s as [| x [| y [| z s]]]; cbn; intros H; try discriminate H.
  exists x, y. reflexivity.
Qed.

(** X1. [colorToHex] always prints ["#"] and six hexadecimal digits,
    two per channel: the digits of the channel clamped to 0..255 and
    rounded.  For a colour of the data model the three pairs read back
    (base 16) as the three channels; the alpha is not printed. *)
Theorem colorToHex_roundtrip (color : Color) :
  String.length (colorToHex color) = 7%nat /\
  String.get 0 (colorToHex color) = Some "#"%char /\
  hexValue (substring 1 2 (colorToHex color)) = Some (clampRound (r color)) /\
  hexValue (substring 3 2 (colorToHex color)) = Some (clampRound (g color)) /\
  hexValue (substring 5 2 (colorToHex color)) = Some (clampRound (b color)) /\
  (wellFormed color ->
   IZR (clampRound (r color)) = r color /\
   IZR (clampRound (g color)) = g color /\
   IZR (clampRound (b color)) = b color).
Proof.
  unfold colorToHex. rewrite !toHex_padHex.
  destruct (padHex_spec _ (clampRound_range (r color))) as [Lr Vr].
  destruct (padHex_spec _ (clampRound_range (g color))) as [Lg Vg].
  destruct (padHex_spec _ (clampRound_range (b color))) as [Lb Vb].
  destruct (length_two _ Lr) as [r1 [r2 Er]].
  destruct (length_two _ Lg) as [g1 [g2 Eg]].
  destruct (length_two _ Lb) as [b1 [b2 Eb]].
  rewrite Er, Eg, Eb in *. cbn.
  do 5 (split; [first [reflexivity | assumption] |]).
  intros [[nr [Hr Hnr]] [[ng [Hg Hng]] [nb [Hb Hnb]]]].
  repeat split.
  - rewrite (clampRound_channel _ nr Hr Hnr). symmetry. exact Hr.
  - rewrite (clampRound_channel _ ng Hg Hng). symmetry. exact Hg.
  - rewrite (clampRound_channel _ nb Hb Hnb). symmetry. exact Hb.
Qed.

Lemma colorToHex_roundtrip_witness :
  wellFormed white /\ IZR (clampRound (r white)) = r white.
Proof.
  split; [exact wellFormed_white |].
  exact (proj1 (proj2 (proj2 (proj2 (proj2 (proj2
           (colorToHex_roundtrip white))))) wellFormed_white)).
Defined.

(** *** The range of the luminance and of the contrast ratio *)

Lemma linear_le_1 (c : R) : 0 <= c <= 1 -> linear c <= 1.
Proof.
  intros Hc. unfold linear, leb, Math_pow.
  destruct (Rle_dec c 0.03928) as [H | H].
  - lra.
  - apply Rle_trans with (Rpower 1 2.4);
      [| right; unfold Rpower; rewrite ln_1, Rmult_0_r; apply exp_0].
    apply Rle_Rpower_l; [lra |]. split.
    + apply Rdiv_lt_0_compat; lra.
    + apply Rmult_le_reg_r with 1.055; [lra |].
      unfold Rdiv. rewrite Rmult_assoc, Rinv_l by lra. lra.
Qed.

Lemma luminance_le_1 (c : Color) :
  wellFormed c -> getRelativeLuminance c <= 1.
Proof.
  intros [Hr [Hg Hb]]. apply channel_range in Hr, Hg, Hb.
  unfold getRelativeLuminance.
  assert (H1 : linear (r c / 255) <= 1) by (apply linear_le_1; lra).
  assert (H2 : linear (g c / 255) <= 1) by (apply linear_le_1; lra).
  assert (H3 : linear (b c / 255) <= 1) by (apply linear_le_1; lra).
  lra.
Qed.

(** X2. On colours of the data model the relative luminance lies in
    0..1 and the contrast ratio in 1..21; 21 is reached by black and
    white. *)
Theorem contrast_range (c1 c2 : Color) :
  wellFormed c1 -> wellFormed c2 ->
  0 <= getRelativeLuminance c1 <= 1 /\
  1 <= calculateContrastRatio c1 c2 <= 21 /\
  calculateContrastRatio black white = 21.
Proof.
  intros H1 H2.
  pose proof (luminance_nonneg c1 H1) as L1.
  pose proof (luminance_nonneg c2 H2) as L2.
  pose proof (luminance_le_1 c1 H1) as U1.
  pose proof (luminance_le_1 c2 H2) as U2.
  split; [lra |]. split; [| exact contrast_black_white].
  unfold calculateContrastRatio, Math_max, Math_min.
  assert (Hmin : 0 <= Rmin (getRelativeLuminance c1) (getRelativeLuminance c2))
    by (apply Rmin_glb; assumption).
  assert (Hmax : Rmax (getRelativeLuminance c1) (getRelativeLuminance c2) <= 1)
    by (apply Rmax_lub; assumption).
  split; [apply ratio_ge_1; assumption |].
  apply Rmult_le_reg_r
    with (Rmin (getRelativeLuminance c1) (getRelativeLuminance c2) + 0.05);
    [lra |].
  unfold Rdiv. rewrite Rmult_assoc, Rinv_l by lra. lra.
Qed.

Lemma contrast_range_witness :
  wellFormed white /\ wellFormed black /\
  1 <= calculateContrastRatio white black <= 21.
Proof.
  split; [exact wellFormed_white |]. split; [exact wellFormed_black |].
  exact (proj1 (proj2
           (contrast_range white black wellFormed_white wellFormed_black))).
Defined.

(** *** The resolver stays in the data model *)

Lemma round_channel (x : R) : 0 <= x <= 255 -> channel (Math_round x).
Proof.
  intros Hx. unfold Math_round. exists (Int_part (x + / 2)).
  split; [reflexivity |].
  destruct (base_Int_part (x + / 2)) as [Hle Hgt].
  assert (Hlo : (-1 < Int_part (x + / 2))%Z) by (apply lt_IZR; lra).
  assert (Hhi : (Int_part (x + / 2) < 256)%Z) by (apply lt_IZR; lra).
  lia.
Qed.

Lemma mix_range (x y alpha : R) :
  0 <= x <= 255 -> 0 <= y <= 255 -> 0 <= alpha <= 1 ->
  0 <= x * alpha + y * (1 - alpha) <= 255.
Proof. intros Hx Hy Ha. split; nra. Qed.

Lemma blendColors_wellFormed (fg bg : Color) :
  wellFormed fg -> wellFormed bg -> 0 <= a fg <= 1 ->
  wellFormed (blendColors fg bg).
Proof.
  intros [Hr [Hg Hb]] [Hr' [Hg' Hb']] Ha.
  apply channel_range in Hr, Hg, Hb, Hr', Hg', Hb'.
  repeat split; cbn; apply round_channel, mix_range; assumption.
Qed.

Lemma backgroundFrom_wellFormed (e : Element) :
  backgroundsInModel e -> wellFormed (backgroundFrom e).
Proof.
  induction e as [e IH] using Element_parent_ind. intros Hm.
  rewrite backgroundFrom_unfold.
  destruct (isBody e); [exact wellFormed_white |]. cbn zeta.
  assert (Habove : wellFormed (getEffectiveBackgroundColor (parentElement e))).
  { destruct (parentElement e) as [parent |] eqn:Hparent;
      [| exact wellFormed_white].
    cbn. apply IH; [reflexivity |]. intros below t c Hpath Hc.
    apply (Hm (e :: below) t c); [| exact Hc].
    apply pathUp_step with parent; assumption. }
  destruct (backgroundColor e) as [c |] eqn:Hc; [| exact Habove].
  destruct (Hm [] e c (pathUp_here e) Hc) as [Hwf Ha].
  destruct (gtb (a c) 0); [| exact Habove].
  destruct (eqb (a c) 1); [exact Hwf |].
  apply blendColors_wellFormed; assumption.
Qed.

(** X3. When the parsed backgrounds of an element and of its ancestors
    are colours of the data model with an alpha in 0..1, the effective
    background is a colour of the data model with alpha 1: blending keeps
    integer channels in 0..255. *)
Theorem getEffectiveBackgroundColor_in_model (e : Element) :
  backgroundsInModel e ->
  wellFormed (getEffectiveBackgroundColor (Some e)) /\
  a (getEffectiveBackgroundColor (Some e)) = 1.
Proof.
  intros Hm. split; [apply backgroundFrom_wellFormed, Hm |].
  apply backgroundFrom_alpha.
Qed.

Lemma opaqueDiv_inModel : backgroundsInModel translucentSpan.
Proof.
  intros below t c Hpath Hc.
  assert (Ht : t = translucentSpan \/ t = opaqueDiv).
  { inversion Hpath as [| e parent t' below' Hparent Hpath']; subst;
      [left; reflexivity |].
    right. injection Hparent as <-.
    destruct (pathUp_root opaqueDiv t below' eq_refl Hpath') as [-> _].
    reflexivity. }
  destruct Ht as [-> | ->]; injection Hc as <-.
  - split; [| cbn; lra]. repeat split; apply (channel_IZR 0); lia.
  - split; [| cbn; lra]. repeat split; apply (channel_IZR 200); lia.
Qed.

Lemma getEffectiveBackgroundColor_in_model_witness :
  wellFormed (getEffectiveBackgroundColor (Some translucentSpan)).
Proof.
  exact (proj1 (getEffectiveBackgroundColor_in_model translucentSpan
                  opaqueDiv_inModel)).
Defined.

(** *** The colour adjustment: what it changes *)

Lemma shiftColor_alpha (direction : string) (c : Color) (k : nat) :
  a (Nat.iter k (shiftColor direction) c) = a c.
Proof.
  induction k as [| k IH]; [reflexivity |].
  rewrite Nat.iter_succ. cbn [shiftColor a]. exact IH.
Qed.

Lemma adjustChannel_darken_step (x : R) :
  0 <= x <= 255 ->
  x - 10 <= adjustChannel "darken" x <= x.
Proof.
  intros Hx. destruct (adjustChannel_darken x Hx) as [E _]. rewrite E.
  unfold clamp. rewrite (Rmin_right 255 (x - 10)) by lra.
  split; [apply Rmax_r | apply Rmax_lub; lra].
Qed.

Lemma adjustChannel_lighten_step (direction : string) (x : R) :
  direction <> "darken" -> 0 <= x <= 255 ->
  x <= adjustChannel direction x <= x + 10.
Proof.
  intros Hd Hx. destruct (adjustChannel_lighten direction x Hd Hx) as [E _].
  rewrite E. unfold clamp.
  assert (Hmin : x <= Rmin 255 (x + 10) <= x + 10).
  { split; [apply Rmin_glb; lra | apply Rmin_r]. }
  rewrite (Rmax_right 0 (Rmin 255 (x + 10))) by lra. exact Hmin.
Qed.

(** After [k] runs of the loop body every channel has moved by at most
    [10 k], downwards for [darken] and upwards otherwise. *)
Lemma shifted_darken (c : Color) (k : nat) :
  wellFormed c ->
  let out := Nat.iter k (shiftColor "darken") c in
  r c - 10 * INR k <= r out <= r c /\
  g c - 10 * INR k <= g out <= g c /\
  b c - 10 * INR k <= b out <= b c.
Proof.
  intros Hwf. induction k as [| k IH].
  - cbn. lra.
  - cbn zeta in *. rewrite Nat.iter_succ, S_INR.
    pose proof (shiftColor_iter_wellFormed "darken" c k Hwf)
      as [Hr [Hg Hb]].
    apply channel_range in Hr, Hg, Hb.
    pose proof (adjustChannel_darken_step _ Hr).
    pose proof (adjustChannel_darken_step _ Hg).
    pose proof (adjustChannel_darken_step _ Hb).
    cbn [shiftColor r g b]. lra.
Qed.

Lemma shifted_lighten (direction : string) (c : Color) (k : nat) :
  direction <> "darken" -> wellFormed c ->
  let out := Nat.iter k (shiftColor direction) c in
  r c <= r out <= r c + 10 * INR k /\
  g c <= g out <= g c + 10 * INR k /\
  b c <= b out <= b c + 10 * INR k.
Proof.
  intros Hd Hwf. induction k as [| k IH].
  - cbn. lra.
  - cbn zeta in *. rewrite Nat.iter_succ, S_INR.
    pose proof (shiftColor_iter_wellFormed direction c k Hwf)
      as [Hr [Hg Hb]].
    apply channel_range in Hr, Hg, Hb.
    pose proof (adjustChannel_lighten_step _ _ Hd Hr).
    pose proof (adjustChannel_lighten_step _ _ Hd Hg).
    pose proof (adjustChannel_lighten_step _ _ Hd Hb).
    cbn [shiftColor r g b]. lra.
Qed.

Lemma adjustColorForContrast_shifted
    (color bgColor : Color) (targetRatio : R) (direction : string) :
  exists n : nat,
    (n <= 25)%nat /\
    adjustColorForContrast color bgColor targetRatio direction =
      Nat.iter n (shiftColor direction) color.
Proof.
  destruct (adjust_terminates color bgColor targetRatio direction)
    as [n [Hn [Hloop _]]].
  exists n. split; [exact Hn |].
  unfold adjustColorForContrast.
  rewrite (Hloop (Datatypes.S maxIterations))
    by (unfold maxIterations in *; lia).
  apply adjust_color.
Qed.

(** X4. On a colour of the data model [adjustColorForContrast] returns a
    colour of the data model with the same alpha; [darken] raises no
    channel and any other direction lowers none, and no channel moves
    by more than 250. *)
Theorem adjustColorForContrast_direction
    (color bgColor : Color) (targetRatio : R) (direction : string) :
  wellFormed color ->
  let out := adjustColorForContrast color bgColor targetRatio direction in
  wellFormed out /\ a out = a color /\
  (direction = "darken" ->
   notLighter out color /\
   r color - 250 <= r out /\ g color - 250 <= g out /\
   b color - 250 <= b out) /\
  (direction <> "darken" ->
   notLighter color out /\
   r out <= r color + 250 /\ g out <= g color + 250 /\
   b out <= b color + 250).
Proof.
  intros Hwf out.
  destruct (adjustColorForContrast_shifted color bgColor targetRatio direction)
    as [n [Hn E]].
  unfold out. rewrite E. clear out E.
  assert (Hk : INR n <= 25).
  { apply le_INR in Hn. replace (INR 25) with 25 in Hn by (cbn; lra).
    exact Hn. }
  split; [apply shiftColor_iter_wellFormed, Hwf |].
  split; [apply shiftColor_alpha |].
  split.
  - intros ->. pose proof (shifted_darken color n Hwf) as H.
    cbn zeta in H. unfold notLighter. lra.
  - intros Hd. pose proof (shifted_lighten direction color n Hd Hwf) as H.
    cbn zeta in H. unfold notLighter. lra.
Qed.

Lemma adjustColorForContrast_direction_witness :
  wellFormed white /\
  notLighter (adjustColorForContrast white black 4.5 "darken") white.
Proof.
  split; [exact wellFormed_white |].
  exact (proj1 (proj1 (proj2 (proj2
           (adjustColorForContrast_direction white black 4.5 "darken"
              wellFormed_white))) eq_refl)).
Defined.





Lemma luminance_red : getRelativeLuminance red = 0.2126.
Proof.
  unfold getRelativeLuminance, red; cbn [r g b].
  rewrite linear_0, linear_1. lra.
Qed.





(** *** The contrast pass as a whole *)

Lemma filters_evaluated (element : Element) :
  (isBlank (textContent element) ||
   includes ["SCRIPT"; "STYLE"; "META"; "LINK"; "HEAD"] (tagName element))%bool
    = false ->
  (offsetParentIsNull element &&
   negb (String.eqb (tagName element) "HTML"))%bool = false ->
  evaluated element.
Proof.
  intros F1 F2. apply orb_false_iff in F1. destruct F1 as [Hb Hi].
  split; [exact Hb |]. split.
  - intros Hin. apply includes_In in Hin. congruence.
  - apply andb_false_iff in F2. destruct F2 as [H | H]; [left; exact H |].
    right. apply negb_false_iff, String.eqb_eq in H. exact H.
Qed.

Lemma analyzeElement_cases
    (document : Document) (st : State) (element : Element) :
  (analyzeElement document st element = Normal st /\
   isReported document element = false) \/
  (exists issue,
      isReported document element = true /\ evaluated element /\
      issueElement issue = element /\
      if generateSelector document element
      then
        exists fix_,
          analyzeElement document st element =
            Normal (mkState (contrastIssues st ++ [issue])
                            (fixableIssues st ++ [fix_])) /\
          pushedTogether element issue fix_
      else
        analyzeElement document st element =
          Throw (mkState (contrastIssues st ++ [issue]) (fixableIssues st))).
Proof.
  unfold isReported, reported, analyzeElement.
  destruct (isBlank _ || includes _ _)%bool eqn:F1;
    [left; split; reflexivity |].
  destruct (offsetParentIsNull element && _)%bool eqn:F2;
    [left; split; reflexivity |].
  destruct (color element) as [textColor |] eqn:Hc;
    [| left; split; reflexivity].
  cbn zeta. unfold checkWCAGCompliance. cbn [passAA passAAA].
  destruct (negb (geb _ _) || negb (geb _ _))%bool eqn:F3;
    [| left; split; reflexivity].
  right. unfold addContrastIssue, createFixableIssue.
  cbn [contrastIssues fixableIssues wcagResults passAA app forallb].
  rewrite andb_true_r.
  destruct (generateSelector document element);
    [| eexists; split; [reflexivity |];
       split; [apply filters_evaluated; assumption |];
       split; [| reflexivity]; reflexivity].
  eexists. split; [reflexivity |].
  split; [apply filters_evaluated; assumption |].
  split; [| eexists; split; [reflexivity |]]; [reflexivity |].
  unfold pushedTogether.
  cbn [issueElement fixes affectedElements issueSeverity severity issueType
       category automationPossible List.length].
  destruct (geb _ (aa _)); cbn [negb]; repeat split;
    [right | left]; split; reflexivity.
Qed.

Lemma isReported_spec (document : Document) (element : Element) :
  isReported document element = true <->
  evaluated element /\
  exists textColor,
    color element = Some textColor /\
    calculateContrastRatio textColor
      (getEffectiveBackgroundColor (Some element)) < aaa (classify element).
Proof.
  pose proof (requirements_aa_lt_aaa (getFontSizeInPt element)
                (fontWeight element) element) as Hlt.
  fold (classify element) in Hlt.
  split.
  - intros H.
    destruct (analyzeElement_cases document (mkState [] []) element)
      as [[_ E] | [issue [_ [Hev _]]]]; [congruence |].
    split; [exact Hev |].
    destruct (evaluated_filters element Hev) as [F1 F2].
    revert H. unfold isReported, reported, analyzeElement.
    rewrite F1, F2.
    destruct (color element) as [textColor |]; [| discriminate].
    cbn zeta. fold (classify element).
    unfold checkWCAGCompliance. cbn [passAA passAAA].
    destruct (geb _ (aaa _)) eqn:E3.
    + destruct (geb _ (aa _)) eqn:E2; [discriminate |].
      intros _. exists textColor. split; [reflexivity |].
      apply geb_false in E2. lra.
    + intros _. exists textColor. split; [reflexivity |].
      apply geb_false in E3. exact E3.
  - intros [Hev [textColor [Hc Hr]]].
    destruct (evaluated_filters element Hev) as [F1 F2].
    unfold isReported, reported, analyzeElement.
    rewrite F1, F2, Hc. cbn zeta. fold (classify element).
    unfold checkWCAGCompliance. cbn [passAA passAAA].
    assert (E3 : geb (calculateContrastRatio textColor
                        (getEffectiveBackgroundColor (Some element)))
                     (aaa (classify element)) = false)
      by (apply geb_false; exact Hr).
    rewrite E3, orb_true_r. unfold addContrastIssue, createFixableIssue.
    cbn [forallb]. rewrite andb_true_r.
    destruct (generateSelector document element); reflexivity.
Qed.

(** The reported elements do not depend on the document's answers. *)
Lemma isReported_document (document document' : Document)
    (element : Element) :
  isReported document element = isReported document' element.
Proof.
  destruct (isReported document' element) eqn:E.
  - apply isReported_spec. apply isReported_spec in E. exact E.
  - destruct (isReported document element) eqn:E'; [| reflexivity].
    apply isReported_spec in E'. apply (isReported_spec document') in E'.
    congruence.
Qed.

Lemma pass_shape (document : Document) (elements : list Element)
    (st : State) :
  exists pairs : list (ContrastIssue * FixableIssue),
    map (fun p => issueElement (fst p)) pairs =
      completed document (filter (isReported document) elements) /\
    Forall (fun p => pushedTogether (issueElement (fst p)) (fst p) (snd p))
           pairs /\
    match find (throwsOn document)
               (filter (isReported document) elements) with
    | None =>
        analyzeColorContrast document elements st =
          Normal (mkState (contrastIssues st ++ map fst pairs)
                          (fixableIssues st ++ map snd pairs))
    | Some element =>
        exists issue,
          issueElement issue = element /\
          analyzeColorContrast document elements st =
            Throw (mkState (contrastIssues st ++ map fst pairs ++ [issue])
                           (fixableIssues st ++ map snd pairs))
    end.
Proof.
  revert st. unfold analyzeColorContrast.
  induction elements as [| element rest IH]; intros st.
  - exists []. cbn. rewrite !app_nil_r. destruct st.
    repeat split. constructor.
  - cbn [forEach filter].
    destruct (analyzeElement_cases document st element)
      as [[E R] | [issue [R [_ [He H]]]]]; rewrite R.
    + rewrite E. cbn [andThen]. apply IH.
    + cbn [find completed]. unfold throwsOn at 1.
      destruct (generateSelector document element).
      * destruct H as [fix_ [E Hp]]. rewrite E. cbn [andThen negb].
        destruct (IH (mkState (contrastIssues st ++ [issue])
                              (fixableIssues st ++ [fix_])))
          as [pairs [H1 [H2 H3]]].
        exists ((issue, fix_) :: pairs).
        cbn [contrastIssues fixableIssues map fst snd] in *.
        split; [f_equal; assumption |].
        split; [constructor; [cbn [fst snd]; rewrite He; exact Hp
                             | exact H2] |].
        destruct (find _ _) as [thrower |].
        -- destruct H3 as [issue' [H3 H4]]. exists issue'.
           split; [exact H3 |]. rewrite H4, <- !app_assoc. reflexivity.
        -- rewrite H3, <- !app_assoc. reflexivity.
      * rewrite H. cbn [andThen negb]. exists [].
        split; [reflexivity |]. split; [constructor |].
        exists issue. split; [exact He |].
        cbn [map app]. rewrite app_nil_r. reflexivity.
Qed.


Lemma append_assoc (st s1 s2 : State) :
  append (append st s1) s2 = append st (append s1 s2).
Proof.
  unfold append. cbn [contrastIssues fixableIssues].
  rewrite !app_assoc. reflexivity.
Qed.

Lemma append_empty_r (st : State) : append st (mkState [] []) = st.
Proof. unfold append. cbn. rewrite !app_nil_r. destruct st; reflexivity. Qed.

Lemma append_empty_l (st : State) : append (mkState [] []) st = st.
Proof. destruct st; reflexivity. Qed.

Lemma analyzeElement_app
    (document : Document) (st : State) (element : Element) :
  analyzeElement document st element =
    after st (reported document element).
Proof.
  unfold reported, analyzeElement.
  destruct (isBlank _ || includes _ _)%bool;
    [cbn [after]; rewrite append_empty_r; reflexivity |].
  destruct (offsetParentIsNull element && _)%bool;
    [cbn [after]; rewrite append_empty_r; reflexivity |].
  destruct (color element) as [textColor |];
    [| cbn [after]; rewrite append_empty_r; reflexivity].
  cbn zeta.
  destruct (negb _ || negb _)%bool;
    [| cbn [after]; rewrite append_empty_r; reflexivity].
  unfold addContrastIssue, createFixableIssue.
  destruct (forallb _ _); [reflexivity |].
  unfold after, append. cbn [contrastIssues fixableIssues app].
  rewrite app_nil_r. reflexivity.
Qed.

Lemma after_after (st s : State) (c : Completion State) :
  after st (after s c) = after (append st s) c.
Proof. destruct c; cbn [after]; rewrite append_assoc; reflexivity. Qed.

Lemma analyzeColorContrast_app
    (document : Document) (elements : list Element) (st : State) :
  analyzeColorContrast document elements st =
    after st (analyzeColorContrast document elements (mkState [] [])).
Proof.
  unfold analyzeColorContrast. revert st.
  induction elements as [| element rest IH]; intros st.
  - cbn. rewrite append_empty_r. reflexivity.
  - cbn [forEach]. rewrite (analyzeElement_app document st element).
    rewrite (analyzeElement_app document (mkState [] []) element).
    destruct (reported document element) as [s | s]; cbn [after andThen].
    + rewrite append_empty_l, (IH (append st s)), (IH s).
      rewrite after_after. reflexivity.
    + rewrite append_empty_l. reflexivity.
Qed.

Lemma pushedTogether_contrastRecord
    (element : Element) (issue : ContrastIssue) (fix_ : FixableIssue) :
  pushedTogether element issue fix_ -> contrastRecord fix_.
Proof.
  intros [_ [_ [Ha [_ [Ht [Hc _]]]]]]. repeat split; assumption.
Qed.

(** The records of a pass from the empty state. *)
Lemma pass_fixables (document : Document) (elements : list Element) :
  let pass := analyzeColorContrast document elements (mkState [] []) in
  let reportedElements := filter (isReported document) elements in
  Forall contrastRecord (fixableIssues (stateOf pass)) /\
  List.length (fixableIssues (stateOf pass)) =
    List.length (completed document reportedElements) /\
  List.length (contrastIssues (stateOf pass)) =
    (if returns pass
     then List.length (completed document reportedElements)
     else Datatypes.S (List.length (completed document reportedElements)))
  /\
  returns pass = forallb (generateSelector document) reportedElements.
Proof.
  intros pass reportedElements. subst pass reportedElements.
  destruct (pass_shape document elements (mkState [] []))
    as [pairs [H1 [H2 H3]]].
  assert (Hrec : Forall contrastRecord (map snd pairs)).
  { clear H1 H3. induction H2 as [| p pairs Hp _ IH]; [constructor |].
    cbn [map]. constructor; [| exact IH].
    exact (pushedTogether_contrastRecord _ _ _ Hp). }
  assert (Hlen : List.length pairs =
                 List.length
                   (completed document
                      (filter (isReported document) elements))).
  { rewrite <- H1, length_map. reflexivity. }
  assert (Hfind :
    forall l,
      match find (throwsOn document) l with
      | None => forallb (generateSelector document) l = true
      | Some _ => forallb (generateSelector document) l = false
      end).
  { induction l as [| x l IH]; [reflexivity |].
    cbn [find forallb]. unfold throwsOn at 1.
    destruct (generateSelector document x); [exact IH | reflexivity]. }
  specialize (Hfind (filter (isReported document) elements)).
  destruct (find _ _) as [thrower |].
  - destruct H3 as [issue [_ ->]].
    cbn [stateOf returns contrastIssues fixableIssues app].
    rewrite length_app, !length_map, Hfind. cbn [List.length].
    repeat split; [exact Hrec | exact Hlen | lia].
  - rewrite H3. cbn [stateOf returns contrastIssues fixableIssues app].
    rewrite !length_map, Hfind.
    repeat split; [exact Hrec | exact Hlen | exact Hlen].
Qed.

Lemma contrastRecord_contains (issue : FixableIssue) :
  contrastRecord issue -> notContrast issue = false.
Proof.
  intros [_ [[[E _] | [E _]] _]]; unfold notContrast; rewrite E;
    reflexivity.
Qed.

Lemma filter_none {A : Type} (p : A -> bool) (l : list A) :
  Forall (fun x => p x = false) l -> filter p l = [].
Proof.
  induction 1 as [| x l Hx _ IH]; [reflexivity |].
  cbn. rewrite Hx. exact IH.
Qed.

Lemma filter_filter {A : Type} (p : A -> bool) (l : list A) :
  filter p (filter p l) = filter p l.
Proof.
  induction l as [| x l IH]; [reflexivity |].
  cbn. destruct (p x) eqn:E; [| exact IH].
  cbn. rewrite E, IH. reflexivity.
Qed.

Lemma stateOf_after (st : State) (c : Completion State) :
  stateOf (after st c) = append st (stateOf c).
Proof. destruct c; reflexivity. Qed.

Lemma rerun_state (document : Document) (elements : list Element)
    (st : State) :
  rerunContrastCheck document elements st =
    append (mkState [] (filter notContrast (fixableIssues st)))
      (stateOf (analyzeColorContrast document elements (mkState [] []))).
Proof.
  unfold rerunContrastCheck.
  rewrite analyzeColorContrast_app, stateOf_after. reflexivity.
Qed.

Lemma rerun_kept (document : Document) (elements : list Element)
    (st : State) :
  filter notContrast
    (fixableIssues (rerunContrastCheck document elements st)) =
  filter notContrast (fixableIssues st).
Proof.
  rewrite rerun_state. unfold append. cbn [fixableIssues].
  rewrite filter_app, filter_filter.
  destruct (pass_fixables document elements) as [Hrec _].
  rewrite (filter_none notContrast
             (fixableIssues
                (stateOf (analyzeColorContrast document elements
                            (mkState [] [])))));
    [apply app_nil_r |].
  eapply Forall_impl; [| exact Hrec].
  intros issue. apply contrastRecord_contains.
Qed.

(** X7. [rerunContrastCheck] keeps, in their order, exactly the fixable
    issues whose type does not contain the word contrast, and replaces the
    contrast records by those of one fresh pass over the elements that the
    document has during the call: the list of contrast issues is that of
    a pass from the empty state.  What a rerun leaves does not depend on
    the contrast records of the state it starts from, so that a rerun
    after a rerun (over the elements of the document at that time, which
    the first call has changed) leaves what it alone would have left;
    whereas a plain pass on the result appends its records to the ones
    that are there. *)
Theorem rerunContrastCheck_fresh
    (document document' : Document) (elements elements' : list Element)
    (st : State) :
  let fresh :=
    stateOf (analyzeColorContrast document elements (mkState [] [])) in
  let st' := rerunContrastCheck document elements st in
  contrastIssues st' = contrastIssues fresh /\
  fixableIssues st' =
    (filter notContrast (fixableIssues st) ++ fixableIssues fresh)%list /\
  filter notContrast (fixableIssues st') =
    filter notContrast (fixableIssues st) /\
  rerunContrastCheck document' elements' st' =
    rerunContrastCheck document' elements' st /\
  contrastIssues
    (stateOf (analyzeColorContrast document' elements' st')) =
    (contrastIssues st' ++
     contrastIssues
       (stateOf (analyzeColorContrast document' elements'
                   (mkState [] []))))%list.
Proof.
  intros fresh st'.
  pose proof (rerun_state document elements st) as E. fold st' fresh in E.
  pose proof (rerun_kept document elements st) as K. fold st' in K.
  split; [rewrite E; reflexivity |].
  split; [rewrite E; reflexivity |].
  split; [exact K |].
  split.
  - rewrite (rerun_state document' elements' st'), K.
    symmetry. apply rerun_state.
  - rewrite (analyzeColorContrast_app document' elements' st').
    rewrite stateOf_after. reflexivity.
Qed.

(** *** The figures of the report *)

Lemma timePerElement_range (type : string) (minutes : nat) :
  timePerElement type = Some minutes -> (5 <= minutes <= 20)%nat.
Proof.
  unfold timePerElement, timeMap, own.
  repeat match goal with
         | |- context [String.eqb ?k type] =>
             destruct (String.eqb k type);
             [intros H; injection H as <-; lia |]
         end.
  destruct (includes objectPrototype type); [discriminate |].
  intros H; injection H as <-; lia.
Qed.

Lemma timePerElement_none (type : string) :
  timePerElement type = None <-> In type objectPrototype.
Proof.
  split.
  - unfold timePerElement. destruct (own timeMap type); [discriminate |].
    destruct (includes objectPrototype type) eqn:E; [| discriminate].
    intros _. apply includes_In, E.
  - intros H. cbn in H.
    repeat (destruct H as [<- | H]; [reflexivity |]). destruct H.
Qed.

(** One step of the [reduce] of [calculateTotalFixTime]. *)
Lemma calculateTotalFixTime_from
    (issues : list FixableIssue) (total : option nat) :
  fold_left
    (fun total issue =>
       match total, timePerElement (issueType issue) with
       | Some t, Some minutes =>
           Some (t + minutes * affectedElements issue)%nat
       | _, _ => None
       end)
    issues total =
  match total, calculateTotalFixTime issues with
  | Some t, Some more => Some (t + more)%nat
  | _, _ => None
  end.
Proof.
  unfold calculateTotalFixTime.
  set (step := fun (total : option nat) (issue : FixableIssue) => _).
  revert total.
  induction issues as [| issue rest IH]; intros total.
  - cbn. destruct total; [f_equal; lia | reflexivity].
  - cbn [fold_left].
    rewrite (IH (step total issue)), (IH (step (Some 0%nat) issue)).
    unfold step at 1 3.
    destruct total as [t |], (timePerElement (issueType issue)) as [m |];
      try reflexivity;
      destruct (fold_left step rest (Some 0%nat)); try reflexivity;
      f_equal; lia.
Qed.

Lemma calculateTotalFixTime_cons
    (issue : FixableIssue) (rest : list FixableIssue) :
  calculateTotalFixTime (issue :: rest) =
  match timePerElement (issueType issue), calculateTotalFixTime rest with
  | Some minutes, Some more =>
      Some (minutes * affectedElements issue + more)%nat
  | _, _ => None
  end.
Proof.
  unfold calculateTotalFixTime at 1. cbn [fold_left].
  rewrite calculateTotalFixTime_from.
  destruct (timePerElement (issueType issue)); reflexivity.
Qed.

Lemma calculateTotalFixTime_app (issues more : list FixableIssue) :
  calculateTotalFixTime (issues ++ more) =
  match calculateTotalFixTime issues, calculateTotalFixTime more with
  | Some t, Some t' => Some (t + t')%nat
  | _, _ => None
  end.
Proof.
  unfold calculateTotalFixTime at 1. rewrite fold_left_app.
  fold (calculateTotalFixTime issues). apply calculateTotalFixTime_from.
Qed.

(** X8. The estimated time of a list of fixable issues is not a number
    exactly when the type of one of the issues is the name of a member
    that the time table inherits from [Object.prototype]; otherwise it
    lies between 5 and 20 minutes for each affected element, and it is the
    sum of the times of the parts of the list, so that the order of the
    issues does not matter. *)
Theorem calculateTotalFixTime_bounds (issues : list FixableIssue) :
  (calculateTotalFixTime issues = None <->
   Exists (fun issue => In (issueType issue) objectPrototype) issues) /\
  (forall t, calculateTotalFixTime issues = Some t ->
             (5 * affected issues <= t <= 20 * affected issues)%nat) /\
  (forall more,
      calculateTotalFixTime (issues ++ more) =
      match calculateTotalFixTime issues, calculateTotalFixTime more with
      | Some t, Some t' => Some (t + t')%nat
      | _, _ => None
      end) /\
  (forall more,
      calculateTotalFixTime (more ++ issues) =
      calculateTotalFixTime (issues ++ more)).
Proof.
  split; [| split; [| split]].
  - induction issues as [| issue rest IH].
    + split; [discriminate | intros H; inversion H].
    + rewrite calculateTotalFixTime_cons, Exists_cons,
        <- timePerElement_none, <- IH.
      destruct (timePerElement (issueType issue)),
        (calculateTotalFixTime rest); split;
        solve [ discriminate | intros [H | H]; discriminate H
              | intros _; left; reflexivity | intros _; right; reflexivity
              | reflexivity ].
  - induction issues as [| issue rest IH]; intros t.
    + intros H. injection H as <-. cbn. lia.
    + rewrite calculateTotalFixTime_cons.
      destruct (timePerElement (issueType issue)) as [m |] eqn:Em;
        [| discriminate].
      destruct (calculateTotalFixTime rest) as [t' |]; [| discriminate].
      intros H. injection H as <-.
      apply timePerElement_range in Em. specialize (IH t' eq_refl).
      change (affected (issue :: rest))
        with (affectedElements issue + affected rest)%nat.
      nia.
  - intros more. apply calculateTotalFixTime_app.
  - intros more. rewrite !calculateTotalFixTime_app.
    destruct (calculateTotalFixTime issues), (calculateTotalFixTime more);
      try reflexivity. f_equal. lia.
Qed.

Lemma severity_cases (issue : FixableIssue) :
  In (severity issue) severities ->
  (hasSeverity "critical" issue = true /\
   hasSeverity "warning" issue = false /\
   hasSeverity "info" issue = false) \/
  (hasSeverity "critical" issue = false /\
   hasSeverity "warning" issue = true /\
   hasSeverity "info" issue = false) \/
  (hasSeverity "critical" issue = false /\
   hasSeverity "warning" issue = false /\
   hasSeverity "info" issue = true).
Proof.
  unfold hasSeverity.
  intros [E | [E | [E | []]]]; rewrite <- E;
    [left | right; left | right; right]; repeat split; reflexivity.
Qed.

(** X9. When every issue has one of the three severities, the three
    phases of the roadmap split the list: their numbers of issues, which
    are the counts of [categorizeBySeverity], add up to the length of the
    list, and their estimated times add up to the estimated time of the
    whole list whenever that one is a number. *)
Theorem generatePriorityRoadmap_partition (issues : list FixableIssue) :
  Forall (fun issue => In (severity issue) severities) issues ->
  let roadmap := generatePriorityRoadmap issues in
  let counts := categorizeBySeverity issues in
  phaseIssues (phase1_immediate roadmap) = critical counts /\
  phaseIssues (phase2_important roadmap) = warning counts /\
  phaseIssues (phase3_enhancement roadmap) = info counts /\
  (critical counts + warning counts + info counts)%nat
    = List.length issues /\
  forall t,
    calculateTotalFixTime issues = Some t ->
    exists t1 t2 t3,
      estimatedTime (phase1_immediate roadmap) = Some t1 /\
      estimatedTime (phase2_important roadmap) = Some t2 /\
      estimatedTime (phase3_enhancement roadmap) = Some t3 /\
      (t1 + t2 + t3)%nat = t.
Proof.
  intros Hsev roadmap counts. subst roadmap counts.
  unfold generatePriorityRoadmap, categorizeBySeverity.
  cbn [phaseIssues estimatedTime phase1_immediate phase2_important
       phase3_enhancement critical warning info].
  do 3 (split; [reflexivity |]).
  induction Hsev as [| issue rest Hi _ [IHn IHt]].
  - split; [reflexivity |]. intros t H. injection H as <-.
    exists 0%nat, 0%nat, 0%nat. repeat split.
  - cbn [filter List.length].
    destruct (severity_cases issue Hi)
      as [[E1 [E2 E3]] | [[E1 [E2 E3]] | [E1 [E2 E3]]]];
      rewrite E1, E2, E3; cbn [List.length];
      (split; [lia |]); intros t;
      rewrite !calculateTotalFixTime_cons;
      destruct (timePerElement (issueType issue)) as [m |];
      try discriminate;
      destruct (calculateTotalFixTime rest) as [t' |]; try discriminate;
      intros H; injection H as <-;
      destruct (IHt t' eq_refl) as [t1 [t2 [t3 [H1 [H2 [H3 H4]]]]]];
      rewrite H1, H2, H3;
      eexists; eexists; eexists; repeat split; lia.
Qed.

Lemma generatePriorityRoadmap_partition_witness :
  Forall (fun issue => In (severity issue) severities) sampleIssues /\
  (critical (categorizeBySeverity sampleIssues) +
   warning (categorizeBySeverity sampleIssues) +
   info (categorizeBySeverity sampleIssues))%nat
    = List.length sampleIssues.
Proof.
  assert (H : Forall (fun issue => In (severity issue) severities)
                     sampleIssues).
  { repeat constructor; cbn; tauto. }
  split; [exact H |].
  exact (proj1 (proj2 (proj2 (proj2
           (generatePriorityRoadmap_partition sampleIssues H))))).
Defined.

Lemma affected_cons (issue : FixableIssue) (rest : list FixableIssue) :
  affected (issue :: rest) = (affectedElements issue + affected rest)%nat.
Proof. reflexivity. Qed.

Lemma assess_fold (issues : list FixableIssue) (acc : Impacts) :
  fold_left assess issues acc =
    mkImpacts
      (screenReaders acc + affectedIn "semantic" issues)
      (keyboardUsers acc + affectedIn "keyboard" issues)
      (visuallyImpaired acc + affectedIn "visual" issues)
      (motorImpaired acc + affectedIn "motor" issues)
      (cognitiveImpaired acc + affectedIn "cognitive" issues).
Proof.
  revert acc. induction issues as [| issue rest IH]; intros acc.
  - unfold affectedIn, affected. cbn. rewrite !Nat.add_0_r.
    destruct acc; reflexivity.
  - cbn [fold_left]. rewrite IH. unfold assess, affectedIn. cbn [filter].
    destruct (String.eqb (category issue) "semantic") eqn:E1;
      [apply String.eqb_eq in E1; rewrite E1; cbn [String.eqb Ascii.eqb
         Bool.eqb andb]; rewrite affected_cons; cbn; f_equal; lia |].
    destruct (String.eqb (category issue) "keyboard") eqn:E2;
      [apply String.eqb_eq in E2; rewrite E2; cbn [String.eqb Ascii.eqb
         Bool.eqb andb]; rewrite affected_cons; cbn; f_equal; lia |].
    destruct (String.eqb (category issue) "visual") eqn:E3;
      [apply String.eqb_eq in E3; rewrite E3; cbn [String.eqb Ascii.eqb
         Bool.eqb andb]; rewrite affected_cons; cbn; f_equal; lia |].
    destruct (String.eqb (category issue) "motor") eqn:E4;
      [apply String.eqb_eq in E4; rewrite E4; cbn [String.eqb Ascii.eqb
         Bool.eqb andb]; rewrite affected_cons; cbn; f_equal; lia |].
    destruct (String.eqb (category issue) "cognitive") eqn:E5;
      [rewrite affected_cons; cbn; f_equal; lia |].
    reflexivity.
Qed.

Lemma includes_categories (c : string) :
  includes categories c =
    (String.eqb c "semantic" || String.eqb c "keyboard" ||
     String.eqb c "visual" || String.eqb c "motor" ||
     String.eqb c "cognitive")%bool.
Proof.
  unfold includes, categories. cbn [existsb].
  rewrite orb_false_r, !orb_assoc. reflexivity.
Qed.

(** X10. Each figure of the impact assessment is the number of affected
    elements of the issues of one category; an issue of any other category
    (such as the category other, which [createFixableIssue] gives to a
    type outside its table) is counted for no group, so that the five
    figures and the affected elements of those issues add up to the
    affected elements of the whole list. *)
Theorem getImpactAssessment_groups (issues : list FixableIssue) :
  getImpactAssessment issues =
    mkImpacts (affectedIn "semantic" issues) (affectedIn "keyboard" issues)
      (affectedIn "visual" issues) (affectedIn "motor" issues)
      (affectedIn "cognitive" issues) /\
  (screenReaders (getImpactAssessment issues) +
   keyboardUsers (getImpactAssessment issues) +
   visuallyImpaired (getImpactAssessment issues) +
   motorImpaired (getImpactAssessment issues) +
   cognitiveImpaired (getImpactAssessment issues) +
   affected (filter (fun issue => negb (includes categories (category issue)))
                    issues))%nat
    = affected issues.
Proof.
  assert (E : getImpactAssessment issues =
              mkImpacts (affectedIn "semantic" issues)
                (affectedIn "keyboard" issues) (affectedIn "visual" issues)
                (affectedIn "motor" issues) (affectedIn "cognitive" issues)).
  { unfold getImpactAssessment. rewrite assess_fold. reflexivity. }
  split; [exact E |]. rewrite E.
  cbn [screenReaders keyboardUsers visuallyImpaired motorImpaired
       cognitiveImpaired].
  clear E. unfold affectedIn.
  induction issues as [| issue rest IH]; [reflexivity |].
  cbn [filter]. rewrite (includes_categories (category issue)).
  destruct (String.eqb (category issue) "semantic") eqn:E1;
    [apply String.eqb_eq in E1; rewrite E1; cbn [String.eqb Ascii.eqb
       Bool.eqb andb orb negb]; rewrite !affected_cons; lia |].
  destruct (String.eqb (category issue) "keyboard") eqn:E2;
    [apply String.eqb_eq in E2; rewrite E2; cbn [String.eqb Ascii.eqb
       Bool.eqb andb orb negb]; rewrite !affected_cons; lia |].
  destruct (String.eqb (category issue) "visual") eqn:E3;
    [apply String.eqb_eq in E3; rewrite E3; cbn [String.eqb Ascii.eqb
       Bool.eqb andb orb negb]; rewrite !affected_cons; lia |].
  destruct (String.eqb (category issue) "motor") eqn:E4;
    [apply String.eqb_eq in E4; rewrite E4; cbn [String.eqb Ascii.eqb
       Bool.eqb andb orb negb]; rewrite !affected_cons; lia |].
  destruct (String.eqb (category issue) "cognitive") eqn:E5;
    cbn [orb negb]; rewrite !affected_cons; lia.
Qed.

Lemma Math_round_le (x y : R) : x <= y -> Math_round x <= Math_round y.
Proof.
  intros H. unfold Math_round. apply IZR_le.
  destruct (base_Int_part (x + / 2)) as [Hx _].
  destruct (base_Int_part (y + / 2)) as [_ Hy].
  assert (Hlt : (Int_part (x + / 2) < Int_part (y + / 2) + 1)%Z)
    by (apply lt_IZR; rewrite plus_IZR; lra).
  lia.
Qed.

Lemma Math_round_le_IZR (x : R) (n : Z) :
  x < IZR n + / 2 -> Math_round x <= IZR n.
Proof.
  intros H. unfold Math_round. apply IZR_le.
  destruct (base_Int_part (x + / 2)) as [Hx _].
  assert (Hlt : (Int_part (x + / 2) < n + 1)%Z)
    by (apply lt_IZR; rewrite plus_IZR; lra).
  lia.
Qed.

Lemma Math_round_ge_IZR (x : R) (n : Z) :
  IZR n - / 2 <= x -> IZR n <= Math_round x.
Proof.
  intros H. unfold Math_round. apply IZR_le.
  destruct (base_Int_part (x + / 2)) as [_ Hx].
  assert (Hlt : (n - 1 < Int_part (x + / 2))%Z)
    by (apply lt_IZR; rewrite minus_IZR; lra).
  lia.
Qed.

(** The score as a function of the number of distinct criteria. *)
Lemma calculateWCAGScore_failed (fixableIssues : list FixableIssue) :
  calculateWCAGScore fixableIssues =
    Math_round
      ((6 - INR (List.length (failedCriteria fixableIssues))) / 6 * 100).
Proof.
  unfold calculateWCAGScore.
  replace (INR (List.length getAllWCAGCriteria)) with 6
    by (cbn; lra).
  reflexivity.
Qed.

Lemma failedCriteria_nil (fixableIssues : list FixableIssue) :
  List.length (failedCriteria fixableIssues) = 0%nat <-> fixableIssues = [].
Proof.
  split; [| intros ->; reflexivity].
  destruct fixableIssues as [| issue rest]; [reflexivity |].
  intros H. apply length_zero_iff_nil in H.
  assert (Hin : In (wcagCriteria issue)
                  (failedCriteria (issue :: rest)))
    by (apply nodup_In; left; reflexivity).
  rewrite H in Hin. destruct Hin.
Qed.

Lemma failedCriteria_app (fixableIssues more : list FixableIssue) :
  (List.length (failedCriteria fixableIssues) <=
   List.length (failedCriteria (fixableIssues ++ more)))%nat.
Proof.
  apply NoDup_incl_length; [apply NoDup_nodup |].
  intros c Hc. apply nodup_In. apply nodup_In in Hc.
  rewrite map_app. apply in_or_app. left. exact Hc.
Qed.

Lemma getWCAGCriteria_listed (type : string) :
  ~ In type objectPrototype -> In (getWCAGCriteria type) listed.
Proof.
  intros Hplain. unfold getWCAGCriteria, criteria, own.
  repeat match goal with
         | |- context [String.eqb ?k type] =>
             destruct (String.eqb k type); [cbn; tauto |]
         end.
  destruct (includes objectPrototype type) eqn:E; [| cbn; tauto].
  exfalso. apply Hplain, includes_In, E.
Qed.

Lemma failedCriteria_listed (fixableIssues : list FixableIssue) :
  Forall (fun issue => ~ In (issueType issue) objectPrototype)
         fixableIssues ->
  (List.length (failedCriteria fixableIssues) <= 7)%nat.
Proof.
  intros Hplain.
  change 7%nat with (List.length listed).
  apply NoDup_incl_length; [apply NoDup_nodup |].
  intros c Hc. apply nodup_In, in_map_iff in Hc.
  destruct Hc as [issue [<- Hin]].
  rewrite Forall_forall in Hplain.
  apply getWCAGCriteria_listed, Hplain, Hin.
Qed.

(** X11. The compliance score is 100 exactly when there is no fixable
    issue, and at most 83 otherwise; further issues never raise it.  It
    counts distinct criteria, of which the types outside the table share
    one (General) beside the six of the list of criteria: for issues whose
    types are no names of members of [Object.prototype] the score is at
    least -17, and one issue for each criterion reaches -17, a negative
    percentage. *)
Theorem calculateWCAGScore_range (fixableIssues : list FixableIssue) :
  (calculateWCAGScore fixableIssues = 100 <-> fixableIssues = []) /\
  (fixableIssues <> [] -> calculateWCAGScore fixableIssues <= 83) /\
  (forall more,
      calculateWCAGScore (fixableIssues ++ more)
        <= calculateWCAGScore fixableIssues) /\
  (Forall (fun issue => ~ In (issueType issue) objectPrototype)
          fixableIssues ->
   -17 <= calculateWCAGScore fixableIssues) /\
  Forall (fun issue => ~ In (issueType issue) objectPrototype)
         everyCriterion /\
  calculateWCAGScore everyCriterion = -17.
Proof.
  assert (Hpos : fixableIssues <> [] ->
                 calculateWCAGScore fixableIssues <= 83).
  { intros Hne. rewrite calculateWCAGScore_failed.
    assert (Hd : (1 <= List.length (failedCriteria fixableIssues))%nat).
    { destruct (List.length (failedCriteria fixableIssues)) eqn:E;
        [| lia]. apply failedCriteria_nil in E. contradiction. }
    apply le_INR in Hd. cbn [INR] in Hd.
    apply (Math_round_le_IZR _ 83). lra. }
  split; [| split; [exact Hpos | split; [| split; [| split]]]].
  - split.
    + intros H. destruct fixableIssues as [| issue rest]; [reflexivity |].
      assert (Hle : calculateWCAGScore (issue :: rest) <= 83)
        by (apply Hpos; discriminate).
      lra.
    + intros ->. rewrite calculateWCAGScore_failed. cbn [failedCriteria
        map nodup List.length INR].
      replace ((6 - 0) / 6 * 100) with (IZR 100) by lra.
      apply Math_round_IZR.
  - intros more. rewrite !calculateWCAGScore_failed. apply Math_round_le.
    pose proof (failedCriteria_app fixableIssues more) as Hd.
    apply le_INR in Hd. lra.
  - intros Hplain. rewrite calculateWCAGScore_failed.
    pose proof (failedCriteria_listed fixableIssues Hplain) as Hd.
    apply le_INR in Hd. replace (INR 7) with 7 in Hd by (cbn; lra).
    apply (Math_round_ge_IZR _ (-17)). lra.
  - unfold everyCriterion. cbn [map].
    repeat constructor; cbn [issueType issueOf]; cbn;
      intros H; repeat (destruct H as [H | H]; [discriminate H |]);
      exact H.
  - rewrite calculateWCAGScore_failed.
    replace (List.length (failedCriteria everyCriterion)) with 7%nat
      by (vm_compute; reflexivity).
    replace (INR 7) with 7 by (cbn; lra).
    apply (Math_round_unique _ (-17)). lra.
Qed.







Lemma redParagraph_reported (document : Document) (className : string) :
  isReported document (redParagraph className) = true.
Proof.
  apply isReported_spec. split.
  { split; [reflexivity |]. split; [| left; reflexivity].
    cbn. intros [H | [H | [H | [H | [H | []]]]]]; discriminate H. }
  exists red. split; [reflexivity |].
  cbn [getEffectiveBackgroundColor].
  rewrite (backgroundFrom_opaque (redParagraph className) white)
    by reflexivity.
  assert (C : classify (redParagraph className) =
              mkRequirements "normal-text" 4.5 7.0).
  { apply requirements_normalText.
    - intros [H | [value [H _]]]; discriminate H.
    - intros [H | [_ [H | [n [Hn H]]]]].
      + unfold getFontSizeInPt in H. cbn [fontSize redParagraph] in H. lra.
      + discriminate H.
      + injection Hn as <-. lia. }
  rewrite C. cbn [aaa].
  unfold calculateContrastRatio, Math_max, Math_min.
  rewrite luminance_red, luminance_white.
  rewrite Rmax_right, Rmin_left by lra.
  apply Rmult_lt_reg_r with (0.2126 + 0.05); [lra |].
  unfold Rdiv. rewrite Rmult_assoc, Rinv_l by lra. lra.
Qed.

(** Three red paragraphs, the second with a class that is no selector:
    the pass ends at the second with the exception, its contrast issue
    pushed and no fixable issue for it; the third is not looked at. *)
Lemma pass_stops_at_selector :
  let pass :=
    analyzeColorContrast plainDocument
      [redParagraph "lead"; redParagraph "md:flex"; redParagraph "note"]
      (mkState [] []) in
  returns pass = false /\
  List.length (contrastIssues (stateOf pass)) = 2%nat /\
  List.length (fixableIssues (stateOf pass)) = 1%nat.
Proof.
  intros pass.
  destruct (pass_fixables plainDocument
              [redParagraph "lead"; redParagraph "md:flex";
               redParagraph "note"]) as [_ [Hf [Hc Hret]]].
  fold pass in Hf, Hc, Hret. cbn [filter] in Hf, Hc, Hret.
  rewrite !redParagraph_reported in Hf, Hc, Hret.
  assert (E : returns pass = false) by (rewrite Hret; reflexivity).
  rewrite E in Hc.
  split; [exact E |]. split; [rewrite Hc | rewrite Hf]; reflexivity.
Qed.

Lemma own_severityWeight (s : string) (w : R) :
  own severityWeight s = Some w -> w = INR (severityRank s) /\ 1 <= w <= 3.
Proof.
  unfold own, severityWeight, severityRank.
  rewrite !(String.eqb_sym _ s).
  destruct (String.eqb s "critical");
    [intros H; injection H as <-; cbn; lra |].
  destruct (String.eqb s "warning");
    [intros H; injection H as <-; cbn; lra |].
  destruct (String.eqb s "info");
    [intros H; injection H as <-; cbn; lra | discriminate].
Qed.

Lemma own_categoryWeight (c : string) (w : R) :
  own categoryWeight c = Some w -> 0.1 <= w <= 0.5.
Proof.
  unfold own, categoryWeight.
  repeat match goal with
         | |- context [String.eqb ?k c] =>
             destruct (String.eqb k c);
             [intros H; injection H as <-; lra |]
         end.
  discriminate.
Qed.

Lemma getAccessibilityPriority_rank (issue : FixableIssue) (p : R) :
  getAccessibilityPriority issue = Some p ->
  INR (severityRank (severity issue)) + 0.1 <= p
    <= INR (severityRank (severity issue)) + 0.5.
Proof.
  unfold getAccessibilityPriority.
  destruct (own severityWeight (severity issue)) as [s |] eqn:Es;
    [| discriminate].
  destruct (own_severityWeight _ _ Es) as [-> _].
  destruct (own categoryWeight (category issue)) as [c |] eqn:Ec.
  - apply own_categoryWeight in Ec. intros H. injection H as <-. lra.
  - destruct (includes objectPrototype (category issue)); [discriminate |].
    intros H. injection H as <-. lra.
Qed.

(** X25. The priority by which the developer guide sorts the issues puts
    the severity first: whenever the priorities of two issues are
    numbers, an issue of a more severe class has the smaller priority
    whatever the two categories are, since a category adds between 0.1
    and 0.5 (0.5 for a category outside the table); issues of one
    severity and one category have the same priority. *)
Theorem getAccessibilityPriority_order (x y : FixableIssue) (px py : R) :
  getAccessibilityPriority x = Some px ->
  getAccessibilityPriority y = Some py ->
  1.1 <= px <= 3.5 /\
  ((severityRank (severity x) < severityRank (severity y))%nat -> px < py) /\
  (px < py ->
   (severityRank (severity x) <= severityRank (severity y))%nat) /\
  (severity x = severity y -> category x = category y -> px = py).
Proof.
  intros Hx Hy.
  pose proof (getAccessibilityPriority_rank x px Hx) as Rx.
  pose proof (getAccessibilityPriority_rank y py Hy) as Ry.
  assert (Hr : (1 <= severityRank (severity x) <= 3)%nat).
  { unfold severityRank. destruct (String.eqb _ "critical"); [lia |].
    destruct (String.eqb _ "warning"); lia. }
  split; [| split; [| split]].
  - destruct Hr as [H1 H3]. apply le_INR in H1, H3.
    replace (INR 1) with 1 in H1 by (cbn; lra).
    replace (INR 3) with 3 in H3 by (cbn; lra). lra.
  - intros Hlt. apply Nat.le_succ_l in Hlt. apply le_INR in Hlt.
    rewrite S_INR in Hlt. lra.
  - intros Hlt.
    destruct (Nat.le_gt_cases (severityRank (severity x))
                (severityRank (severity y))) as [H | H]; [exact H |].
    exfalso. apply Nat.le_succ_l in H. apply le_INR in H.
    rewrite S_INR in H. lra.
  - intros Es Ec. unfold getAccessibilityPriority in Hx, Hy.
    rewrite Es, Ec in Hx. rewrite Hx in Hy. injection Hy as ->.
    reflexivity.
Qed.

Lemma getAccessibilityPriority_order_witness :
  getAccessibilityPriority (issueOf "contrast-aa" "critical" 1) = Some 1.3 /\
  getAccessibilityPriority (issueOf "readability-issues" "info" 3)
    = Some 3.5 /\
  1.3 < 3.5.
Proof.
  assert (Hx : getAccessibilityPriority (issueOf "contrast-aa" "critical" 1)
               = Some 1.3).
  { unfold getAccessibilityPriority. cbn. f_equal. lra. }
  assert (Hy : getAccessibilityPriority
                 (issueOf "readability-issues" "info" 3) = Some 3.5).
  { unfold getAccessibilityPriority. cbn. f_equal. lra. }
  split; [exact Hx |]. split; [exact Hy |].
  apply (proj1 (proj2 (getAccessibilityPriority_order _ _ _ _ Hx Hy))).
  cbn. lia.
Defined.

(** Filtering a list keeps its keys distinct. *)
Lemma distinct_keys_filter {A K : Type} (key : A -> K) (keep : A -> bool) :
  forall items : list A,
    NoDup (map key items) -> NoDup (map key (filter keep items)).
Proof.
  intros items. induction items as [| item items IH]; cbn [map filter];
    intros Hdistinct; [constructor |].
  apply NoDup_cons_iff in Hdistinct. destruct Hdistinct as [Hnew Hold].
  destruct (keep item); [| apply IH, Hold].
  cbn [map]. apply NoDup_cons_iff. split; [| apply IH, Hold].
  intros Hin. apply Hnew. apply in_map_iff in Hin.
  destruct Hin as [other [Ekey Hother]]. apply filter_In in Hother.
  apply in_map_iff. exists other. split; [exact Ekey | apply Hother].
Qed.

Lemma failing_le_failed (fixableIssues : list FixableIssue) :
  (List.length (failing fixableIssues) <=
   List.length (failedCriteria fixableIssues))%nat.
Proof.
  rewrite <- (length_map (fun c => named (name c))).
  apply NoDup_incl_length.
  - unfold failing. apply distinct_keys_filter.
    unfold getAllWCAGCriteria. cbn [map name].
    repeat (apply NoDup_cons; [cbn; intuition discriminate |]).
    apply NoDup_nil.
  - intros c Hc. apply in_map_iff in Hc. destruct Hc as [w [<- Hw]].
    unfold failing in Hw. apply filter_In in Hw. destruct Hw as [_ Hw].
    destruct (in_dec Criterion_eq_dec (named (name w))
                (failedCriteria fixableIssues)) as [Hin | Hin];
      [exact Hin | discriminate Hw].
Qed.

Lemma general_failed (fixableIssues : list FixableIssue) :
  fixableIssues <> [] ->
  Forall (fun issue => wcagCriteria issue = named "General") fixableIssues ->
  forall c, In c (failedCriteria fixableIssues) <-> c = named "General".
Proof.
  intros Hne Hall c. unfold failedCriteria. rewrite nodup_In, in_map_iff.
  rewrite Forall_forall in Hall. split.
  - intros [issue [<- Hin]]. apply Hall, Hin.
  - intros ->. destruct fixableIssues as [| issue rest]; [contradiction |].
    exists issue. split; [apply Hall |]; left; reflexivity.
Qed.

(** X27. The table of criteria that [generateCriteriaStatus] builds can
    disagree with the score: it marks as failed at most as many criteria
    as the score counts, and issues whose types are outside the table of
    [getWCAGCriteria] (such as the [keyboard-navigation] issues that
    [consolidateIssues] files) fail the criterion General, which is none
    of the six listed: then every listed criterion is shown as passed
    while the score is 83. *)
Theorem generateCriteriaStatus_score (fixableIssues : list FixableIssue) :
  (List.length (failing fixableIssues) <=
   List.length (failedCriteria fixableIssues))%nat /\
  (fixableIssues <> [] ->
   Forall (fun issue => wcagCriteria issue = named "General")
          fixableIssues ->
   failing fixableIssues = [] /\ calculateWCAGScore fixableIssues = 83) /\
  getWCAGCriteria "keyboard-navigation" = named "General" /\
  getWCAGCriteria "heading-skip" = named "General".
Proof.
  split; [apply failing_le_failed |].
  split; [| split; reflexivity].
  intros Hne Hall.
  pose proof (general_failed fixableIssues Hne Hall) as Hg.
  split.
  - unfold failing. apply filter_none. apply Forall_forall.
    intros w Hw.
    destruct (in_dec Criterion_eq_dec (named (name w))
                (failedCriteria fixableIssues)) as [Hin | Hin];
      [| reflexivity].
    exfalso. apply Hg in Hin. injection Hin as Hn.
    unfold getAllWCAGCriteria in Hw. cbn in Hw.
    repeat (destruct Hw as [<- | Hw]; [discriminate Hn |]). destruct Hw.
  - rewrite calculateWCAGScore_failed.
    assert (Hl : List.length (failedCriteria fixableIssues) = 1%nat).
    { assert (Hle : (List.length (failedCriteria fixableIssues) <=
                     List.length [named "General"])%nat).
      { apply NoDup_incl_length; [apply NoDup_nodup |].
        intros c Hc. apply Hg in Hc. left. symmetry. exact Hc. }
      cbn [List.length] in Hle.
      destruct (List.length (failedCriteria fixableIssues)) as [| n] eqn:E;
        [| lia].
      apply failedCriteria_nil in E. contradiction. }
    rewrite Hl. apply (Math_round_unique _ 83). cbn [INR]. lra.
Qed.

End ContrastExtraFacts.

(** ** Further properties of the fingerprint collector *)

Module TypographyExtraFacts.

Import JSString JSFloat Typography TypographyFacts TypographyExtra.
Local Open Scope string_scope.

(** *** The map after the collection *)

Lemma has_includes (key : string) (fontMap : FontMap) :
  has key fontMap = includes (map fst fontMap) key.
Proof.
  unfold has, includes.
  induction fontMap as [| [k v] rest IH]; [reflexivity |].
  cbn. destruct (String.eqb key k); [reflexivity | exact IH].
Qed.

Lemma map_fst_replace (key : string) (value : Entry) (fontMap : FontMap) :
  map fst (replace key value fontMap) = map fst fontMap.
Proof.
  induction fontMap as [| [k v] rest IH]; [reflexivity |].
  cbn. destruct (String.eqb key k); cbn; [| rewrite IH]; reflexivity.
Qed.

Lemma total_cons (key : string) (data : Entry) (fontMap : FontMap) :
  total ((key, data) :: fontMap) = (count data + total fontMap)%nat.
Proof. reflexivity. Qed.

Lemma total_app (fontMap more : FontMap) :
  total (fontMap ++ more)%list = (total fontMap + total more)%nat.
Proof.
  unfold total. rewrite map_app, list_sum_app. reflexivity.
Qed.

Lemma total_replace (key : string) (value old : Entry) (fontMap : FontMap) :
  get key fontMap = Some old ->
  (total (replace key value fontMap) + count old =
   total fontMap + count value)%nat.
Proof.
  induction fontMap as [| [k v] rest IH]; [discriminate |].
  cbn [get replace]. destruct (String.eqb key k).
  - intros H. injection H as ->. rewrite !total_cons. lia.
  - intros H. specialize (IH H). rewrite !total_cons. lia.
Qed.

(** One step of the collection, on an element that is not skipped. *)
Lemma collectElement_keys (fontMap : FontMap) (element : Element) :
  skipped element = false ->
  map fst (collectElement fontMap element) =
    (if includes (map fst fontMap) (styleKey element)
     then map fst fontMap
     else map fst fontMap ++ [styleKey element])%list.
Proof.
  intros Hs. unfold collectElement, styleKey. rewrite Hs. cbn zeta.
  set (key := keyOf (computedStyle element)).
  rewrite <- has_includes. unfold has.
  destruct (get key fontMap) as [entry |] eqn:E; cbn [negb].
  - rewrite E. apply map_fst_replace.
  - rewrite get_set, String.eqb_refl, map_fst_replace.
    unfold set, has. rewrite E, map_app. reflexivity.
Qed.

Lemma collectElement_total (fontMap : FontMap) (element : Element) :
  skipped element = false ->
  total (collectElement fontMap element) = Datatypes.S (total fontMap).
Proof.
  intros Hs. unfold collectElement. rewrite Hs. cbn zeta.
  set (key := keyOf (computedStyle element)).
  unfold has. destruct (get key fontMap) as [entry |] eqn:E; cbn [negb].
  - rewrite E.
    pose proof (total_replace key
                  (mkEntry (metrics entry) (elements entry ++ [element])%list
                           (Datatypes.S (count entry)))
                  entry fontMap E) as H.
    cbn [count] in H. lia.
  - rewrite get_set, String.eqb_refl.
    set (fresh := mkEntry _ [] 0).
    assert (G : get key (set key fresh fontMap) = Some fresh)
      by (rewrite get_set, String.eqb_refl; reflexivity).
    pose proof (total_replace key
                  (mkEntry (metrics fresh) (elements fresh ++ [element])%list
                           (Datatypes.S (count fresh)))
                  fresh _ G) as H.
    cbn [count fresh] in H.
    assert (T : total (set key fresh fontMap) = total fontMap).
    { unfold set, has. rewrite E, total_app. unfold total at 2. cbn. lia. }
    cbn [count fresh]. lia.
Qed.

Lemma fold_skipped (elements : list Element) (fontMap : FontMap) :
  fold_left collectElement elements fontMap =
  fold_left collectElement
    (filter (fun e => negb (skipped e)) elements) fontMap.
Proof.
  revert fontMap. induction elements as [| e rest IH]; intros fontMap;
    [reflexivity |].
  cbn [fold_left filter]. destruct (skipped e) eqn:Hs; cbn [negb].
  - rewrite collectElement_skipped by exact Hs. apply IH.
  - cbn [fold_left]. apply IH.
Qed.

Lemma filter_files (document : list Element) :
  filter (fun e => negb (skipped e)) (filter selected document) =
  filter files document.
Proof.
  induction document as [| e rest IH]; [reflexivity |].
  cbn [filter]. unfold files at 1.
  destruct (selected e); cbn [andb filter];
    [destruct (negb (skipped e)); rewrite IH; reflexivity | exact IH].
Qed.

Lemma files_not_skipped (document : list Element) :
  Forall (fun e => skipped e = false) (filter files document).
Proof.
  apply Forall_forall. intros e He. apply filter_In in He.
  destruct He as [_ He]. unfold files in He.
  apply andb_true_iff in He. destruct He as [_ He].
  apply negb_true_iff in He. exact He.
Qed.

Lemma fold_keys (elements : list Element) (fontMap : FontMap) :
  Forall (fun e => skipped e = false) elements ->
  map fst (fold_left collectElement elements fontMap) =
    firstSeen (map styleKey elements) (map fst fontMap).
Proof.
  intros H. revert fontMap.
  induction H as [| e rest Hs _ IH]; intros fontMap; [reflexivity |].
  cbn [fold_left map firstSeen]. rewrite IH, collectElement_keys by exact Hs.
  reflexivity.
Qed.

Lemma fold_total (elements : list Element) (fontMap : FontMap) :
  Forall (fun e => skipped e = false) elements ->
  total (fold_left collectElement elements fontMap) =
    (total fontMap + List.length elements)%nat.
Proof.
  intros H. revert fontMap.
  induction H as [| e rest Hs _ IH]; intros fontMap; cbn [fold_left];
    [cbn; lia |].
  rewrite IH, collectElement_total by exact Hs. cbn. lia.
Qed.


Lemma firstSeen_NoDup (keys seen : list string) :
  NoDup seen -> NoDup (firstSeen keys seen).
Proof.
  revert seen. induction keys as [| key rest IH]; intros seen H;
    [exact H |].
  cbn [firstSeen]. apply IH.
  destruct (includes seen key) eqn:E; [exact H |].
  apply NoDup_app; [exact H | repeat constructor; intros [] |].
  intros x Hx [Hk | []]. subst x.
  assert (E' : includes seen key = true).
  { unfold includes. apply existsb_exists. exists key.
    split; [exact Hx | apply String.eqb_refl]. }
  congruence.
Qed.


(** *** The report of a run *)

Lemma collect_keys_NoDup (document : list Element) :
  NoDup (map fst (collectTypographyData document [])).
Proof.
  unfold collectTypographyData. rewrite fold_skipped, filter_files.
  rewrite fold_keys by apply files_not_skipped.
  apply firstSeen_NoDup. constructor.
Qed.

Lemma In_get (fontMap : FontMap) (key : string) (data : Entry) :
  NoDup (map fst fontMap) -> In (key, data) fontMap ->
  get key fontMap = Some data.
Proof.
  induction fontMap as [| [k v] rest IH]; intros Hnd Hin; [destruct Hin |].
  cbn [map fst] in Hnd. inversion Hnd as [| ? ? Hk Hrest]; subst.
  cbn [get]. destruct Hin as [E | Hin].
  - injection E as -> ->. rewrite String.eqb_refl. reflexivity.
  - destruct (String.eqb key k) eqn:E; [| apply IH; assumption].
    apply String.eqb_eq in E. subst k. exfalso. apply Hk.
    apply in_map_iff. exists (key, data). split; [reflexivity | exact Hin].
Qed.

(** What the callback reports for one bucket. *)
Lemma emitted_shape (data : Entry) :
  Forall2 filedTogether (issues (emitted config data))
          (fixableIssues (emitted config data)) /\
  Forall (onBucket data) (fixableIssues (emitted config data)) /\
  (List.length (fixableIssues (emitted config data)) <= 5)%nat /\
  NoDup (map issueType (fixableIssues (emitted config data))).
Proof.
  unfold emitted, analyzeEntry. cbn zeta.
  case_rules.
  all: unfold report; cbn [issues fixableIssues app map List.length].
  all: split; [repeat constructor |].
  all: split; [repeat constructor; cbn; tauto |].
  all: split; [lia |].
  all: repeat (apply NoDup_cons; [cbn; intuition discriminate |]).
  all: apply NoDup_nil.
Qed.

Lemma Forall2_flat_map {A B C : Type} (R : B -> C -> Prop)
    (f : A -> list B) (g : A -> list C) (l : list A) :
  (forall x, In x l -> Forall2 R (f x) (g x)) ->
  Forall2 R (flat_map f l) (flat_map g l).
Proof.
  induction l as [| x rest IH]; intros H; [constructor |].
  cbn [flat_map]. apply Forall2_app.
  - apply H. left. reflexivity.
  - apply IH. intros y Hy. apply H. right. exact Hy.
Qed.

Lemma length_flat_map_le {A B : Type} (f : A -> list B) (l : list A)
    (n : nat) :
  (forall x, In x l -> (List.length (f x) <= n)%nat) ->
  (List.length (flat_map f l) <= n * List.length l)%nat.
Proof.
  induction l as [| x rest IH]; intros H; [cbn; lia |].
  cbn [flat_map List.length]. rewrite length_app.
  assert (H1 : (List.length (f x) <= n)%nat) by (apply H; left; reflexivity).
  assert (H2 : (List.length (flat_map f rest) <= n * List.length rest)%nat)
    by (apply IH; intros y Hy; apply H; right; exact Hy).
  lia.
Qed.

Lemma length_le_total (fontMap : FontMap) :
  (forall key data, In (key, data) fontMap -> (1 <= count data)%nat) ->
  (List.length fontMap <= total fontMap)%nat.
Proof.
  induction fontMap as [| [k v] rest IH]; intros H; [cbn; lia |].
  rewrite total_cons. cbn [List.length].
  assert (H1 : (1 <= count v)%nat) by (apply (H k); left; reflexivity).
  assert (H2 : (List.length rest <= total rest)%nat)
    by (apply IH; intros key data Hin; apply (H key); right; exact Hin).
  lia.
Qed.

(** *** The mixed families rule *)

Lemma contains_prefix (s sub : string) :
  String.prefix sub s = true -> contains s sub = true.
Proof.
  intros H. destruct s; cbn [contains]; rewrite H; reflexivity.
Qed.

Lemma contains_tail (c : ascii) (s sub : string) :
  contains s sub = true -> contains (String c s) sub = true.
Proof.
  intros H. cbn [contains]. rewrite H. apply orb_true_r.
Qed.

Lemma prefix_app (x y s : string) :
  String.prefix (x ++ y) s = true ->
  String.prefix x s = true /\ contains s y = true.
Proof.
  revert s. induction x as [| c x IH]; intros s H.
  - split; [destruct s; reflexivity | apply contains_prefix, H].
  - destruct s as [| c' s]; [discriminate H |].
    cbn [append String.prefix] in *.
    destruct (Ascii.ascii_dec c c'); [| discriminate H].
    destruct (IH s H) as [H1 H2]. split; [exact H1 |].
    apply contains_tail, H2.
Qed.

Lemma contains_app (s x y : string) :
  contains s (x ++ y) = true ->
  contains s x = true /\ contains s y = true.
Proof.
  induction s as [| c s IH]; cbn [contains]; intros H.
  - rewrite orb_false_r in H. destruct (prefix_app x y "" H) as [H1 H2].
    split; [rewrite H1; reflexivity | exact H2].
  - apply orb_true_iff in H. destruct H as [H | H].
    + destruct (prefix_app x y (String c s) H) as [H1 H2].
      split; [rewrite H1; reflexivity | exact H2].
    + destruct (IH H) as [H1 H2].
      split; [rewrite H1 | apply orb_true_iff; right; exact H2];
        apply orb_true_r.
Qed.

Lemma mixed_reported (data : Entry) :
  In "mixed-font-families"
     (map issueType (fixableIssues (emitted config data))) <->
  contains (toLowerCase (fontFamily (metricsStyle (metrics data)))) "serif"
    = true /\
  contains (toLowerCase (fontFamily (metricsStyle (metrics data)))) "sans"
    = true.
Proof.
  unfold emitted, analyzeEntry. cbn zeta.
  rewrite <- andb_true_iff.
  destruct (contains _ "serif" && contains _ "sans")%bool.
  - split; [reflexivity | intros _].
    case_rules.
    all: unfold report; cbn; tauto.
  - split; [| discriminate]. intros Hi. exfalso. revert Hi.
    case_rules.
    all: unfold report; cbn; intuition discriminate.
Qed.

(** *** The suggested values *)

Lemma SFltb_irrefl (x : spec_float) : SFltb x x = false.
Proof.
  unfold SFltb, SFcompare.
  destruct x as [s | s | | s m e]; try destruct s; cbn;
    try reflexivity;
    rewrite Z.compare_refl, Pos.compare_cont_refl; reflexivity.
Qed.

Lemma SFltb_trans (x y z : spec_float) :
  SFltb x y = true -> SFltb y z = true -> SFltb x z = true.
Proof.
  unfold SFltb, SFcompare.
  destruct x as [sx | sx | | sx mx ex], y as [sy | sy | | sy my ey],
    z as [sz | sz | | sz mz ez];
    try destruct sx; try destruct sy; try destruct sz; cbn;
    try reflexivity; try discriminate.
  all: destruct (Z.compare_spec ex ey), (Z.compare_spec ey ez),
    (Z.compare_spec ex ez); try lia; try reflexivity; try discriminate.
  all: change (Pos.compare_cont Eq ?a ?b) with (Pos.compare a b).
  all: destruct (Pos.compare_spec mx my), (Pos.compare_spec my mz),
    (Pos.compare_spec mx mz); cbn; try lia; try reflexivity;
    try discriminate.
Qed.

Lemma lt_irrefl (x : float) : lt x x = false.
Proof. unfold lt. rewrite ltb_spec. apply SFltb_irrefl. Qed.

Lemma lt_trans (x y z : float) :
  lt x y = true -> lt y z = true -> lt x z = true.
Proof. unfold lt. rewrite !ltb_spec. apply SFltb_trans. Qed.

Lemma distance_nan (currentSize size : float) :
  is_nan currentSize = true -> is_nan (distance currentSize size) = true.
Proof.
  intros H. unfold distance, is_nan.
  rewrite eqb_spec, abs_spec, sub_spec, (Prim2SF_nan currentSize H).
  destruct (Prim2SF size); reflexivity.
Qed.

Lemma nearer_nan (currentSize prev curr : float) :
  is_nan currentSize = true -> nearer currentSize prev curr = prev.
Proof.
  intros H. unfold nearer.
  fold (distance currentSize curr). fold (distance currentSize prev).
  rewrite lt_nan_l by (apply distance_nan, H). reflexivity.
Qed.

Lemma fold_nearer_nan (currentSize first : float) (rest : list float) :
  is_nan currentSize = true ->
  fold_left (nearer currentSize) rest first = first.
Proof.
  intros H. induction rest as [| c rest IH]; [reflexivity |].
  cbn [fold_left]. rewrite nearer_nan by exact H. exact IH.
Qed.

(** The reducer keeps an element that none of those seen is strictly
    nearer than. *)
Lemma fold_nearer (currentSize : float) (rest seen : list float) :
  forall prev : float,
    In prev seen ->
    (forall s, In s seen ->
               lt (distance currentSize s) (distance currentSize prev)
                 = false) ->
    let r := fold_left (nearer currentSize) rest prev in
    In r (seen ++ rest) /\
    forall s, In s (seen ++ rest) ->
              lt (distance currentSize s) (distance currentSize r) = false.
Proof.
  revert seen. induction rest as [| c rest IH]; intros seen prev Hin Hmin.
  - cbn. rewrite app_nil_r. split; assumption.
  - cbn [fold_left].
    replace (seen ++ c :: rest)%list with ((seen ++ [c]) ++ rest)%list
      by (rewrite <- app_assoc; reflexivity).
    apply IH.
    + unfold nearer. destruct (lt _ _); apply in_or_app;
        [right; left; reflexivity | left; exact Hin].
    + intros s Hs. unfold nearer.
      fold (distance currentSize c). fold (distance currentSize prev).
      destruct (lt (distance currentSize c) (distance currentSize prev))
        eqn:E.
      * apply in_app_or in Hs. destruct Hs as [Hs | [<- | []]];
          [| apply lt_irrefl].
        destruct (lt (distance currentSize s) (distance currentSize c))
          eqn:E'; [| reflexivity].
        rewrite <- (Hmin s Hs). symmetry.
        exact (lt_trans _ _ _ E' E).
      * apply in_app_or in Hs. destruct Hs as [Hs | [<- | []]];
          [apply Hmin, Hs | exact E].
Qed.

(** X16. [findNearestStandardSize] returns one of the standard sizes of
    the configuration, and no standard size is strictly nearer to the
    given size than the one returned; for a size that is not a number it
    returns the first standard size.  (An empty list of standard sizes
    makes [reduce] throw.) *)
Theorem findNearestStandardSize_nearest
    (config : Config) (currentSize : float) :
  let sizes := map parseFloat (commonFontSizes config) in
  match findNearestStandardSize config currentSize with
  | None => commonFontSizes config = []
  | Some r =>
      In r sizes /\
      (forall s, In s sizes ->
                 lt (distance currentSize s) (distance currentSize r)
                   = false) /\
      (is_nan currentSize = true -> Some r = hd_error sizes)
  end.
Proof.
  intros sizes. subst sizes. unfold findNearestStandardSize.
  destruct (commonFontSizes config) as [| size0 others]; [reflexivity |].
  cbn [map hd_error].
  set (first := parseFloat size0). set (rest := map parseFloat others).
  destruct (fold_nearer currentSize rest [first] first) as [Hin Hmin].
  - left. reflexivity.
  - intros s [<- | []]. apply lt_irrefl.
  - split; [exact Hin |]. split; [exact Hmin |].
    intros H. rewrite fold_nearer_nan by exact H. reflexivity.
Qed.

(** With the sizes of the source: 13 is as far from 12 as from 14, and
    the smaller one is returned; 27 is nearer to 24 than to 32. *)
Example findNearestStandardSize_13 :
  findNearestStandardSize Typography.config 13 = Some 12%float /\
  findNearestStandardSize Typography.config 27 = Some 24%float /\
  findNearestStandardSize Typography.config 1000 = Some 32%float.
Proof. repeat split; vm_compute; reflexivity. Qed.

(** X17. The weight that the extreme weight rule suggests is never one
    of the suspicious weights, so the suggestion does not trip the rule
    again: 400 for 100 and 200, 700 for 800 and 900; a weight that is not
    suspicious is left as it is. *)
Theorem suggestedWeight_not_suspicious (fontWeight : string) :
  includes (suspiciousWeights Typography.config)
           (suggestedWeight fontWeight) = false /\
  suggestedWeight (suggestedWeight fontWeight) = suggestedWeight fontWeight /\
  (includes (suspiciousWeights Typography.config) fontWeight = true ->
   In (suggestedWeight fontWeight) ["400"; "700"]) /\
  (includes (suspiciousWeights Typography.config) fontWeight = false ->
   suggestedWeight fontWeight = fontWeight).
Proof.
  unfold suggestedWeight, includes. cbn [suspiciousWeights Typography.config
    existsb].
  destruct (String.eqb fontWeight "100") eqn:E1;
    [repeat split; cbn; auto; discriminate |].
  destruct (String.eqb fontWeight "200") eqn:E2;
    [repeat split; cbn; auto; discriminate |].
  destruct (String.eqb fontWeight "800") eqn:E3;
    [repeat split; cbn; auto; discriminate |].
  destruct (String.eqb fontWeight "900") eqn:E4;
    [repeat split; cbn; auto; discriminate |].
  cbn [orb]. rewrite E1, E2, E3, E4. cbn [orb].
  repeat split; try reflexivity; discriminate.
Qed.

(** *** The statistics and the success message *)

Lemma severityOf_cases (type : string) :
  severityOf type = "critical" \/ severityOf type = "warning" \/
  severityOf type = "info".
Proof.
  unfold severityOf. destruct (String.eqb type _); [tauto |].
  destruct (includes _ type); tauto.
Qed.

Lemma emitted_severities (data : Entry) :
  Forall (fun issue => In (severity issue) ["critical"; "warning"; "info"])
         (issues (emitted config data)).
Proof.
  destruct (emitted_shape data) as [H2 [Hon _]].
  induction H2 as [| issue fix_ is_ fs Hp _ IH]; [constructor |].
  apply Forall_cons_iff in Hon. destruct Hon as [Hb Hon].
  constructor; [| apply IH, Hon].
  destruct Hp as [_ [Hs _]]. destruct Hb as [_ [_ [Hsev _]]].
  rewrite Hs, Hsev. cbn.
  destruct (severityOf_cases (issueType fix_)) as [-> | [-> | ->]]; tauto.
Qed.

Lemma severities_partition (l : list Issue) :
  Forall (fun issue => In (severity issue) ["critical"; "warning"; "info"])
         l ->
  (List.length (filter (hasSeverity "critical") l) +
   List.length (filter (hasSeverity "warning") l) +
   List.length (filter (hasSeverity "info") l))%nat = List.length l.
Proof.
  induction 1 as [| issue rest Hi _ IH]; [reflexivity |].
  cbn [filter].
  change (hasSeverity "critical" issue)
    with (String.eqb (severity issue) "critical").
  change (hasSeverity "warning" issue)
    with (String.eqb (severity issue) "warning").
  change (hasSeverity "info" issue)
    with (String.eqb (severity issue) "info").
  destruct Hi as [E | [E | [E | []]]]; rewrite <- E;
    cbn [String.eqb Ascii.eqb Bool.eqb andb List.length]; lia.
Qed.

Lemma emitted_redundant (data : Entry) :
  issues (emitted config data) = [] -> (2 <= count data)%nat.
Proof.
  intros H.
  destruct (Nat.le_gt_cases (count data) (redundancyThreshold config))
    as [Hle | Hgt]; [| exact Hgt].
  apply redundant_reported in Hle. destruct Hle as [fix_ [Hin _]].
  destruct (emitted_shape data) as [H2 _].
  apply Forall2_length in H2. rewrite H in H2.
  destruct (fixableIssues (emitted config data));
    [destruct Hin | discriminate H2].
Qed.

End TypographyExtraFacts.
(** ** The rules of the fingerprint collector, with the exception: facts *)

Module TypographyPassFacts.

Import JSString JSFloat DOM Typography TypographyFacts TypographyExtra.
Import TypographyExtraFacts TypographyPass.
Local Open Scope string_scope.
Local Set Warnings "-inexact-float".

(** Case analysis on the tests of the rules and on the answer of
    [generateSelector], each test named first. *)
Ltac name_tests :=
  repeat match goal with
         | |- context [if ?c then _ else _] =>
             tryif is_var c then fail
             else (let b := fresh "test" in set (b := c) in *; clearbody b)
         end.

Ltac case_tests :=
  cbv zeta; name_tests;
  repeat match goal with
         | b : bool |- _ => destruct b
         end.

Lemma analyzeEntry_app
    (document : Document) (config : Config) (st : State) (data : Entry) :
  analyzeEntry document config st data =
    after st (emitted document config data).
Proof.
  destruct st as [is_ fs].
  unfold emitted, analyzeEntry, report, createFixableIssue, addIssue.
  case_tests.
  all: unfold after, append; cbn [issues fixableIssues app andThen];
    rewrite <- ?app_assoc, ?app_nil_r; reflexivity.
Qed.

(** The callback and the callback without the exception: they agree when
    [generateSelector] returns for the elements of the bucket; when it
    does not, the first rule that fires pushes its issue and the
    exception leaves the callback. *)
Lemma emitted_cases
    (document : Document) (config : Config) (data : Entry) :
  emitted document config data =
    if accepted document data then Normal (Typography.emitted config data)
    else match issues (Typography.emitted config data) with
         | [] => Normal (mkState [] [])
         | first :: _ => Throw (mkState [first] [])
         end.
Proof.
  unfold emitted, Typography.emitted, analyzeEntry, Typography.analyzeEntry,
    accepted, report, Typography.report, createFixableIssue, addIssue.
  case_tests; reflexivity.
Qed.

Lemma emitted_lockstep (document : Document) (data : Entry) :
  match emitted document config data with
  | Normal s => Forall2 filedTogether (issues s) (fixableIssues s)
  | Throw s => (exists issue, issues s = [issue]) /\ fixableIssues s = []
  end.
Proof.
  rewrite emitted_cases. destruct (accepted document data).
  - apply emitted_shape.
  - destruct (issues (Typography.emitted config data)) as [| first rest];
      cbn; [constructor |].
    split; [eexists |]; reflexivity.
Qed.

Lemma fixableIssuesOf_cases (document : Document) (data : Entry) :
  fixableIssuesOf document config data =
    if accepted document data
    then fixableIssues (Typography.emitted config data) else [].
Proof.
  unfold fixableIssuesOf. rewrite emitted_cases.
  destruct (accepted document data); [reflexivity |].
  destruct (issues (Typography.emitted config data)); reflexivity.
Qed.

Lemma issuesOf_incl (document : Document) (data : Entry) :
  incl (issuesOf document config data)
       (issues (Typography.emitted config data)).
Proof.
  unfold issuesOf. rewrite emitted_cases.
  destruct (accepted document data); [apply incl_refl |].
  destruct (issues (Typography.emitted config data)) as [| first rest];
    cbn; [apply incl_nil_l |].
  intros x [<- | []]. left. reflexivity.
Qed.

Lemma issuesOf_nil (document : Document) (data : Entry) :
  returns (emitted document config data) = true ->
  issuesOf document config data = [] ->
  issues (Typography.emitted config data) = [].
Proof.
  unfold issuesOf. rewrite emitted_cases.
  destruct (accepted document data); cbn; [intros _ H; exact H |].
  destruct (issues (Typography.emitted config data)); cbn;
    [reflexivity | discriminate].
Qed.

(** *** The pass over the map *)

Lemma analyzeIssues_reached
    (document : Document) (config : Config) (fontMap : FontMap) :
  forall st : State,
    analyzeIssues document config fontMap st =
      (if forallb (fun kv => returns (emitted document config (snd kv)))
                  fontMap
       then Normal else Throw)
        (mkState
           (issues st ++
            flat_map (fun kv => issuesOf document config (snd kv))
                     (reached document config fontMap))
           (fixableIssues st ++
            flat_map (fun kv => fixableIssuesOf document config (snd kv))
                     (reached document config fontMap))).
Proof.
  unfold analyzeIssues.
  induction fontMap as [| kv rest IH]; intros st.
  - cbn. rewrite !app_nil_r. destruct st; reflexivity.
  - cbn [forEach forallb reached]. rewrite analyzeEntry_app.
    unfold issuesOf, fixableIssuesOf in *.
    destruct (emitted document config (snd kv)) as [s | s] eqn:E;
      cbn [after andThen returns andb flat_map].
    + rewrite IH, E. unfold append. cbn [issues fixableIssues stateOf].
      rewrite <- !app_assoc. reflexivity.
    + rewrite E. unfold append. cbn [issues fixableIssues stateOf].
      rewrite !app_nil_r. reflexivity.
Qed.

(** When [generateSelector] returns for the elements of every bucket,
    the pass returns, with the state that the pass without the exception
    gives. *)
Lemma analyzeIssues_accepted
    (document : Document) (config : Config) (fontMap : FontMap) :
  forallb (fun kv => accepted document (snd kv)) fontMap = true ->
  forall st : State,
    analyzeIssues document config fontMap st =
      Normal (Typography.analyzeIssues config fontMap st).
Proof.
  unfold analyzeIssues, Typography.analyzeIssues.
  induction fontMap as [| kv rest IH]; intros H st; [reflexivity |].
  cbn [forallb] in H. apply andb_true_iff in H. destruct H as [H1 H2].
  cbn [forEach fold_left].
  rewrite analyzeEntry_app, emitted_cases, H1. cbn [after andThen].
  rewrite (IH H2), (emitted_app config st (snd kv)). reflexivity.
Qed.

Lemma reached_incl (document : Document) (config : Config)
    (fontMap : FontMap) (kv : string * Entry) :
  In kv (reached document config fontMap) -> In kv fontMap.
Proof.
  induction fontMap as [| kv' rest IH]; [intros [] |].
  cbn [reached]. destruct (returns _).
  - intros [E | H]; [left; exact E | right; apply IH, H].
  - intros [E | []]. left. exact E.
Qed.

Lemma reached_length (document : Document) (config : Config)
    (fontMap : FontMap) :
  (List.length (reached document config fontMap) <= List.length fontMap)%nat.
Proof.
  induction fontMap as [| kv rest IH]; [reflexivity |].
  cbn [reached]. destruct (returns _); cbn [List.length]; lia.
Qed.

Lemma reached_all (document : Document) (config : Config)
    (fontMap : FontMap) :
  forallb (fun kv => returns (emitted document config (snd kv))) fontMap
    = true ->
  reached document config fontMap = fontMap.
Proof.
  induction fontMap as [| kv rest IH]; [reflexivity |].
  cbn [forallb reached]. intros H. apply andb_true_iff in H.
  destruct H as [H1 H2]. rewrite H1, (IH H2). reflexivity.
Qed.

Lemma reached_lockstep (document : Document) (fontMap : FontMap) :
  exists filedIssues last : list Issue,
    flat_map (fun kv => issuesOf document config (snd kv))
             (reached document config fontMap) =
      (filedIssues ++ last)%list /\
    Forall2 filedTogether filedIssues
      (flat_map (fun kv => fixableIssuesOf document config (snd kv))
                (reached document config fontMap)) /\
    if forallb (fun kv => returns (emitted document config (snd kv)))
               fontMap
    then last = [] else exists issue, last = [issue].
Proof.
  induction fontMap as [| kv rest [filedIssues [last [H1 [H2 H3]]]]].
  - exists [], []. repeat split. constructor.
  - cbn [forallb reached].
    pose proof (emitted_lockstep document (snd kv)) as L.
    unfold issuesOf, fixableIssuesOf in *.
    destruct (emitted document config (snd kv)) as [s | s] eqn:E;
      cbn [returns andb flat_map].
    + exists (issues s ++ filedIssues)%list, last.
      rewrite E. cbn [stateOf]. rewrite H1, app_assoc.
      split; [reflexivity |]. split; [| exact H3].
      apply Forall2_app; assumption.
    + destruct L as [[issue Hi] Hf]. exists [], [issue].
      rewrite E. cbn [stateOf]. rewrite Hi, Hf.
      split; [reflexivity |]. split; [constructor |].
      exists issue. reflexivity.
Qed.

(** *** The redundancy rule *)









(** *** The report of a run *)

(** X14. The report of a run on a document.  The fixable issues stand
    in lockstep with the issues, with the same rule, severity and
    elements; if the pass ends with the exception of [generateSelector],
    one more issue follows them, the one pushed before the exception.
    Every fixable issue is on all the elements of one bucket of the map,
    for which [generateSelector] returns and of which there is at least
    one, with the severity that belongs to its type (critical for a line
    height that is too small, info for a redundant style or a
    non-standard size, warning otherwise); and there are at most five
    fixable issues for each bucket, hence at most five for each filed
    element. *)
Theorem run_report (document : Document) (allElements : list Element) :
  let fontMap := fst (run document allElements) in
  let pass := snd (run document allElements) in
  let st := stateOf pass in
  (exists filedIssues last : list Issue,
     issues st = (filedIssues ++ last)%list /\
     Forall2 filedTogether filedIssues (fixableIssues st) /\
     if returns pass then last = [] else exists issue, last = [issue]) /\
  Forall (fun fix_ =>
            exists key data,
              get key fontMap = Some data /\
              accepted document data = true /\ onBucket data fix_ /\
              affectedElements fix_ = count data /\
              (1 <= affectedElements fix_)%nat)
         (fixableIssues st) /\
  (List.length (fixableIssues st) <= 5 * List.length fontMap)%nat /\
  (List.length fontMap <= List.length (filter files allElements))%nat.
Proof.
  intros fontMap pass st. subst fontMap pass st. unfold run. cbn [fst snd].
  rewrite analyzeIssues_reached.
  pose proof (collect_keys_NoDup allElements) as Hnd.
  pose proof (collected_bucketsFiled allElements) as Hfiled.
  set (fontMap := collectTypographyData allElements []) in *.
  pose proof (reached_lockstep document fontMap) as L.
  pose proof (reached_all document config fontMap) as Hall.
  destruct (forallb _ fontMap);
    cbn [stateOf returns issues fixableIssues app].
  all: split; [exact L |]; clear L Hall; split; [| split].
  all: try (apply Forall_forall; intros fix_ Hin; apply in_flat_map in Hin;
    destruct Hin as [[key data] [Hkv Hin]]; cbn [snd] in Hin;
    apply reached_incl in Hkv; exists key, data;
    pose proof (In_get fontMap key data Hnd Hkv) as G;
    destruct (Hfiled key data G) as [Hc [H1 _]];
    rewrite fixableIssuesOf_cases in Hin;
    destruct (accepted document data); [| destruct Hin];
    destruct (emitted_shape data) as [_ [Hon _]];
    rewrite Forall_forall in Hon; pose proof (Hon fix_ Hin) as Hb;
    destruct Hb as [Hfix [Ha Hrest]];
    repeat split; try assumption; try tauto; rewrite Ha; lia).
  all: try (pose proof (reached_length document config fontMap) as Hlen;
    assert (H5 : (List.length
                    (flat_map
                       (fun kv => fixableIssuesOf document config (snd kv))
                       (reached document config fontMap))
                  <= 5 * List.length (reached document config fontMap))%nat)
      by (apply length_flat_map_le; intros [key data] _; cbn [snd];
          rewrite fixableIssuesOf_cases;
          destruct (accepted document data);
          [apply emitted_shape | cbn; lia]);
    lia).
  all: assert (Ht : total fontMap = List.length (filter files allElements))
    by (subst fontMap; unfold collectTypographyData;
        rewrite fold_skipped, filter_files;
        rewrite fold_total by apply files_not_skipped; reflexivity).
  all: rewrite <- Ht; apply length_le_total; intros key data Hin.
  all: apply (Hfiled key data (In_get fontMap key data Hnd Hin)).
Qed.

(** *** The mixed families rule *)

(** X15. Every bucket whose lower-cased font family names the generic
    family [sans-serif] meets the test of the mixed families rule, also
    when it names no serif font at all.  When [generateSelector] returns
    for the elements of the bucket, the callback returns and files the
    fixable issue [mixed-font-families], of severity warning on the
    elements of the bucket; when it throws for one of them, the callback
    ends with the exception after one issue is pushed (that of the first
    rule that fires) and files no fixable issue. *)
Theorem sans_serif_reported_mixed (document : Document) (data : Entry) :
  contains (toLowerCase (fontFamily (metricsStyle (metrics data))))
           "sans-serif" = true ->
  if accepted document data
  then
    returns (emitted document config data) = true /\
    In "mixed-font-families"
       (map issueType (fixableIssuesOf document config data)) /\
    forall fix_,
      In fix_ (fixableIssuesOf document config data) ->
      issueType fix_ = "mixed-font-families" ->
      fixSeverity fix_ = "warning" /\ fixes fix_ = elements data
  else
    returns (emitted document config data) = false /\
    fixableIssuesOf document config data = [] /\
    exists issue, issuesOf document config data = [issue].
Proof.
  intros H.
  assert (Hmixed : In "mixed-font-families"
                      (map issueType
                           (fixableIssues (Typography.emitted config data)))).
  { apply mixed_reported.
    destruct (contains_app _ "sans" "-serif" H) as [Hsans Hrest].
    destruct (contains_app _ "-" "serif" Hrest) as [_ Hserif].
    split; assumption. }
  unfold issuesOf. rewrite fixableIssuesOf_cases, emitted_cases.
  destruct (accepted document data).
  - split; [reflexivity |]. split; [exact Hmixed |].
    intros fix_ Hin Ht.
    destruct (emitted_shape data) as [_ [Hon _]].
    rewrite Forall_forall in Hon.
    destruct (Hon fix_ Hin) as [Hfix [_ [Hsev _]]].
    rewrite Hsev, Ht. split; [reflexivity | exact Hfix].
  - destruct (emitted_shape data) as [H2 _].
    apply Forall2_length in H2.
    destruct (issues (Typography.emitted config data)) as [| first rest].
    + destruct (fixableIssues (Typography.emitted config data));
        [destruct Hmixed | discriminate H2].
    + split; [reflexivity |]. split; [reflexivity |].
      exists first. reflexivity.
Qed.

Lemma sans_serif_reported_mixed_witness :
  contains
    (toLowerCase (fontFamily (metricsStyle (metrics bodyTextBucket))))
    "sans-serif" = true /\
  accepted plainDocument bodyTextBucket = true /\
  In "mixed-font-families"
     (map issueType (fixableIssuesOf plainDocument config bodyTextBucket)).
Proof.
  split; [reflexivity |]. split; [reflexivity |].
  exact (proj1 (proj2 (sans_serif_reported_mixed plainDocument
                         bodyTextBucket eq_refl))).
Defined.

(** *** The statistics and the success message *)

(** X24. The three severity counts of the statistics that
    [exportToConsole] prints add up to the number of issues, and the
    number of font combinations is the number of buckets.  Without an
    issue there is no fixable issue; when the pass returns, the converse
    holds too, and when it ends with the exception there is an issue.  So
    a run ends with the success message (no issue) only if the pass
    returns and every bucket of the map holds at least two elements: a
    style combination that a single element uses is always reported. *)
Theorem run_statistics (document : Document) (allElements : list Element) :
  let fontMap := fst (run document allElements) in
  let pass := snd (run document allElements) in
  let st := stateOf pass in
  let stats := statistics fontMap st in
  (criticalIssues stats + warnings stats + info stats)%nat
    = List.length (issues st) /\
  totalFontCombinations stats = List.length (map fst fontMap) /\
  (issues st = [] -> fixableIssues st = []) /\
  (returns pass = true -> fixableIssues st = [] -> issues st = []) /\
  (returns pass = false -> issues st <> []) /\
  (issues st = [] ->
   returns pass = true /\
   forall key data, get key fontMap = Some data -> (2 <= count data)%nat).
Proof.
  intros fontMap pass st stats. subst fontMap pass st stats.
  unfold run, statistics.
  cbn [fst snd criticalIssues warnings info totalFontCombinations].
  rewrite analyzeIssues_reached.
  set (fontMap := collectTypographyData allElements []).
  pose proof (reached_lockstep document fontMap) as L.
  pose proof (reached_all document config fontMap) as Hall.
  destruct (forallb _ fontMap);
    cbn [stateOf returns issues fixableIssues app].
  all: destruct L as [filedIssues [last [E1 [E2 E3]]]].
  all: apply Forall2_length in E2.
  all: assert (Hsev :
    Forall (fun issue =>
              In (severity issue) ["critical"; "warning"; "info"])
      (flat_map (fun kv => issuesOf document config (snd kv))
                (reached document config fontMap)))
    by (apply Forall_forall; intros issue Hin; apply in_flat_map in Hin;
        destruct Hin as [[key data] [_ Hin]]; cbn [snd] in Hin;
        apply issuesOf_incl in Hin;
        pose proof (emitted_severities data) as H;
        rewrite Forall_forall in H; apply H, Hin).
  all: split; [apply severities_partition, Hsev |].
  all: split; [rewrite length_map; reflexivity |].
  all: rewrite E1.
  - subst last. rewrite app_nil_r.
    split; [intros ->; apply length_zero_iff_nil; symmetry; exact E2 |].
    split; [intros _ E; rewrite E in E2; apply length_zero_iff_nil, E2 |].
    split; [discriminate |].
    intros Hnone. split; [reflexivity |]. intros key data G.
    rewrite Hnone, app_nil_r in E1. rewrite (Hall eq_refl) in E1.
    assert (Hin : In (key, data) fontMap).
    { clear - G. induction fontMap as [| [k v] rest IH];
        [discriminate G |].
      cbn [get] in G. destruct (String.eqb key k) eqn:E.
      - apply String.eqb_eq in E. injection G as ->. subst k.
        left. reflexivity.
      - right. apply IH, G. }
    assert (Hempty : issuesOf document config data = []).
    { destruct (issuesOf document config data) as [| issue rest] eqn:E;
        [reflexivity |].
      exfalso.
      assert (Hi : In issue
                     (flat_map
                        (fun kv => issuesOf document config (snd kv))
                        fontMap)).
      { apply in_flat_map. exists (key, data). split; [exact Hin |].
        cbn [snd]. rewrite E. left. reflexivity. }
      rewrite E1 in Hi. destruct Hi. }
    apply emitted_redundant.
    unfold issuesOf in Hempty. rewrite emitted_cases in Hempty.
    destruct (accepted document data); [exact Hempty |].
    destruct (issues (Typography.emitted config data));
      [reflexivity | discriminate Hempty].
  - destruct E3 as [issue ->].
    split; [intros E; destruct filedIssues; discriminate E |].
    split; [discriminate |].
    split; [intros _ E; destruct filedIssues; discriminate E |].
    intros E; destruct filedIssues; discriminate E.
Qed.

End TypographyPassFacts.



(** ** Properties of the focus, touch target, tab order and heading
    checks *)

From Stdlib Require Import Permutation.

Module FocusFacts.

Import JSReal JSString JSRealFacts DOM Focus.
Local Open Scope string_scope.
Local Open Scope R_scope.

Lemma Math_round_eq (x : R) (n : Z) :
  Math_round x = IZR n <-> IZR n - / 2 <= x < IZR n + / 2.
Proof.
  split; [| apply Math_round_unique].
  intros H. pose proof (Math_round_near x) as Hn. rewrite H in Hn. lra.
Qed.

Lemma adequate_spec (element : Element) :
  adequate (getTouchTargetSize element) = true <->
  minWidth <= rectWidth element /\ minHeight <= rectHeight element.
Proof.
  unfold getTouchTargetSize. cbn [adequate].
  rewrite andb_true_iff, !geb_true. reflexivity.
Qed.

Lemma analyzeTouchTargets_inadequate
    (document : Document) (interactiveElements : list Element) :
  forall st : State,
    analyzeTouchTargets document interactiveElements st =
      (if forallb (generateSelector document)
                  (inadequate interactiveElements)
       then Normal else Throw)
        (mkState (focusIssues st)
           (fixableIssues st ++
            map touchRecord
                (completed document (inadequate interactiveElements)))).
Proof.
  unfold analyzeTouchTargets, inadequate.
  induction interactiveElements as [| e rest IH]; intros st.
  - cbn. rewrite app_nil_r. destruct st; reflexivity.
  - cbn [forEach filter]. unfold analyzeTouch at 1. cbn zeta.
    destruct (negb (adequate (getTouchTargetSize e))); cbn [andThen].
    + unfold addTouchTargetIssue, createFixableIssue.
      cbn [forallb completed].
      destruct (generateSelector document e); cbn [andb andThen map].
      * rewrite IH. cbn [focusIssues fixableIssues].
        rewrite <- app_assoc. reflexivity.
      * rewrite app_nil_r. destruct st; reflexivity.
    + apply IH.
Qed.

(** X18. [getTouchTargetSize] judges the unrounded size but reports the
    rounded one: an adequate target is reported with at least 44 by 44
    pixels, an inadequate one with a side of at most 44, and exactly the
    inadequate targets with both sides from 43.5 up to (but below) 44.5
    pixels are reported as 44 by 44, the required size itself.
    [analyzeTouchTargets] files a [touch-target-size] warning with these
    sizes for exactly the inadequate targets, in document order, up to
    the first of them on which [generateSelector] throws; it returns
    when there is none, and ends with the exception at that target
    otherwise, after the records of the targets before it.  A link of
    43.6 by 43.6 pixels is reported as 44 wide where 44 is required. *)
Theorem getTouchTargetSize_rounded (element : Element) :
  let size := getTouchTargetSize element in
  (adequate size = true ->
   requiredWidth size <= width size /\ requiredHeight size <= height size) /\
  (adequate size = false ->
   width size <= requiredWidth size \/ height size <= requiredHeight size) /\
  (adequate size = false /\ width size = requiredWidth size /\
   height size = requiredHeight size <->
   43.5 <= rectWidth element < 44.5 /\ 43.5 <= rectHeight element < 44.5 /\
   (rectWidth element < 44 \/ rectHeight element < 44)) /\
  (forall document interactiveElements st,
      analyzeTouchTargets document interactiveElements st =
        (if forallb (generateSelector document)
                    (inadequate interactiveElements)
         then Normal else Throw)
          (mkState (focusIssues st)
             (fixableIssues st ++
              map touchRecord
                  (completed document (inadequate interactiveElements))))) /\
  map (fun issue =>
         (width (currentSize issue), requiredWidth (currentSize issue)))
      (fixableIssues
         (stateOf (analyzeTouchTargets plainDocument [nearlyAdequate]
                     (mkState [] [])))) = [(44, 44)].
Proof.
  intros size. subst size.
  assert (Hnear :
    map (fun issue =>
           (width (currentSize issue), requiredWidth (currentSize issue)))
        (fixableIssues
           (stateOf (analyzeTouchTargets plainDocument [nearlyAdequate]
                       (mkState [] [])))) = [(44, 44)]).
  { rewrite analyzeTouchTargets_inadequate. unfold inadequate. cbn [filter].
    assert (E : adequate (getTouchTargetSize nearlyAdequate) = false).
    { unfold getTouchTargetSize, nearlyAdequate. cbn [adequate rectWidth
        rectHeight]. apply andb_false_iff. left.
      apply geb_false. unfold minWidth. lra. }
    rewrite E. cbn [negb forallb completed].
    assert (G : generateSelector plainDocument nearlyAdequate = true)
      by reflexivity.
    rewrite G. cbn [andb stateOf fixableIssues app map].
    unfold touchRecord. cbn [currentSize].
    unfold getTouchTargetSize, nearlyAdequate, minWidth.
    cbn [width requiredWidth rectWidth]. repeat f_equal.
    apply (Math_round_unique _ 44). lra. }
  enough (Hmain :
    (adequate (getTouchTargetSize element) = true ->
     requiredWidth (getTouchTargetSize element)
       <= width (getTouchTargetSize element) /\
     requiredHeight (getTouchTargetSize element)
       <= height (getTouchTargetSize element)) /\
    (adequate (getTouchTargetSize element) = false ->
     width (getTouchTargetSize element)
       <= requiredWidth (getTouchTargetSize element) \/
     height (getTouchTargetSize element)
       <= requiredHeight (getTouchTargetSize element)) /\
    (adequate (getTouchTargetSize element) = false /\
     width (getTouchTargetSize element)
       = requiredWidth (getTouchTargetSize element) /\
     height (getTouchTargetSize element)
       = requiredHeight (getTouchTargetSize element) <->
     43.5 <= rectWidth element < 44.5 /\
     43.5 <= rectHeight element < 44.5 /\
     (rectWidth element < 44 \/ rectHeight element < 44))).
  { destruct Hmain as [M1 [M2 M3]].
    split; [exact M1 |]. split; [exact M2 |]. split; [exact M3 |].
    split; [exact analyzeTouchTargets_inadequate | exact Hnear]. }
  clear Hnear.
  pose proof (adequate_spec element) as Ha.
  destruct (adequate (getTouchTargetSize element)) eqn:E.
  - destruct (proj1 Ha eq_refl) as [Hw Hh].
    unfold getTouchTargetSize, minWidth, minHeight in *.
    cbn [width height requiredWidth requiredHeight].
    split; [intros _ | split; [discriminate |]].
    + split; apply (ContrastExtraFacts.Math_round_ge_IZR _ 44); lra.
    + split; [intros [H _]; discriminate H | intros [_ [_ H]]; lra].
  - assert (Hn : rectWidth element < 44 \/ rectHeight element < 44).
    { destruct (Rlt_dec (rectWidth element) 44) as [H | H]; [left; exact H |].
      destruct (Rlt_dec (rectHeight element) 44) as [H' | H'];
        [right; exact H' |].
      exfalso. assert (T : false = true); [| discriminate T].
      apply Ha. unfold minWidth, minHeight. lra. }
    unfold getTouchTargetSize, minWidth, minHeight in *.
    cbn [width height requiredWidth requiredHeight].
    split; [discriminate | split].
    + intros _. destruct Hn as [H | H]; [left | right];
        apply (ContrastExtraFacts.Math_round_le_IZR _ 44); lra.
    + rewrite !(Math_round_eq _ 44). split.
      * intros [_ [H1 H2]]. repeat split; lra.
      * intros [H1 [H2 _]]. repeat split; lra.
Qed.

Lemma among_spec (array : list string) (value : option string) :
  among array value = true <->
  exists v, value = Some v /\ In v array.
Proof.
  destruct value as [v |]; cbn [among].
  - rewrite ContrastFacts.includes_In. split.
    + intros H. exists v. split; [reflexivity | exact H].
    + intros [v' [E H]]. injection E as ->. exact H.
  - split; [discriminate | intros [v [E _]]; discriminate E].
Qed.

Lemma checkKeyboardAccessibility_spec (element : Element) :
  addEventListener element = true ->
  (checkKeyboardAccessibility element = false <-> notReachable element).
Proof.
  intros Hdom. unfold checkKeyboardAccessibility, notReachable. cbn zeta.
  rewrite <- among_spec.
  destruct (tabindex element) as [t |]; cbn [equals];
    [destruct (String.eqb_spec t "-1") as [-> | Ht] |]; cbn [andb].
  - destruct (among _ (role element)) eqn:Ea.
    + assert (Et : truthyAttribute (role element) = true).
      { apply among_spec in Ea. destruct Ea as [v [-> Hin]].
        cbn in Hin. cbn [truthyAttribute]. unfold truthy.
        repeat (destruct Hin as [<- | Hin]; [reflexivity |]).
        destruct Hin. }
      rewrite Et. cbn [negb orb]. rewrite Hdom, orb_true_r, orb_true_l.
      destruct (_ && _)%bool; split; try discriminate;
        intros [_ H]; exfalso; apply H; reflexivity.
    + rewrite orb_true_r. split; [intros _ | reflexivity].
      split; [reflexivity | discriminate].
  - rewrite Hdom, orb_true_r, orb_true_l.
    destruct (_ && _)%bool; split; try discriminate;
      intros [E _]; exfalso; apply Ht; injection E as ->; reflexivity.
  - rewrite Hdom, orb_true_r, orb_true_l.
    destruct (_ && _)%bool; split; try discriminate;
      intros [E _]; discriminate E.
Qed.

Lemma checkFocusOutline_background (element : Element) :
  backgroundColor (style element) <> "" ->
  backgroundColor (style element) <> "transparent" ->
  checkFocusOutline element = true.
Proof.
  intros H1 H2. unfold checkFocusOutline. cbn zeta.
  destruct (_ || _)%bool; [| reflexivity].
  unfold truthy at 3.
  apply String.eqb_neq in H1, H2. rewrite H1, H2. cbn.
  apply orb_true_r.
Qed.

Lemma analyzeFocus_app
    (document : Document) (st : State) (element : Element) :
  analyzeFocus document st element =
    after st (analyzeFocus document (mkState [] []) element).
Proof.
  unfold analyzeFocus, addFocusIssue, createFixableIssue. cbn zeta.
  destruct (_ || _ || _)%bool.
  - destruct (forallb _ _); unfold after, append;
      cbn [focusIssues fixableIssues app]; rewrite ?app_nil_r; reflexivity.
  - unfold after, append. cbn [focusIssues fixableIssues].
    rewrite !app_nil_r. destruct st; reflexivity.
Qed.

Lemma focus_after_after (st s : State) (c : Completion State) :
  after st (after s c) = after (append st s) c.
Proof.
  destruct c; unfold after, append; cbn [focusIssues fixableIssues];
    rewrite !app_assoc; reflexivity.
Qed.

Lemma analyzeFocusability_app
    (document : Document) (focusableElements : list Element) :
  forall st : State,
    analyzeFocusability document focusableElements st =
      after st
        (analyzeFocusability document focusableElements (mkState [] [])).
Proof.
  unfold analyzeFocusability.
  induction focusableElements as [| e rest IH]; intros st.
  - cbn. unfold append. cbn. rewrite !app_nil_r. destruct st; reflexivity.
  - cbn [forEach]. rewrite (analyzeFocus_app document st e).
    destruct (analyzeFocus document (mkState [] []) e) as [s | s];
      cbn [after andThen].
    + rewrite (IH (append st s)), (IH s), focus_after_after. reflexivity.
    + reflexivity.
Qed.

(** X19. For an element of the document (which has the method
    [addEventListener]) the keyboard check fails exactly when its
    [tabindex] is -1 and its role is none of dialog, alertdialog, menu and
    menubar: the test on links without [href] can never fail.  The outline
    check passes whenever the computed background colour is neither empty
    nor [transparent].  The callback of the focus pass files nothing for
    an element that passes the three checks and returns; it pushes one
    critical focus issue when the outline or the keyboard check fails,
    and one warning when only the touch target is too small, and files
    the fixable issue [focus-accessibility] of the same severity with it
    if [generateSelector] returns for the element; if it throws, the
    focus issue stays and the exception ends the pass.  The pass keeps
    the records filed before and handles the elements one by one, in
    document order. *)
Theorem analyzeFocus_severity
    (document : Document) (st : State) (element : Element) :
  addEventListener element = true ->
  (checkKeyboardAccessibility element = false <-> notReachable element) /\
  (backgroundColor (style element) <> "" ->
   backgroundColor (style element) <> "transparent" ->
   checkFocusOutline element = true) /\
  (checkFocusOutline element = true -> ~ notReachable element ->
   adequate (getTouchTargetSize element) = true ->
   analyzeFocus document st element = Normal st) /\
  (checkFocusOutline element = false \/ notReachable element ->
   oneFocusIssue document st element "critical") /\
  (checkFocusOutline element = true -> ~ notReachable element ->
   adequate (getTouchTargetSize element) = false ->
   oneFocusIssue document st element "warning") /\
  (forall focusableElements,
      analyzeFocusability document focusableElements st =
        after st
          (analyzeFocusability document focusableElements (mkState [] [])))
  /\
  (forall rest,
      analyzeFocusability document (element :: rest) st =
        andThen (analyzeFocus document st element)
                (analyzeFocusability document rest)).
Proof.
  intros Hdom.
  pose proof (checkKeyboardAccessibility_spec element Hdom) as Hk.
  split; [exact Hk |]. split; [apply checkFocusOutline_background |].
  enough (Hmain :
    (checkFocusOutline element = true -> ~ notReachable element ->
     adequate (getTouchTargetSize element) = true ->
     analyzeFocus document st element = Normal st) /\
    (checkFocusOutline element = false \/ notReachable element ->
     oneFocusIssue document st element "critical") /\
    (checkFocusOutline element = true -> ~ notReachable element ->
     adequate (getTouchTargetSize element) = false ->
     oneFocusIssue document st element "warning")).
  { destruct Hmain as [M1 [M2 M3]].
    split; [exact M1 |]. split; [exact M2 |]. split; [exact M3 |].
    split; [| reflexivity].
    intros focusableElements. apply analyzeFocusability_app. }
  unfold oneFocusIssue, analyzeFocus, addFocusIssue, createFixableIssue.
  cbn zeta. cbn [forallb]. rewrite andb_true_r.
  destruct (checkKeyboardAccessibility element) eqn:Ek.
  - assert (Hr : ~ notReachable element)
      by (intros H; apply Hk in H; discriminate H).
    split; [| split].
    + intros -> _ ->. reflexivity.
    + intros [-> | H]; [| contradiction].
      cbn [negb orb]. eexists.
      split; [| split; [| destruct (generateSelector document element);
                          reflexivity]]; reflexivity.
    + intros -> _ ->. cbn [negb orb]. eexists.
      split; [| split; [| destruct (generateSelector document element);
                          reflexivity]]; reflexivity.
  - assert (Hr : notReachable element) by (apply Hk; reflexivity).
    split; [| split].
    + intros _ H. contradiction.
    + intros _. rewrite orb_true_r. cbn [orb]. eexists.
      split; [| split; [| destruct (generateSelector document element);
                          reflexivity]]; reflexivity.
    + intros _ H. contradiction.
Qed.

Lemma analyzeFocus_severity_witness :
  addEventListener nearlyAdequate = true /\
  oneFocusIssue plainDocument (mkState [] []) nearlyAdequate "warning".
Proof.
  split; [reflexivity |].
  apply (proj1 (proj2 (proj2 (proj2 (proj2
           (analyzeFocus_severity plainDocument (mkState [] [])
              nearlyAdequate eq_refl)))))).
  - apply checkFocusOutline_background; discriminate.
  - intros [H _]. discriminate H.
  - unfold getTouchTargetSize, nearlyAdequate. cbn [adequate rectWidth
      rectHeight]. apply andb_false_iff. left.
    apply geb_false. unfold minWidth. lra.
Defined.

End FocusFacts.

Module KeyboardFacts.

Import JSString JSFloat Focus Keyboard.
Local Open Scope string_scope.
Local Open Scope float_scope.
Local Set Warnings "-inexact-float".

Lemma neighbours_cons {A : Type} (R : A -> A -> Prop) (x y : A)
    (l : list A) :
  neighbours R (x :: y :: l) <-> R x y \/ neighbours R (y :: l).
Proof. reflexivity. Qed.

(** The loop of [checkTabOrder] after its first element. *)
Lemma fold_tabStep (elements : list Element) :
  forall (previous : float) (flag : bool) (i : nat),
    (0 < i)%nat ->
    (hasLogicalOrder
       (fold_left tabStep elements (mkTabState previous flag i)) = true <->
     flag = true /\
     ~ neighbours gap (previous :: map tabindexOf elements)).
Proof.
  induction elements as [| e rest IH]; intros previous flag i Hi.
  - cbn. tauto.
  - cbn [fold_left map]. unfold tabStep at 2.
    cbn [previousTabindex hasLogicalOrder index].
    rewrite IH by lia. rewrite (neighbours_cons gap previous).
    set (N := neighbours gap (tabindexOf e :: map tabindexOf rest)).
    unfold gap.
    assert (Ei : Nat.ltb 0 i = true) by (apply Nat.ltb_lt; exact Hi).
    rewrite Ei, andb_true_r.
    destruct (0 <? tabindexOf e); cbn [andb].
    + destruct (tabindexOf e =? previous + 1); cbn [negb].
      * intuition discriminate.
      * split; [intros [H _]; discriminate H |].
        intros [_ H]. exfalso. apply H. left. split; reflexivity.
    + intuition discriminate.
Qed.

Lemma hasLogicalOrder_spec (elements : list Element) :
  hasLogicalOrder (fold_left tabStep elements (mkTabState 0 true 0)) = true
  <-> ~ neighbours gap (map tabindexOf elements).
Proof.
  destruct elements as [| e rest]; [cbn; tauto |].
  cbn [fold_left]. unfold tabStep at 2.
  cbn [previousTabindex hasLogicalOrder index Nat.ltb Nat.leb].
  rewrite andb_false_r, fold_tabStep by lia. cbn [map]. tauto.
Qed.

Lemma insert_perm (element : Element) (sorted : list Element) :
  Permutation (insert element sorted) (element :: sorted).
Proof.
  induction sorted as [| next rest IH]; [reflexivity |].
  cbn [insert]. destruct (_ <? _); [| reflexivity].
  rewrite IH. apply perm_swap.
Qed.

Lemma sort_perm (elements : list Element) :
  Permutation (sort elements) elements.
Proof.
  induction elements as [| e rest IH]; [reflexivity |].
  cbn [sort fold_right]. fold (sort rest).
  rewrite insert_perm, IH. reflexivity.
Qed.

Lemma neighbours_gap_dec (tabs : list float) :
  neighbours gap tabs \/ ~ neighbours gap tabs.
Proof.
  induction tabs as [| x [| y r] IH]; [cbn; tauto | cbn; tauto |].
  rewrite neighbours_cons.
  assert (Hg : gap x y \/ ~ gap x y).
  { unfold gap. destruct (0 <? y), (y =? x + 1); intuition discriminate. }
  tauto.
Qed.

(** X20. [checkTabOrder] files one [tab-order] warning on the whole
    list, or nothing; it files the warning exactly when some element other
    than the first has a positive tabindex that is not the tabindex of
    the element before it plus one, both as binary64 numbers.
    [analyzeKeyboardNavigation] hands over the elements whose [tabindex]
    attribute is not -1, in another order, and a document without a
    positive tabindex always passes.  Two elements with the tabindex 1
    are reported; two elements with the tabindex 9007199254740992 pass,
    since that number plus one is the number itself. *)
Theorem checkTabOrder_flags
    (elements : list Element) (keyboardIssues : list KeyboardIssue) :
  (checkTabOrder elements keyboardIssues =
     (keyboardIssues ++ [mkKeyboardIssue "tab-order" elements "warning"])%list
   <-> neighbours gap (map tabindexOf elements)) /\
  (checkTabOrder elements keyboardIssues = keyboardIssues
   <-> ~ neighbours gap (map tabindexOf elements)) /\
  Permutation (tabbableElements elements)
    (filter (fun el => negb (equals (tabindex el) "-1")) elements) /\
  (Forall (fun el => (0 <? tabindexOf el) = false) elements ->
   analyzeKeyboardNavigation elements keyboardIssues = keyboardIssues) /\
  analyzeKeyboardNavigation [tabbed "1"; tabbed "1"] [] =
    [mkKeyboardIssue "tab-order" [tabbed "1"; tabbed "1"] "warning"] /\
  analyzeKeyboardNavigation
    [tabbed "9007199254740992"; tabbed "9007199254740992"] [] = [].
Proof.
  assert (Hcases : forall els,
    (~ neighbours gap (map tabindexOf els) /\
     checkTabOrder els keyboardIssues = keyboardIssues) \/
    (neighbours gap (map tabindexOf els) /\
     checkTabOrder els keyboardIssues =
       (keyboardIssues ++ [mkKeyboardIssue "tab-order" els "warning"])%list)).
  { intros els. unfold checkTabOrder, addKeyboardIssue. cbn zeta.
    pose proof (hasLogicalOrder_spec els) as Hs.
    destruct (neighbours_gap_dec (map tabindexOf els)) as [Hg | Hg].
    - right. split; [exact Hg |].
      destruct (hasLogicalOrder _).
      + exfalso. apply (proj1 Hs); [reflexivity | exact Hg].
      + destruct els; [destruct Hg | reflexivity].
    - left. split; [exact Hg |].
      rewrite (proj2 Hs Hg). reflexivity. }
  assert (Hne : forall (l : list KeyboardIssue) (x : KeyboardIssue),
             (l ++ [x])%list <> l).
  { intros l x H. apply (f_equal (@List.length _)) in H.
    rewrite length_app in H. cbn in H. lia. }
  split; [| split; [| split; [| split; [| split; reflexivity]]]].
  - destruct (Hcases elements) as [[Hg E] | [Hg E]]; rewrite E.
    + split; [intros H; symmetry in H; apply Hne in H; destruct H
             | contradiction].
    + tauto.
  - destruct (Hcases elements) as [[Hg E] | [Hg E]]; rewrite E.
    + tauto.
    + split; [intros H; apply Hne in H; destruct H | contradiction].
  - apply sort_perm.
  - intros Hall. unfold analyzeKeyboardNavigation, tabbableElements.
    set (kept := filter _ elements).
    destruct (Hcases (sort kept)) as [[Hg E] | [Hg E]]; [exact E |].
    exfalso.
    assert (Hs : Forall (fun z => (0 <? z) = false)
                        (map tabindexOf (sort kept))).
    { apply Forall_forall. intros z Hz. apply in_map_iff in Hz.
      destruct Hz as [el [<- Hin]].
      apply (Permutation_in _ (sort_perm kept)) in Hin.
      apply filter_In in Hin. destruct Hin as [Hin _].
      rewrite Forall_forall in Hall. apply Hall, Hin. }
    revert Hg Hs. generalize (map tabindexOf (sort kept)).
    induction l as [| x [| y r] IH]; cbn [neighbours]; intros Hg Hs;
      try contradiction.
    destruct Hg as [[Hy _] | Hg].
    + apply Forall_inv_tail, Forall_inv in Hs. congruence.
    + apply IH; [exact Hg | apply Forall_inv_tail in Hs; exact Hs].
Qed.

End KeyboardFacts.

Module ScreenReaderFacts.

Import JSString ScreenReader.
Local Open Scope string_scope.
Local Open Scope Z_scope.

Lemma onHeading_cons (h : Heading) (headings : list Heading)
    (issue : Issue) :
  onHeading headings issue -> onHeading (h :: headings) issue.
Proof.
  intros [Hs [Ht [x [Hx Hin]]]]. repeat split; try assumption.
  exists x. split; [exact Hx | right; exact Hin].
Qed.

Lemma app_nil_inv {A : Type} (l added : list A) :
  (l ++ added)%list = l <-> added = [].
Proof.
  split; [| intros ->; apply app_nil_r].
  intros H. apply (app_inv_head l). rewrite app_nil_r. exact H.
Qed.

(** The loop over the neighbours. *)
Lemma checkSkips_added (rest : list Heading) :
  forall (previous : Heading) (allIssues : list Issue),
  exists added,
    checkSkips previous rest allIssues = (allIssues ++ added)%list /\
    (added = [] <-> chain follows (previous :: rest)) /\
    (List.length added <= List.length rest)%nat /\
    Forall (onHeading (previous :: rest)) added.
Proof.
  induction rest as [| current rest IH]; intros previous allIssues.
  - exists []. cbn. rewrite app_nil_r. repeat split; constructor.
  - cbn [checkSkips]. unfold addScreenReaderIssue. cbn [includes existsb
      String.eqb Ascii.eqb Bool.eqb andb orb].
    destruct (skips previous current) eqn:E.
    + destruct (IH current (allIssues ++
                 [mkIssue "heading-skip" [current] "warning"])%list)
        as [added [H1 [_ [H3 H4]]]].
      exists (mkIssue "heading-skip" [current] "warning" :: added).
      rewrite H1, <- app_assoc. split; [reflexivity |].
      split; [| split].
      * split; [discriminate |]. intros [H _]. unfold follows in H.
        congruence.
      * cbn [List.length]. lia.
      * constructor.
        -- repeat split; [cbn; tauto |]. exists current.
           split; [reflexivity | right; left; reflexivity].
        -- eapply Forall_impl; [| exact H4]. apply onHeading_cons.
    + destruct (IH current allIssues) as [added [H1 [H2 [H3 H4]]]].
      exists added. split; [exact H1 |]. split; [| split].
      * rewrite H2. change (chain follows (previous :: current :: rest))
          with (follows previous current /\ chain follows (current :: rest)).
        unfold follows at 2. tauto.
      * cbn [List.length]. lia.
      * eapply Forall_impl; [| exact H4]. apply onHeading_cons.
Qed.

(** The loop for the empty headings. *)
Lemma checkEmpty_added (headings : list Heading) :
  forall allIssues : list Issue,
  exists added,
    fold_left checkEmpty headings allIssues = (allIssues ++ added)%list /\
    (added = [] <->
     Forall (fun h => isBlank (textContent h) = false) headings) /\
    (List.length added <= List.length headings)%nat /\
    Forall (onHeading headings) added.
Proof.
  induction headings as [| h rest IH]; intros allIssues.
  - exists []. cbn. rewrite app_nil_r. repeat split; constructor.
  - cbn [fold_left]. unfold checkEmpty at 2, addScreenReaderIssue.
    cbn [includes existsb String.eqb Ascii.eqb Bool.eqb andb orb].
    destruct (isBlank (textContent h)) eqn:E.
    + destruct (IH (allIssues ++
                 [mkIssue "empty-heading" [h] "warning"])%list)
        as [added [H1 [_ [H3 H4]]]].
      exists (mkIssue "empty-heading" [h] "warning" :: added).
      rewrite H1, <- app_assoc. split; [reflexivity |].
      split; [| split].
      * split; [discriminate |]. intros H. apply Forall_inv in H.
        congruence.
      * cbn [List.length]. lia.
      * constructor.
        -- repeat split; [cbn; tauto |]. exists h.
           split; [reflexivity | left; reflexivity].
        -- eapply Forall_impl; [| exact H4]. apply onHeading_cons.
    + destruct (IH allIssues) as [added [H1 [H2 [H3 H4]]]].
      exists added. split; [exact H1 |]. split; [| split].
      * rewrite H2. split.
        -- intros H. constructor; assumption.
        -- intros H. apply Forall_inv_tail in H. exact H.
      * cbn [List.length]. lia.
      * eapply Forall_impl; [| exact H4]. apply onHeading_cons.
Qed.

(** X21. [checkHeadingStructure] only appends to the list of issues.
    For a document without headings it appends one critical [no-headings]
    issue on no element.  Otherwise it appends warnings only, each on one
    heading of the document, at most two for each heading, and it appends
    nothing exactly when the first heading is an H1, no heading is more
    than one level below the heading before it (going up by any number
    of levels is accepted) and no heading is blank. *)
Theorem checkHeadingStructure_clean
    (headings : list Heading) (allIssues : list Issue) :
  exists added,
    checkHeadingStructure headings allIssues = (allIssues ++ added)%list /\
    (headings = [] -> added = [mkIssue "no-headings" [] "critical"]) /\
    (headings <> [] ->
     Forall (onHeading headings) added /\
     (List.length added <= 2 * List.length headings)%nat) /\
    (added = [] <->
     (exists first rest,
         headings = first :: rest /\ level first = Some 1) /\
     chain follows headings /\
     Forall (fun h => isBlank (textContent h) = false) headings).
Proof.
  destruct headings as [| first rest].
  - exists [mkIssue "no-headings" [] "critical"].
    split; [reflexivity |]. split; [reflexivity |].
    split; [intros H; contradiction |].
    split; [discriminate | intros [[f [r [H _]]] _]; discriminate H].
  - cbn [checkHeadingStructure].
    set (issues1 := match level first with
                    | Some 1 => allIssues
                    | _ => addScreenReaderIssue "no-h1-first" [first]
                             allIssues
                    end).
    assert (H1 : exists a1,
               issues1 = (allIssues ++ a1)%list /\
               (a1 = [] <-> level first = Some 1) /\
               (List.length a1 <= 1)%nat /\
               Forall (onHeading (first :: rest)) a1).
    { subst issues1. unfold addScreenReaderIssue.
      cbn [includes existsb String.eqb Ascii.eqb Bool.eqb andb orb].
      assert (Hbad : Forall (onHeading (first :: rest))
                       [mkIssue "no-h1-first" [first] "warning"]).
      { constructor; [| constructor].
        repeat split; [cbn; tauto |]. exists first.
        split; [reflexivity | left; reflexivity]. }
      destruct (level first) as [[| [p | p |] | p] |];
        try (eexists; split; [reflexivity |];
             split; [split; discriminate |];
             split; [cbn; lia | exact Hbad]).
      exists []. rewrite app_nil_r. split; [reflexivity |].
      split; [tauto |]. split; [cbn; lia | constructor]. }
    destruct H1 as [a1 [E1 [C1 [L1 F1]]]].
    destruct (checkSkips_added rest first issues1) as [a2 [E2 [C2 [L2 F2]]]].
    destruct (checkEmpty_added (first :: rest) (checkSkips first rest issues1))
      as [a3 [E3 [C3 [L3 F3]]]].
    exists (a1 ++ a2 ++ a3)%list.
    rewrite E3, E2, E1, <- !app_assoc. split; [reflexivity |].
    split; [discriminate |]. split.
    + intros _. split.
      * apply Forall_app. split; [exact F1 |].
        apply Forall_app. split; assumption.
      * rewrite !length_app. cbn [List.length] in *. lia.
    + rewrite <- C3, <- C2. split.
      * intros H. apply app_eq_nil in H. destruct H as [Ha1 H].
        apply app_eq_nil in H. destruct H as [Ha2 Ha3].
        split; [| split; assumption].
        exists first, rest. split; [reflexivity | apply C1, Ha1].
      * intros [[f [r [Hf Hl]]] [Ha2 Ha3]]. injection Hf as <- <-.
        apply C1 in Hl. subst a1 a2 a3. reflexivity.
Qed.

(** The sample outline passes; the levels are read from the tag names. *)
Example checkHeadingStructure_outline :
  map level outline = [Some 1; Some 2; Some 3; Some 2] /\
  checkHeadingStructure outline [] = [] /\
  map subType
    (checkHeadingStructure
       [mkHeading "H2" "Part"; mkHeading "H4" " "] []) =
    ["no-h1-first"; "heading-skip"; "empty-heading"].
Proof. repeat split. Qed.

End ScreenReaderFacts.

Module ColorParserFacts.

Import JSString JSFloat ColorParser.
Local Open Scope string_scope.

Lemma cache_get_set (key key' : string) (value : option Color) (cache : Cache) :
  get key' (set key value cache) =
    if String.eqb key' key then Some value else get key' cache.
Proof.
  induction cache as [| [k v] rest IH]; cbn [set get].
  - destruct (String.eqb key' key); reflexivity.
  - destruct (String.eqb key k) eqn:E; cbn [get].
    + apply String.eqb_eq in E. subst k.
      destruct (String.eqb key' key); reflexivity.
    + rewrite IH. destruct (String.eqb key' key) eqn:E'; [| reflexivity].
      apply String.eqb_eq in E'. subst key'. rewrite E. reflexivity.
Qed.

(** X22. The cache does not change what [parseColor] returns: when every
    entry of the cache is what the parser gives for its key, the call
    returns what the parser gives for the colour string, leaves such a
    cache behind, in which the string is now entered with the result (a
    failed parse, [null], is entered as well) and every other entry is as
    before, and a second call returns the same result and leaves the
    cache as it is. *)
Theorem parseColor_cache
    (computedColor : string -> string) (colorString : string)
    (cache : Cache) :
  sound computedColor cache ->
  let out := parseColor computedColor colorString cache in
  fst out = parse (computedColor colorString) /\
  sound computedColor (snd out) /\
  get colorString (snd out) = Some (fst out) /\
  (forall key, key <> colorString -> get key (snd out) = get key cache) /\
  (has colorString cache = true -> snd out = cache) /\
  parseColor computedColor colorString (snd out) = out.
Proof.
  intros Hsound out. subst out. unfold parseColor, has.
  destruct (get colorString cache) as [cached |] eqn:E; cbn [fst snd].
  - rewrite E. repeat split; try reflexivity.
    + apply Hsound, E.
    + exact Hsound.
  - rewrite cache_get_set, String.eqb_refl. repeat split; try reflexivity.
    + intros key value. rewrite cache_get_set.
      destruct (String.eqb key colorString) eqn:E'; [| apply Hsound].
      apply String.eqb_eq in E'. subst key.
      intros H. injection H as <-. reflexivity.
    + intros key Hk. rewrite cache_get_set.
      apply String.eqb_neq in Hk. rewrite Hk. reflexivity.
    + discriminate.
Qed.

Lemma parseColor_cache_witness :
  sound alwaysRed [] /\
  fst (parseColor alwaysRed "red" []) = parse (alwaysRed "red").
Proof.
  assert (H : sound alwaysRed []) by (intros key value E; discriminate E).
  split; [exact H |].
  exact (proj1 (parseColor_cache alwaysRed "red" [] H)).
Defined.

Lemma orZero_number (value : option float) : is_nan (orZero value) = false.
Proof.
  unfold orZero. destruct value as [x |]; [| reflexivity].
  destruct (is_nan x) eqn:E; cbn [orb]; [reflexivity |].
  destruct (x =? 0)%float; [reflexivity | exact E].
Qed.

(** X23. [parseColor] yields [null] exactly when the computed value holds
    no [rgb(...)] or [rgba(...)] with a non-empty argument list.
    Otherwise the red, green and blue channels are numbers (a missing or
    unreadable one is 0), and the alpha is 1 when there is no fourth
    value and the fourth value as it is otherwise, so that a fully
    transparent colour keeps its alpha 0. *)
Theorem parse_channels (computed : string) :
  (parse computed = None <-> rgbMatch computed = None) /\
  (forall color,
      parse computed = Some color ->
      is_nan (r color) = false /\ is_nan (g color) = false /\
      is_nan (b color) = false /\
      exists group,
        rgbMatch computed = Some group /\
        a color =
          match nth_error (map (fun v => parseFloat (trim v)) (split group)) 3
          with
          | Some alpha => alpha
          | None => 1%float
          end) /\
  parse "rgb(255, 0, 0)" = Some (mkColor 255 0 0 1) /\
  parse "rgba(0, 0, 0, 0)" = Some (mkColor 0 0 0 0) /\
  parse "rgba(18, 52, 86, 0.5)" = Some (mkColor 18 52 86 0.5) /\
  parse "color(srgb 1 0 0)" = None.
Proof.
  split; [| split].
  - unfold parse. destruct (rgbMatch computed); split;
      try discriminate; reflexivity.
  - intros color. unfold parse.
    destruct (rgbMatch computed) as [group |]; [| discriminate].
    intros H. injection H as <-. cbn [r g b a].
    repeat split; try apply orZero_number.
    exists group. split; reflexivity.
  - repeat split; vm_compute; reflexivity.
Qed.

End ColorParserFacts.

Module AriaFacts.

Import JSString DOM Aria.
Local Open Scope string_scope.

Lemma own_requiredStates_plain (role : string) (states : list string) :
  ContrastExtra.own requiredStates role = Some states ->
  includes ContrastExtra.objectPrototype role = false.
Proof.
  intros H. destruct (includes _ role) eqn:E; [| reflexivity].
  apply ContrastFacts.includes_In in E. cbn in E.
  repeat (destruct E as [<- | E]; [discriminate H |]). destruct E.
Qed.

Lemma addAriaIssue_missing
    (document : Document) (element : Element) (st : State) :
  addAriaIssue document element "missing-required-state" st =
    oneAriaIssue document st (missingIssue element).
Proof.
  unfold addAriaIssue, createFixableIssue, oneAriaIssue.
  cbn [includes existsb String.eqb Ascii.eqb Bool.eqb andb orb forallb
       issueElement missingIssue].
  rewrite andb_true_r. reflexivity.
Qed.

Lemma forEach_missing
    (document : Document) (element : Element) (states : list string) :
  forall st : State,
    forEach
      (fun st state =>
         if negb (hasAttribute element state)
         then addAriaIssue document element "missing-required-state" st
         else Normal st)
      states st =
    if generateSelector document element
    then
      Normal
        (mkState
           (ariaIssues st ++
            map (fun _ => missingIssue element)
                (missingStates element states))
           (fixableIssues st ++
            map (fun _ => missingFix element)
                (missingStates element states)))
    else
      match missingStates element states with
      | [] => Normal st
      | _ :: _ =>
          Throw (mkState (ariaIssues st ++ [missingIssue element])
                         (fixableIssues st))
      end.
Proof.
  induction states as [| state rest IH]; intros st.
  - cbn. rewrite !app_nil_r.
    destruct (generateSelector document element), st; reflexivity.
  - cbn [forEach missingStates filter]. fold (missingStates element rest).
    destruct (negb (hasAttribute element state)); cbn [andThen];
      [| apply IH].
    rewrite addAriaIssue_missing. unfold oneAriaIssue.
    cbn [issueElement missingIssue].
    destruct (generateSelector document element) eqn:G; cbn [andThen];
      [| reflexivity].
    rewrite IH, ?G. cbn [ariaIssues fixableIssues map].
    rewrite <- !app_assoc. reflexivity.
Qed.

(** X26. [checkAriaStates] throws the [TypeError], with nothing filed,
    exactly when the [role] attribute of the element is the name of a
    member that the table of required states inherits from
    [Object.prototype] (such as [constructor] or [toString]).  Otherwise,
    where an element without a [role] attribute is given its implicit
    role: if [generateSelector] returns for the element, the check
    returns and files one critical [missing-required-state] issue, with
    its fixable issue, for each required state of the role that the
    element lacks; if it throws, the check files nothing when no state
    is missing, and else pushes the issue of the first missing state and
    ends with the exception.  So a native checkbox or radio button
    without [aria-checked] is reported, and so is a [select] without
    [aria-expanded]. *)
Theorem checkAriaStates_required
    (document : Document) (element : Element) (st : State) :
  (getRequiredAriaStates (effectiveRole element) = None <->
   exists role,
     roleAttribute element = Some role /\
     In role ContrastExtra.objectPrototype) /\
  (getRequiredAriaStates (effectiveRole element) = None ->
   checkAriaStates document element st = Throw st) /\
  (forall states,
      getRequiredAriaStates (effectiveRole element) = Some states ->
      checkAriaStates document element st =
        if generateSelector document element
        then
          Normal
            (mkState
               (ariaIssues st ++
                map (fun _ => missingIssue element)
                    (missingStates element states))
               (fixableIssues st ++
                map (fun _ => missingFix element)
                    (missingStates element states)))
        else
          match missingStates element states with
          | [] => Normal st
          | _ :: _ =>
              Throw (mkState (ariaIssues st ++ [missingIssue element])
                             (fixableIssues st))
          end) /\
  (Focus.truthyAttribute (roleAttribute element) = false ->
   JSString.toLowerCase (tagName element) = "input" ->
   (typeAttribute element = Some "checkbox" \/
    typeAttribute element = Some "radio") ->
   hasAttribute element "aria-checked" = false ->
   checkAriaStates document element st =
     oneAriaIssue document st (missingIssue element)) /\
  (Focus.truthyAttribute (roleAttribute element) = false ->
   JSString.toLowerCase (tagName element) = "select" ->
   hasAttribute element "aria-expanded" = false ->
   checkAriaStates document element st =
     oneAriaIssue document st (missingIssue element)).
Proof.
  assert (Hgen : forall states,
             getRequiredAriaStates (effectiveRole element) = Some states ->
             checkAriaStates document element st =
               if generateSelector document element
               then
                 Normal
                   (mkState
                      (ariaIssues st ++
                       map (fun _ => missingIssue element)
                           (missingStates element states))
                      (fixableIssues st ++
                       map (fun _ => missingFix element)
                           (missingStates element states)))
               else
                 match missingStates element states with
                 | [] => Normal st
                 | _ :: _ =>
                     Throw (mkState (ariaIssues st ++ [missingIssue element])
                                    (fixableIssues st))
                 end).
  { intros states H. unfold checkAriaStates. rewrite H.
    apply forEach_missing. }
  assert (Hone : forall state,
             getRequiredAriaStates (effectiveRole element) = Some [state] ->
             hasAttribute element state = false ->
             checkAriaStates document element st =
               oneAriaIssue document st (missingIssue element)).
  { intros state H Hmissing. rewrite (Hgen [state] H).
    unfold missingStates, oneAriaIssue. cbn [filter].
    rewrite Hmissing. cbn [negb map issueElement missingIssue].
    destruct (generateSelector document element); reflexivity. }
  split; [| split; [| split; [exact Hgen | split]]].
  - destruct (getRequiredAriaStates (effectiveRole element)) as [states |]
      eqn:E.
    + split; [discriminate |]. intros [role [Hr Hin]]. exfalso.
      unfold effectiveRole in E. rewrite Hr in E.
      assert (Ht : Focus.truthyAttribute (Some role) = true).
      { cbn in Hin. cbn [Focus.truthyAttribute]. unfold Focus.truthy.
        repeat (destruct Hin as [<- | Hin]; [reflexivity |]).
        destruct Hin. }
      rewrite Ht in E. cbn [getRequiredAriaStates] in E.
      apply ContrastFacts.includes_In in Hin.
      destruct (ContrastExtra.own requiredStates role) as [l |] eqn:Eo.
      * apply own_requiredStates_plain in Eo. congruence.
      * rewrite Hin in E. discriminate E.
    + split; [intros _ | reflexivity].
      unfold effectiveRole in E.
      destruct (Focus.truthyAttribute (roleAttribute element)) eqn:Et.
      * destruct (roleAttribute element) as [role |]; [| discriminate Et].
        exists role. split; [reflexivity |].
        cbn [getRequiredAriaStates] in E.
        destruct (ContrastExtra.own requiredStates role); [discriminate |].
        destruct (includes ContrastExtra.objectPrototype role) eqn:Ei;
          [| discriminate].
        apply ContrastFacts.includes_In, Ei.
      * exfalso. unfold getImplicitRole in E. cbn zeta in E.
        destruct (String.eqb _ "a").
        { destruct (Focus.truthyAttribute (href element));
            discriminate E. }
        destruct (String.eqb _ "input").
        { destruct (typeAttribute element) as [type |];
            [| discriminate E].
          unfold ContrastExtra.own, inputRoles in E.
          repeat match type of E with
                 | context [String.eqb ?k type] =>
                     destruct (String.eqb k type); [discriminate E |]
                 end.
          destruct (includes _ type); discriminate E. }
        unfold ContrastExtra.own, implicitRoles in E.
        repeat match type of E with
               | context [String.eqb ?k ?t] =>
                   destruct (String.eqb k t); [discriminate E |]
               end.
        discriminate E.
  - intros H. unfold checkAriaStates. rewrite H. reflexivity.
  - intros Hrole Htag Htype Hmissing.
    apply (Hone "aria-checked"); [| exact Hmissing].
    unfold effectiveRole, getImplicitRole. rewrite Hrole. cbn zeta.
    rewrite Htag. cbn [String.eqb Ascii.eqb Bool.eqb andb].
    destruct Htype as [-> | ->]; reflexivity.
  - intros Hrole Htag Hmissing.
    apply (Hone "aria-expanded"); [| exact Hmissing].
    unfold effectiveRole, getImplicitRole. rewrite Hrole. cbn zeta.
    rewrite Htag. reflexivity.
Qed.

(** A native checkbox is reported; with the class [w-1/2] its issue is
    pushed and the check ends with the exception; with [role="toString"]
    the check throws before anything is filed. *)
Example checkAriaStates_checkbox :
  checkAriaStates plainDocument checkbox (mkState [] []) =
    Normal (mkState [missingIssue checkbox] [missingFix checkbox]) /\
  (let half := mkElement "INPUT" "" (Some "w-1/2") None (Some "checkbox")
                 None ["type"; "name"] in
   checkAriaStates plainDocument half (mkState [] []) =
     Throw (mkState [missingIssue half] [])) /\
  checkAriaStates plainDocument
    (mkElement "DIV" "" (Some "") (Some "toString") None None ["role"])
    (mkState [] []) = Throw (mkState [] []).
Proof. repeat split. Qed.

Lemma own_In {V : Type} (table : list (string * V)) (key : string)
    (value : V) :
  ContrastExtra.own table key = Some value -> In (key, value) table.
Proof.
  induction table as [| [k v] rest IH]; [discriminate |].
  cbn [ContrastExtra.own]. destruct (String.eqb k key) eqn:E.
  - apply String.eqb_eq in E. intros H. injection H as ->. subst k.
    left. reflexivity.
  - intros H. right. apply IH, H.
Qed.

(** An ARIA issue that [checkAriaRoles] files on [element]. *)
Lemma roleIssue_shape (element : Element) (type : string) :
  In type ["invalid-role"; "inappropriate-role"] ->
  (if includes ["missing-accessible-name"; "missing-required-state";
                "aria-conflict"] type
   then "critical" else "warning") = "warning".
Proof. intros [<- | [<- | []]]; reflexivity. Qed.

(** X28. [checkAriaRoles] files nothing for an element without a role,
    and otherwise at most two ARIA issues, both warnings on the element:
    [invalid-role] when the role is not in the list of valid roles,
    [inappropriate-role] when the table of the configuration lists roles
    for the tag and the role is not among them.  If [generateSelector]
    returns for the element, each comes with its fixable issue; if it
    throws, the first issue is the only record and the check ends with
    the exception.  Every role that the table lists for a tag is valid
    but one: [searchbox], which the table allows on [input] and the list
    of valid roles lacks, so that an [input] with the role [searchbox] is
    reported for an invalid role. *)
Theorem checkAriaRoles_searchbox
    (document : Document) (element : Element) (st : State) :
  (Focus.truthyAttribute (roleAttribute element) = false ->
   checkAriaRoles document element st = Normal st) /\
  (exists added : list AriaIssue,
      ariaIssues (stateOf (checkAriaRoles document element st)) =
        (ariaIssues st ++ added)%list /\
      fixableIssues (stateOf (checkAriaRoles document element st)) =
        (fixableIssues st ++
         if generateSelector document element then map fixOf added
         else [])%list /\
      (List.length added <= 2)%nat /\
      (generateSelector document element = false ->
       (List.length added <= 1)%nat /\
       (added <> [] ->
        returns (checkAriaRoles document element st) = false)) /\
      Forall (fun issue =>
                issueElement issue = element /\
                severity issue = "warning" /\
                In (issueType issue) ["invalid-role"; "inappropriate-role"])
             added) /\
  (forall tag roles role,
      In (tag, roles) requiredRoles -> In role roles ->
      includes getValidAriaRoles role = true \/ role = "searchbox") /\
  (JSString.toLowerCase (tagName element) = "input" ->
   roleAttribute element = Some "searchbox" ->
   checkAriaRoles document element st =
     oneAriaIssue document st (mkAriaIssue element "warning" "invalid-role")).
Proof.
  split; [| split; [| split]].
  - unfold checkAriaRoles. cbn zeta.
    destruct (roleAttribute element) as [role |]; [| reflexivity].
    cbn [Focus.truthyAttribute]. intros ->. reflexivity.
  - unfold checkAriaRoles, addAriaIssue, createFixableIssue. cbn zeta.
    cbn [includes existsb String.eqb Ascii.eqb Bool.eqb andb orb forallb].
    rewrite !andb_true_r.
    destruct (roleAttribute element) as [role |];
      [destruct (Focus.truthy role) |];
      [destruct (negb (includes getValidAriaRoles role));
       destruct (ContrastExtra.own requiredRoles _) as [roles |];
       [destruct (negb (includes roles role)) |
        destruct (includes ContrastExtra.objectPrototype _) |
        destruct (negb (includes roles role)) |
        destruct (includes ContrastExtra.objectPrototype _)] | |];
      destruct (generateSelector document element) eqn:G;
      cbn [andThen stateOf returns ariaIssues fixableIssues];
      rewrite <- ?app_assoc; cbn [app].
    all: first
      [ solve
          [ eexists; split; [reflexivity |];
            split; [first [reflexivity | symmetry; apply app_nil_r] |];
            split; [cbn; lia |];
            split; [first [discriminate
                          | intros _; split;
                            [cbn; lia | intros _; reflexivity]] |];
            repeat (apply Forall_cons; [cbn; tauto |]); apply Forall_nil ]
      | solve
          [ exists []; cbn [map]; rewrite !app_nil_r;
            split; [reflexivity |];
            split; [reflexivity |];
            split; [cbn; lia |];
            split; [intros _; split;
                    [cbn; lia | intros H; contradiction] |];
            apply Forall_nil ] ].
  - intros tag roles role Htag Hrole. cbn in Htag.
    repeat (destruct Htag as [E | Htag];
            [injection E as <- <-; cbn in Hrole;
             repeat (destruct Hrole as [<- | Hrole];
                     [first [left; reflexivity | right; reflexivity] |]);
             destruct Hrole |]).
    destruct Htag.
  - intros Htag Hrole.
    unfold checkAriaRoles, oneAriaIssue, addAriaIssue, createFixableIssue.
    cbn zeta. rewrite Htag, Hrole.
    cbn [issueElement forallb]. rewrite andb_true_r.
    destruct (generateSelector document element); reflexivity.
Qed.

End AriaFacts.
